(** * Cantonese perception experiment: audio preloader, trial runner, trial store

    A shallow embedding of [public/experiment.js] (classes
    [SmartAudioPreloader] and [CantoneseExperiment]) and of [src/index.ts]
    with the schema of [migrations/0001_init.sql], and the properties of
    the specification proved or refuted on it.

    The JavaScript is single threaded: an [async] function runs until its
    next [await], and what it does after the [await] is a continuation
    that runs when the awaited promise settles.  The embedding keeps that
    shape.
    - Synchronous code is a function on the [World]: the fields of the
      preloader, the part of the experiment object the claims talk
      about, the fetches issued so far and the clock.
    - An [async] function is a function into [Async], a tree whose nodes
      are the places where the call is suspended, each with the world it
      left and its continuation.
    - The network and the participant are a list of [Event]s fed to
      [run].  The outcome of a load runs the reactions [loadAudio] hung
      on the promise and then the call that awaits it, without anything
      in between, as the microtask queue is drained before the next
      event is taken.
    - [run] follows one call, the one of the experiment; the loads that
      [preloadAhead] starts without awaiting them live on in [fetches]
      and their reactions run when their outcome arrives.

    Stimulus ids and indices are integers ([Z]; a loop counter is a
    [nat]); times and the figures of [getProgress] are rationals where
    the code has floating point numbers, and the random numbers of
    [shuffle] are doubles, with the rounding of their product.  The DOM
    is reduced to the pause overlay and the two console lines of the
    pause screen. *)

From Stdlib Require Import ZArith QArith List Lia.
From stdpp Require Import gmap list strings.

Open Scope Z_scope.

(** ** JavaScript arrays *)

(** [Array.prototype.slice(start, end)]: a negative argument counts from
    the end of the array, both are clamped to [0, length], and an end
    before the start gives the empty array. *)
Definition jsSlice {A : Type} (l : list A) (s e : Z) : list A :=
  let len := Z.of_nat (length l) in
  let k := if s <? 0 then Z.max (len + s) 0 else Z.min s len in
  let final := if e <? 0 then Z.max (len + e) 0 else Z.min e len in
  take (Z.to_nat (final - k)) (drop (Z.to_nat k) l).

(** ** Data *)

(** A decoded, ready-to-play audio buffer; the payload stands for the
    samples. *)
Inductive AudioBuffer : Type :=
| Decoded (samples : Z).

#[global] Instance AudioBuffer_eq_dec : EqDecision AudioBuffer.
Proof. solve_decision. Defined.

(** The errors the code raises: [fetch] rejecting, a response that is not
    ok ([HTTP status]), [decodeAudioData] rejecting, the retry guard of
    [loadAudio], and the error [preloadInitial] throws in place of the
    one it caught. *)
Inductive Error : Type :=
| NetworkError
| HttpError (status : Z)
| DecodeError
| PreviouslyFailed (stimulusId : Z)
| InitialLoadFailed.

#[global] Instance Error_eq_dec : EqDecision Error.
Proof. solve_decision. Defined.

(** How a promise settles. *)
Inductive Settled : Type :=
| Fulfilled (b : AudioBuffer)
| Rejected (e : Error).

Inductive FetchStatus : Type :=
| Pending
| Finished (s : Settled).

(** One [fetch(`audio/${id}.m4a`)] with the chain of reactions
    [loadAudio] hangs on it.  A handle is the position of the record in
    [fetches]; it names the promise stored in [loadingPromises] and the
    promise the [loadAudio] call returns. *)
Record Fetch : Type := mkFetch {
  fetchId : Z;
  startTime : Q;
  status : FetchStatus;
}.

Abbreviation Handle := nat.

(** A trial result as [runExperiment] builds it. *)
Record TrialResult : Type := mkTrialResult {
  trialNumber : Z;
  stimulusId : Z;
  character : option string;
  reactionTime : Q;
  timestamp : Q;
  wasPaused : bool;
}.

(** Lines [showPauseScreen] and [hidePauseScreen] write to the console. *)
Inductive LogLine : Type :=
| ExperimentPaused (stimulusId : Z)
| ExperimentResumed.

#[global] Instance LogLine_eq_dec : EqDecision LogLine.
Proof. solve_decision. Defined.

(** The part of a [CantoneseExperiment] the claims are about.  [overlay]
    is the pause overlay: [None] before it is created, [Some true] when
    its display is [flex], [Some false] when it is [none].  [played] is
    what [source.start(0)] was called on, [localStorage] the trials kept
    for later because the POST failed, by trial number (the session is
    fixed). *)
Record Host : Type := mkHost {
  results : list TrialResult;
  isPaused : bool;
  overlay : option bool;
  console : list LogLine;
  played : list (Z * AudioBuffer);
  localStorage : gmap Z TrialResult;
}.

(** The fields of a [SmartAudioPreloader].  The two [Map]s are finite
    maps and the [Set] a finite set; their insertion order is not kept,
    as nothing the code computes depends on it.  The callbacks act on
    the host and cannot reach back into the preloader. *)
Record Preloader : Type := mkPreloader {
  totalStimuli : Z;
  bufferAhead : Z;
  audioBuffers : gmap Z AudioBuffer;
  loadingPromises : gmap Z Handle;
  loadedCount : Z;
  failedLoads : gset Z;
  loadTimes : list Q;
  onPauseCallback : option (Z -> Host -> Host);
  onResumeCallback : option (Host -> Host);
}.

Record World : Type := mkWorld {
  pre : Preloader;
  host : Host;
  fetches : list Fetch;
  clock : Q;
}.

Definition with_pre (f : Preloader -> Preloader) (w : World) : World :=
  mkWorld (f (pre w)) (host w) (fetches w) (clock w).

Definition with_host (f : Host -> Host) (w : World) : World :=
  mkWorld (pre w) (f (host w)) (fetches w) (clock w).

Definition with_fetches (f : list Fetch -> list Fetch) (w : World) : World :=
  mkWorld (pre w) (host w) (f (fetches w)) (clock w).

Definition with_clock (t : Q) (w : World) : World :=
  mkWorld (pre w) (host w) (fetches w) t.

Definition set_audioBuffers (f : gmap Z AudioBuffer -> gmap Z AudioBuffer)
    (p : Preloader) : Preloader :=
  mkPreloader (totalStimuli p) (bufferAhead p) (f (audioBuffers p))
    (loadingPromises p) (loadedCount p) (failedLoads p) (loadTimes p)
    (onPauseCallback p) (onResumeCallback p).

Definition set_loadingPromises (f : gmap Z Handle -> gmap Z Handle)
    (p : Preloader) : Preloader :=
  mkPreloader (totalStimuli p) (bufferAhead p) (audioBuffers p)
    (f (loadingPromises p)) (loadedCount p) (failedLoads p) (loadTimes p)
    (onPauseCallback p) (onResumeCallback p).

Definition set_failedLoads (f : gset Z -> gset Z) (p : Preloader) : Preloader :=
  mkPreloader (totalStimuli p) (bufferAhead p) (audioBuffers p)
    (loadingPromises p) (loadedCount p) (f (failedLoads p)) (loadTimes p)
    (onPauseCallback p) (onResumeCallback p).

(** [this.loadedCount++; this.loadTimes.push(loadTime)] *)
Definition count_load (loadTime : Q) (p : Preloader) : Preloader :=
  mkPreloader (totalStimuli p) (bufferAhead p) (audioBuffers p)
    (loadingPromises p) (loadedCount p + 1) (failedLoads p)
    (loadTimes p ++ [loadTime])
    (onPauseCallback p) (onResumeCallback p).

(** [constructor(audioContext, totalStimuli = 75, bufferAhead = 3)] *)
Definition newPreloader (total ahead : Z) : Preloader :=
  mkPreloader total ahead ∅ ∅ 0 ∅ [] None None.

Definition setPauseResumeCallbacks (onPause : Z -> Host -> Host)
    (onResume : Host -> Host) (p : Preloader) : Preloader :=
  mkPreloader (totalStimuli p) (bufferAhead p) (audioBuffers p)
    (loadingPromises p) (loadedCount p) (failedLoads p) (loadTimes p)
    (Some onPause) (Some onResume).

(** ** The host's callbacks *)

(** [showPauseScreen]: the flag is set, the overlay is created if need
    be and displayed, the pause is logged. *)
Definition showPauseScreen (stimulusId : Z) (h : Host) : Host :=
  mkHost (results h) true (Some true)
    (console h ++ [ExperimentPaused stimulusId]) (played h) (localStorage h).

(** [hidePauseScreen]: the flag is cleared, the overlay is hidden if
    there is one, the resume is logged. *)
Definition hidePauseScreen (h : Host) : Host :=
  mkHost (results h) false
    (match overlay h with Some _ => Some false | None => None end)
    (console h ++ [ExperimentResumed]) (played h) (localStorage h).

(** [if (this.onPauseCallback) this.onPauseCallback(id)] *)
Definition callPause (id : Z) (w : World) : World :=
  match onPauseCallback (pre w) with
  | Some f => with_host (f id) w
  | None => w
  end.

(** [if (this.onResumeCallback) this.onResumeCallback()] *)
Definition callResume (w : World) : World :=
  match onResumeCallback (pre w) with
  | Some f => with_host f w
  | None => w
  end.

(** ** [loadAudio] *)

(** What a call of the [async] function [loadAudio] gives back before
    anything is awaited: a promise that is already rejected, or the
    promise of the load whose handle is [h]. *)
Inductive LoadCall : Type :=
| RejectedNow (e : Error)
| Started (h : Handle).

(** The synchronous part of [loadAudio]: the retry guard, then
    [performance.now()], [fetch] and [this.loadingPromises.set].  The
    in-flight table is written and never read. *)
Definition loadAudio (stimulusId : Z) (w : World) : World * LoadCall :=
  if decide (stimulusId ∈ failedLoads (pre w)) then
    (w, RejectedNow (PreviouslyFailed stimulusId))
  else
    let h := length (fetches w) in
    (with_pre (set_loadingPromises (insert stimulusId h))
       (with_fetches (fun fs => fs ++ [mkFetch stimulusId (clock w) Pending]) w),
     Started h).

Definition set_status (s : Settled) (f : Fetch) : Fetch :=
  mkFetch (fetchId f) (startTime f) (Finished s).

(** The reactions [loadAudio] registered on the fetch of handle [h], run
    when the fetch and the decoding have an outcome at time [now]:
    - [.then]: cache the buffer, count the load, push its latency;
    - [.catch]: add the id to the failed set;
    - [.finally]: delete the id's in-flight entry, whichever load it
      belongs to;
    - the [catch] block of the suspended [loadAudio] call, which deletes
      the entry once more when the load failed.
    An outcome for a handle that is unknown or already settled is not an
    event of the system and changes nothing. *)
Definition deliver (h : Handle) (o : Settled) (now : Q) (w : World) : World :=
  match fetches w !! h with
  | Some f =>
      match status f with
      | Pending =>
          let id := fetchId f in
          let w1 := with_clock now (with_fetches (alter (set_status o) h) w) in
          match o with
          | Fulfilled b =>
              with_pre (fun p =>
                set_loadingPromises (delete id)
                  (count_load (now - startTime f)%Q
                    (set_audioBuffers (insert id b) p))) w1
          | Rejected _ =>
              with_pre (fun p =>
                set_loadingPromises (delete id)
                  (set_loadingPromises (delete id)
                    (set_failedLoads (fun s => s ∪ {[id]}) p))) w1
          end
      | Finished _ => w
      end
  | None => w
  end.

(** ** Synchronous operations of the preloader *)

(** [preloadAhead]: the filter looks at the tables as they are before the
    first [loadAudio] of the batch; the promises [loadAudio] returns are
    dropped. *)
Definition aheadBatch (sequence : list Z) (currentTrialIndex : Z) (w : World)
    : list Z :=
  let startIdx := currentTrialIndex + bufferAhead (pre w) in
  let endIdx :=
    Z.min (startIdx + bufferAhead (pre w)) (Z.of_nat (length sequence)) in
  jsSlice sequence startIdx endIdx.

Definition toLoad (sequence : list Z) (currentTrialIndex : Z) (w : World)
    : list Z :=
  filter (fun stimId =>
            audioBuffers (pre w) !! stimId = None
            ∧ loadingPromises (pre w) !! stimId = None)
         (aheadBatch sequence currentTrialIndex w).

Definition preloadAhead (sequence : list Z) (currentTrialIndex : Z)
    (w : World) : World :=
  foldl (fun w' stimId => fst (loadAudio stimId w')) w
        (toLoad sequence currentTrialIndex w).

(** [clearOldBuffers]: the loop visits the entries of the map and deletes
    those whose key is not in [keepStimuli]. *)
Definition keepStimuli (sequence : list Z) (currentIndex keepBehind : Z)
    (w : World) : list Z :=
  jsSlice sequence (Z.max 0 (currentIndex - keepBehind))
          (currentIndex + bufferAhead (pre w) + 3).

Definition clearOldBuffers (sequence : list Z) (currentIndex keepBehind : Z)
    (w : World) : World :=
  let keep := keepStimuli sequence currentIndex keepBehind w in
  with_pre (set_audioBuffers (fun m =>
    foldl (fun m' entry =>
             if decide (fst entry ∈ keep) then m' else delete (fst entry) m')
          m (map_to_list m))) w.

(** [getProgress] *)
Record Progress : Type := mkProgress {
  loaded : Z;
  total : Z;
  percentage : Q;
  currentlyLoading : nat;
  failed : nat;
  avgLoadTime : Q;
}.

Definition getProgress (w : World) : Progress :=
  let p := pre w in
  mkProgress (loadedCount p) (totalStimuli p)
    ((inject_Z (loadedCount p) / inject_Z (totalStimuli p)) * 100)%Q
    (size (loadingPromises p))
    (size (failedLoads p))
    (match loadTimes p with
     | [] => 0%Q
     | t :: ts =>
         (foldl Qplus t ts / inject_Z (Z.of_nat (length (loadTimes p))))%Q
     end).

(** ** Asynchronous functions *)

(** What the runner waits for besides loads: a timer ([sleep]), the
    participant's response to a stimulus ([waitForResponse]), the
    participant's click or key press on a screen (consent,
    [waitForSpace]) and the POST of a trial. *)
Inductive HostRequest : Type :=
| Sleep (ms : Z)
| WaitForResponse (timeout : Z)
| WaitForInput
| PostTrial (trial : TrialResult).

(** A call of an [async] function, seen from outside: it has returned
    ([Done]), thrown ([Fail]), or it is suspended at an [await], holding
    the world it left and the code that runs when it is resumed.
    [AwaitAll] is [await Promise.all(...)] over load promises. *)
Inductive Async (A : Type) : Type :=
| Done (w : World) (a : A)
| Fail (w : World) (e : Error)
| AwaitLoad (w : World) (h : Handle) (k : Settled -> World -> Async A)
| AwaitAll (w : World) (hs : list Handle)
    (k : option Error -> World -> Async A)
| AwaitHost (w : World) (r : HostRequest) (k : bool -> World -> Async A).

Arguments Done {A} w a.
Arguments Fail {A} w e.
Arguments AwaitLoad {A} w h k.
Arguments AwaitAll {A} w hs k.
Arguments AwaitHost {A} w r k.

Definition worldOf {A : Type} (c : Async A) : World :=
  match c with
  | Done w _ | Fail w _ | AwaitLoad w _ _ | AwaitAll w _ _
  | AwaitHost w _ _ => w
  end.

(** [await c] followed by [f]: a value is passed on, an exception
    propagates. *)
Fixpoint bind {A B : Type} (c : Async A) (f : A -> World -> Async B)
    : Async B :=
  match c with
  | Done w a => f a w
  | Fail w e => Fail w e
  | AwaitLoad w h k => AwaitLoad w h (fun s w' => bind (k s w') f)
  | AwaitAll w hs k => AwaitAll w hs (fun r w' => bind (k r w') f)
  | AwaitHost w r k => AwaitHost w r (fun ok w' => bind (k ok w') f)
  end.

Definition settledAt (w : World) (h : Handle) : option Settled :=
  match fetches w !! h with
  | Some f => match status f with Finished s => Some s | Pending => None end
  | None => None
  end.

(** [Promise.all]: rejected as soon as one promise is, fulfilled when all
    are; [None] while neither. *)
Fixpoint allSettled (w : World) (hs : list Handle) : option (option Error) :=
  match hs with
  | [] => Some None
  | h :: hs' =>
      match settledAt w h with
      | Some (Rejected e) => Some (Some e)
      | Some (Fulfilled _) => allSettled w hs'
      | None =>
          match allSettled w hs' with
          | Some (Some e) => Some (Some e)
          | _ => None
          end
      end
  end.

(** Continue a call for as long as what it awaits has settled. *)
Fixpoint resume {A : Type} (c : Async A) : Async A :=
  match c with
  | AwaitLoad w h k =>
      match settledAt w h with
      | Some s => resume (k s w)
      | None => c
      end
  | AwaitAll w hs k =>
      match allSettled w hs with
      | Some r => resume (k r w)
      | None => c
      end
  | _ => c
  end.

(** What happens around the program: a load has an outcome, or the timer,
    the participant or the trial POST (with [ok] for [response.ok])
    answers. *)
Inductive Event : Type :=
| EvLoad (h : Handle) (o : Settled) (now : Q)
| EvHost (ok : bool) (now : Q).

Definition updWorld {A : Type} (f : World -> World) (c : Async A) : Async A :=
  match c with
  | Done w a => Done (f w) a
  | Fail w e => Fail (f w) e
  | AwaitLoad w h k => AwaitLoad (f w) h k
  | AwaitAll w hs k => AwaitAll (f w) hs k
  | AwaitHost w r k => AwaitHost (f w) r k
  end.

(** One event: the reactions of the load run first, then the suspended
    call if it was waiting for it.  A host event nobody waits for is
    dropped. *)
Definition react {A : Type} (ev : Event) (c : Async A) : Async A :=
  match ev with
  | EvLoad h o now => resume (updWorld (deliver h o now) c)
  | EvHost ok now =>
      match c with
      | AwaitHost w r k => resume (k ok (with_clock now w))
      | _ => c
      end
  end.

Definition finished {A : Type} (c : Async A) : bool :=
  match c with
  | Done _ _ | Fail _ _ => true
  | _ => false
  end.

(** Feed events to a call until it returns or throws; the world of the
    result is the world at that moment. *)
Fixpoint run {A : Type} (evs : list Event) (c : Async A) : Async A :=
  match evs with
  | [] => c
  | ev :: evs' => if finished c then c else run evs' (react ev c)
  end.

(** ** Asynchronous operations of the preloader *)

(** The promise of a started load, awaited. *)
Definition awaitLoad (w : World) (h : Handle) : Async AudioBuffer :=
  AwaitLoad w h (fun s w' =>
    match s with
    | Fulfilled b => Done w' b
    | Rejected e => Fail w' e
    end).

(** [await this.loadAudio(stimulusId)] *)
Definition awaitLoadAudio (stimulusId : Z) (w : World) : Async AudioBuffer :=
  match loadAudio stimulusId w with
  | (w', RejectedNow e) => Fail w' e
  | (w', Started h) => awaitLoad w' h
  end.

(** [getAudioBuffer(stimulusId, showPauseUI = true)] *)
Definition getAudioBuffer (stimulusId : Z) (showPauseUI : bool) (w : World)
    : Async AudioBuffer :=
  match audioBuffers (pre w) !! stimulusId with
  | Some b => Done w b
  | None =>
      let w1 := if showPauseUI then callPause stimulusId w else w in
      let after := fun (b : AudioBuffer) (w' : World) =>
        Done (if showPauseUI then callResume w' else w') b in
      match loadingPromises (pre w) !! stimulusId with
      | Some h => bind (awaitLoad w1 h) after
      | None => bind (awaitLoadAudio stimulusId w1) after
      end
  end.

(** [ensureNextTrialReady(sequence, currentIndex)]; the index is the
    runner's loop counter. *)
Definition ensureNextTrialReady (sequence : list Z) (currentIndex : nat)
    (w : World) : Async bool :=
  match sequence !! currentIndex with
  | None => Done w true
  | Some nextStimId =>
      match audioBuffers (pre w) !! nextStimId with
      | Some _ => Done w true
      | None =>
          bind (getAudioBuffer nextStimId false (callPause nextStimId w))
               (fun _ w' => Done (callResume w') true)
      end
  end.

(** [initialBatch.map((stimId) => this.loadAudio(stimId))]: the calls are
    made one after the other, each up to its first [await]. *)
Fixpoint loadEach (ids : list Z) (w : World) : World * list LoadCall :=
  match ids with
  | [] => (w, [])
  | id :: ids' =>
      let '(w1, c) := loadAudio id w in
      let '(w2, cs) := loadEach ids' w1 in
      (w2, c :: cs)
  end.

Fixpoint firstRejected (cs : list LoadCall) : option Error :=
  match cs with
  | [] => None
  | RejectedNow e :: _ => Some e
  | Started _ :: cs' => firstRejected cs'
  end.

Definition startedHandles (cs : list LoadCall) : list Handle :=
  omap (fun c => match c with Started h => Some h | _ => None end) cs.

(** What follows [await Promise.all(...)] in [preloadInitial]: [return
    true], or the [catch] block, which throws [InitialLoadFailed]
    whatever the error it caught. *)
Definition afterInitialBatch (r : option Error) (w : World) : Async bool :=
  match r with
  | None => Done w true
  | Some _ => Fail w InitialLoadFailed
  end.

(** [preloadInitial(sequence)] *)
Definition preloadInitial (sequence : list Z) (w : World) : Async bool :=
  let initialBatch := jsSlice sequence 0 (bufferAhead (pre w)) in
  let '(w1, calls) := loadEach initialBatch w in
  match firstRejected calls with
  | Some e => afterInitialBatch (Some e) w1
  | None => resume (AwaitAll w1 (startedHandles calls) afterInitialBatch)
  end.

(** ** The trial runner *)

(** [array[i]] for an integer [i]: [undefined] outside the array. *)
Definition jsIndex {A : Type} (l : list A) (i : Z) : option A :=
  if i <? 0 then None else l !! Z.to_nat i.

Definition push_result (t : TrialResult) (h : Host) : Host :=
  mkHost (results h ++ [t]) (isPaused h) (overlay h) (console h) (played h)
    (localStorage h).

(** [source.buffer = audioBuffer; ...; source.start(0)] *)
Definition start_source (stimulusId : Z) (b : AudioBuffer) (h : Host) : Host :=
  mkHost (results h) (isPaused h) (overlay h) (console h)
    (played h ++ [(stimulusId, b)]) (localStorage h).

Definition saveToLocalStorage (t : TrialResult) (h : Host) : Host :=
  mkHost (results h) (isPaused h) (overlay h) (console h) (played h)
    (<[trialNumber t := t]> (localStorage h)).

(** [sleep(ms)], also behind [showBlank]. *)
Definition sleep (ms : Z) (w : World) : Async unit :=
  AwaitHost w (Sleep ms) (fun _ w' => Done w' tt).

(** [runTrial] up to and including [source.start(0)]: the character is
    shown for a second ([showCharacter] only paints, so the character is
    not a parameter here), the buffer is asked for with the pause screen
    enabled, and playback starts at [t1]. *)
Definition startTrial (stimulusId : Z) (w : World) : Async (AudioBuffer * Q) :=
  bind (sleep 1000 w) (fun _ w1 =>
  bind (getAudioBuffer stimulusId true w1) (fun audioBuffer w2 =>
  Done (with_host (start_source stimulusId audioBuffer) w2)
       (audioBuffer, clock w2))).

(** [runTrial]: the reaction time is [t2 - t1], with [t2] the time of the
    response or of the timeout. *)
Definition runTrial (stimulusId : Z) (w : World) : Async Q :=
  bind (startTrial stimulusId w) (fun bt w1 =>
  AwaitHost w1 (WaitForResponse 16000) (fun _ w2 =>
  Done w2 (clock w2 - snd bt)%Q)).

(** [submitTrialResult]: a POST that fails, or whose response is not ok,
    sends the trial to [localStorage]. *)
Definition submitTrialResult (t : TrialResult) (w : World) : Async unit :=
  AwaitHost w (PostTrial t) (fun ok w' =>
    Done (if ok then w' else with_host (saveToLocalStorage t) w') tt).

(** The body of the loop of [runExperiment] for position [i]. *)
Definition trial (sequence : list Z) (characters : list string) (i : nat)
    (stimId : Z) (w : World) : Async unit :=
  let character := jsIndex characters (stimId - 1) in
  bind (ensureNextTrialReady sequence i w) (fun _ w1 =>
  let w2 := preloadAhead sequence (Z.of_nat i) w1 in
  bind (runTrial stimId w2) (fun rt w3 =>
  let trialResult :=
    mkTrialResult (Z.of_nat i + 1) stimId character rt (clock w3)
      (isPaused (host w3)) in
  let w4 := with_host (push_result trialResult) w3 in
  bind (submitTrialResult trialResult w4) (fun _ w5 =>
  let w6 :=
    if (Z.of_nat i mod 10 =? 0) && (0 <? Z.of_nat i)
    then clearOldBuffers sequence (Z.of_nat i) 2 w5
    else w5 in
  sleep 500 w6))).

(** [for (let i = 0; i < total; i++)], with [n] positions left. *)
Fixpoint trialsFrom (sequence : list Z) (characters : list string)
    (n i : nat) (w : World) : Async unit :=
  match n with
  | O => Done w tt
  | S n' =>
      match sequence !! i with
      | None => Done w tt
      | Some stimId =>
          bind (trial sequence characters i stimId w) (fun _ w' =>
          trialsFrom sequence characters n' (S i) w')
      end
  end.

Definition runExperiment (sequence : list Z) (characters : list string)
    (w : World) : Async unit :=
  trialsFrom sequence characters (length sequence) 0 w.

(** [new CantoneseExperiment()]: 75 stimuli, three buffers ahead, the
    pause screen registered with the preloader. *)
Definition newExperiment : World :=
  mkWorld
    (setPauseResumeCallbacks showPauseScreen hidePauseScreen
       (newPreloader 75 3))
    (mkHost [] false None [] [] ∅)
    [] 0%Q.

(** [init] from the shuffled sequence on: the first window is loaded,
    consent and instructions wait for the participant, the trials run.
    The screens before and after are left out. *)
Definition init (sequence : list Z) (characters : list string) (w : World)
    : Async unit :=
  bind (preloadInitial sequence w) (fun _ w1 =>
  AwaitHost w1 WaitForInput (fun _ w2 =>
  AwaitHost w2 WaitForInput (fun _ w3 =>
  bind (sleep 500 w3) (fun _ w4 =>
  runExperiment sequence characters w4)))).

(** ** The worker and its store ([src/index.ts], [migrations/0001_init.sql]) *)

Module Backend.

(** [interface TrialData] *)
Record TrialData : Type := mkTrialData {
  trialNumber : Z;
  stimulusId : Z;
  character : string;
  reactionTime : Q;
  timestamp : Z;
  wasPaused : bool;
}.

(** [interface TrialSubmission] *)
Record TrialSubmission : Type := mkTrialSubmission {
  sessionId : string;
  userAgent : string;
  screenResolution : string;
  trial : TrialData;
}.

(** A property of the object [request.json()] gave, which nothing
    validates against the interfaces: it is absent ([undefined]), it is
    [null], or it has a value.  A value is taken to be of the type the
    interface declares. *)
Inductive Field (A : Type) : Type :=
| Undefined
| Null
| Value (a : A).

Arguments Undefined {A}.
Arguments Null {A}.
Arguments Value {A} a.

(** [bind] refuses [undefined] with a [D1_TYPE_ERROR] and binds [null]
    as SQL's [NULL]. *)
Definition defined {A : Type} (f : Field A) : bool :=
  match f with Undefined => false | _ => true end.

Definition stored {A : Type} (f : Field A) : option A :=
  match f with Value a => Some a | _ => None end.

(** [data.trial] as the statements read it; [json_wasPaused] is what
    [data.trial.wasPaused ? 1 : 0] tests. *)
Record JsonTrial : Type := mkJsonTrial {
  json_trialNumber : Field Z;
  json_stimulusId : Field Z;
  json_character : Field string;
  json_reactionTime : Field Q;
  json_timestamp : Field Z;
  json_wasPaused : bool;
}.

Definition json_of_trial (t : TrialData) : JsonTrial :=
  mkJsonTrial (Value (trialNumber t)) (Value (stimulusId t))
    (Value (character t)) (Value (reactionTime t)) (Value (timestamp t))
    (wasPaused t).

(** The trial when no property the insert binds is absent or null. *)
Definition bound_trial (t : JsonTrial) : option TrialData :=
  n ← stored (json_trialNumber t);
  s ← stored (json_stimulusId t);
  c ← stored (json_character t);
  rt ← stored (json_reactionTime t);
  ts ← stored (json_timestamp t);
  Some (mkTrialData n s c rt ts (json_wasPaused t)).

(** A row of [sessions]; [id] is the primary key. *)
Record SessionRow : Type := mkSessionRow {
  id : string;
  user_agent : string;
  screen_resolution : string;
  total_trials : Z;
  first_trial_at : option Z;
  last_trial_at : option Z;
  completed_at : option string;
  created_at : string;
}.

(** A row of [trials]; [trial_id] is the [AUTOINCREMENT] key, and
    [(session_id, trial_number)] is declared [UNIQUE]. *)
Record TrialRow : Type := mkTrialRow {
  trial_id : Z;
  session_id : string;
  trial_number : Z;
  stimulus_id : Z;
  row_character : string;
  reaction_time : Q;
  row_timestamp : Z;
  was_paused : Z;
  saved_at : string;
}.

(** The database: the two tables, the next [AUTOINCREMENT] id, and what
    [CURRENT_TIMESTAMP] evaluates to in it while a request is handled. *)
Record DB : Type := mkDB {
  sessions : list SessionRow;
  trials : list TrialRow;
  next_trial_id : Z;
  current_timestamp : string;
}.

Inductive DbError : Type :=
| UniqueConstraint
| ForeignKeyConstraint
| NotNullConstraint
| TypeError.

Definition has_session (sid : string) (db : DB) : bool :=
  existsb (fun s => bool_decide (id s = sid)) (sessions db).

Definition same_key (sid : string) (n : Z) (r : TrialRow) : bool :=
  bool_decide (session_id r = sid) && (trial_number r =? n).

Definition has_trial (sid : string) (n : Z) (db : DB) : bool :=
  existsb (same_key sid n) (trials db).

(** [INSERT OR IGNORE INTO sessions (id, user_agent, screen_resolution,
    first_trial_at) VALUES (?, ?, ?, ?)] once the values are bound: a
    row whose id is taken, or whose [user_agent] or [screen_resolution]
    would be [NULL] against [NOT NULL], is skipped without an error.
    [total_trials] and [created_at] get their defaults, 0 and
    [CURRENT_TIMESTAMP]; [first_trial_at] may be [NULL]. *)
Definition insert_or_ignore_session (sid : string) (ua sr : Field string)
    (ts : Field Z) (db : DB) : DB :=
  match ua, sr with
  | Value ua', Value sr' =>
      if has_session sid db then db
      else
        mkDB (sessions db ++
                [mkSessionRow sid ua' sr' 0 (stored ts) None None
                   (current_timestamp db)])
             (trials db) (next_trial_id db) (current_timestamp db)
  | _, _ => db
  end.

(** [INSERT INTO trials (...) VALUES (...)] once the values are bound: a
    plain insert, so a [NULL] in a [NOT NULL] column, a row with the same
    [(session_id, trial_number)], or a session that does not exist makes
    the statement fail. *)
Definition insert_trial (sid : string) (t : JsonTrial) (now : string)
    (db : DB) : DB + DbError :=
  match bound_trial t with
  | None => inr NotNullConstraint
  | Some td =>
      if has_trial sid (trialNumber td) db then inr UniqueConstraint
      else if negb (has_session sid db) then inr ForeignKeyConstraint
      else
        inl (mkDB (sessions db)
               (trials db ++
                  [mkTrialRow (next_trial_id db) sid (trialNumber td)
                     (stimulusId td) (character td) (reactionTime td)
                     (timestamp td) (if wasPaused td then 1 else 0) now])
               (next_trial_id db + 1) (current_timestamp db))
  end.

(** [UPDATE sessions SET last_trial_at = ? WHERE id = ?] *)
Definition update_last_trial (sid : string) (ts : Field Z) (db : DB) : DB :=
  mkDB (map (fun s =>
               if bool_decide (id s = sid) then
                 mkSessionRow (id s) (user_agent s) (screen_resolution s)
                   (total_trials s) (first_trial_at s) (stored ts)
                   (completed_at s) (created_at s)
               else s)
            (sessions db))
       (trials db) (next_trial_id db) (current_timestamp db).

(** [saveTrial] on what [request.json()] gave, with [sid] the session id
    the handler has checked: three statements, each committed on its
    own; a [bind] with an [undefined] value throws before its statement
    runs; the [catch] block logs and rethrows.  The third [bind] gets
    the timestamp the first one accepted.  [now] is
    [new Date().toISOString()]. *)
Definition saveTrialJson (sid : string) (ua sr : Field string) (t : JsonTrial)
    (now : string) (db : DB) : DB * option DbError :=
  if negb (defined ua && defined sr && defined (json_timestamp t)) then
    (db, Some TypeError)
  else
    let db1 := insert_or_ignore_session sid ua sr (json_timestamp t) db in
    if negb (defined (json_trialNumber t) && defined (json_stimulusId t)
             && defined (json_character t) && defined (json_reactionTime t))
    then (db1, Some TypeError)
    else
      match insert_trial sid t now db1 with
      | inr e => (db1, Some e)
      | inl db2 => (update_last_trial sid (json_timestamp t) db2, None)
      end.

(** [saveTrial] on a submission that satisfies its declared type. *)
Definition saveTrial (data : TrialSubmission) (now : string) (db : DB)
    : DB * option DbError :=
  saveTrialJson (sessionId data) (Value (userAgent data))
    (Value (screenResolution data)) (json_of_trial (trial data)) now db.

(** The body of a POST to [/api/trial] after [request.json()]: the
    session id, [None] when it is absent or [null]; the trial, [None]
    when [data.trial] is absent, [null] or another value that [!] takes
    for false. *)
Record JsonBody : Type := mkJsonBody {
  json_sessionId : option string;
  json_userAgent : Field string;
  json_screenResolution : Field string;
  json_trial : option JsonTrial;
}.

(** The [/api/trial] branch of [fetch]: the status of the response. *)
Definition postTrialJson (body : JsonBody) (now : string) (db : DB) : DB * Z :=
  match json_sessionId body, json_trial body with
  | Some sid, Some t =>
      if bool_decide (sid = EmptyString) then (db, 400)
      else
        match saveTrialJson sid (json_userAgent body)
                (json_screenResolution body) t now db with
        | (db', None) => (db', 200)
        | (db', Some _) => (db', 500)
        end
  | _, _ => (db, 400)
  end.

(** A body whose properties, where present, satisfy the interfaces; a
    field that is absent is [None]. *)
Record Body : Type := mkBody {
  body_sessionId : option string;
  body_userAgent : string;
  body_screenResolution : string;
  body_trial : option TrialData;
}.

Definition json_of_body (body : Body) : JsonBody :=
  mkJsonBody (body_sessionId body) (Value (body_userAgent body))
    (Value (body_screenResolution body)) (json_of_trial <$> body_trial body).

(** The [/api/trial] branch of [fetch] on such a body. *)
Definition postTrial (body : Body) (now : string) (db : DB) : DB * Z :=
  postTrialJson (json_of_body body) now db.

(** The rows stored for a key. *)
Definition rows_for (sid : string) (n : Z) (db : DB) : list TrialRow :=
  List.filter (same_key sid n) (trials db).

End Backend.

(** ** Specification vocabulary *)

(** [id] stands at a position [p] of the sequence with [lo <= p < hi]. *)
Definition inRange (sequence : list Z) (lo hi : Z) (id : Z) : Prop :=
  ∃ p : nat, lo ≤ Z.of_nat p < hi ∧ sequence !! p = Some id.

(** The ids at the positions [lo, hi) of the sequence, for [0 <= lo]. *)
Definition positions (sequence : list Z) (lo hi : Z) : list Z :=
  take (Z.to_nat hi - Z.to_nat lo) (drop (Z.to_nat lo) sequence).

(** The look-ahead window as the specification words it:
    [currentIndex + windowSize, currentIndex + 2*windowSize) clipped to
    the sequence, without the ids that are cached or in flight. *)
Definition specToLoad (sequence : list Z) (currentIndex : Z) (w : World)
    : list Z :=
  let k := bufferAhead (pre w) in
  filter (fun id =>
            audioBuffers (pre w) !! id = None
            ∧ loadingPromises (pre w) !! id = None)
         (positions sequence (currentIndex + k)
            (Z.min (currentIndex + 2 * k) (Z.of_nat (length sequence)))).

(** The worlds reached from [w] by outcomes of loads alone: what can
    happen while a call is suspended. *)
Inductive env : World -> World -> Prop :=
| env_refl w : env w w
| env_step w h o now w' : env (deliver h o now w) w' -> env w w'.

(** The in-flight table is in order: an entry names a fetch of its own
    id that has no outcome yet, and a failed id has no entry. *)
Definition inflight_ok (w : World) : Prop :=
  (∀ id h, loadingPromises (pre w) !! id = Some h →
     ∃ f, fetches w !! h = Some f ∧ fetchId f = id ∧ status f = Pending)
  ∧ (∀ id, id ∈ failedLoads (pre w) → loadingPromises (pre w) !! id = None).

(** The preloader's counters agree: one latency per counted load. *)
Definition counters_ok (w : World) : Prop :=
  Z.of_nat (length (loadTimes (pre w))) = loadedCount (pre w).

(** The preloader carries the callbacks the experiment registers. *)
Definition hosted (w : World) : Prop :=
  onPauseCallback (pre w) = Some showPauseScreen
  ∧ onResumeCallback (pre w) = Some hidePauseScreen.

(** [safe Q E c]: whatever outcomes the loads have and whenever the host
    answers, if the call [c] returns [a] in world [w] then [Q w a], and
    if it throws [e] in [w] then [E w e].  A suspended call waits for
    something that has not settled yet, and is resumed in the world in
    which it settles. *)
Inductive safe {A : Type} (Q : World -> A -> Prop) (E : World -> Error -> Prop)
    : Async A -> Prop :=
| safe_Done w a : Q w a -> safe Q E (Done w a)
| safe_Fail w e : E w e -> safe Q E (Fail w e)
| safe_AwaitLoad w h k :
    settledAt w h = None ->
    (∀ w1 o now, env w w1 -> settledAt w1 h = None ->
       settledAt (deliver h o now w1) h = Some o ->
       safe Q E (k o (deliver h o now w1))) ->
    safe Q E (AwaitLoad w h k)
| safe_AwaitAll w hs k :
    allSettled w hs = None ->
    (∀ w1 h o now r, env w w1 -> allSettled w1 hs = None ->
       allSettled (deliver h o now w1) hs = Some r ->
       safe Q E (k r (deliver h o now w1))) ->
    safe Q E (AwaitAll w hs k)
| safe_AwaitHost w r k :
    (∀ w1 ok now, env w w1 -> safe Q E (k ok (with_clock now w1))) ->
    safe Q E (AwaitHost w r k).

(** The host after the pause callback, if one is registered, and after
    the resume callback. *)
Definition pauseHost (p : Preloader) (id : Z) (h : Host) : Host :=
  match onPauseCallback p with Some f => f id h | None => h end.

Definition resumeHost (p : Preloader) (h : Host) : Host :=
  match onResumeCallback p with Some f => f h | None => h end.

(** What no operation of the preloader changes: the callbacks, the
    window size, the number of stimuli. *)
Definition same_config (w w' : World) : Prop :=
  onPauseCallback (pre w') = onPauseCallback (pre w)
  ∧ onResumeCallback (pre w') = onResumeCallback (pre w)
  ∧ bufferAhead (pre w') = bufferAhead (pre w)
  ∧ totalStimuli (pre w') = totalStimuli (pre w).

(** The load of handle [h] gets the outcome [o] at some moment after
    [w], and [w'] is the world right after its reactions have run. *)
Definition settles (w : World) (h : Handle) (o : Settled) (w' : World) : Prop :=
  ∃ w1 now, env w w1 ∧ settledAt w1 h = None
            ∧ settledAt (deliver h o now w1) h = Some o
            ∧ w' = deliver h o now w1.

(** ** Worlds and sequences used as examples *)

(** The sequence that presents the stimuli in their order, a
    permutation [shuffle] can return. *)
Definition identitySequence : list Z := Z.of_nat <$> seq 1 75.

(** The experiment just after [loadAudio(4)] was called: stimulus 4 is in
    flight under handle 0. *)
Definition loading4 : World := fst (loadAudio 4 newExperiment).

(** The scenario of the specification: eight trials, a window of two. *)
Definition piSequence : list Z := [3; 1; 4; 1; 5; 9; 2; 6].

Definition windowTwo : World :=
  mkWorld
    (setPauseResumeCallbacks showPauseScreen hidePauseScreen
       (newPreloader 8 2))
    (mkHost [] false None [] [] ∅)
    [] 0%Q.

(** [windowTwo] after [preloadInitial] has loaded stimuli 3 and 1. *)
Definition afterInitial : World :=
  worldOf
    (run [EvLoad 0%nat (Fulfilled (Decoded 3)) 1%Q;
          EvLoad 1%nat (Fulfilled (Decoded 1)) 2%Q]
       (preloadInitial piSequence windowTwo)).

(** Evict everything, then load stimulus 1 again and let the load
    succeed. *)
Definition reloadOnce (w : World) : World :=
  let w1 := clearOldBuffers [] 0 2 w in
  deliver (length (fetches w1)) (Fulfilled (Decoded 1)) 1%Q
    (fst (loadAudio 1 w1)).

(** Stimulus 1 loaded with success, then loaded again through
    [loadAudio] with a 404: the id is cached and in the failed set. *)
Definition cachedThenFailed : World :=
  let w1 := fst (loadAudio 1 newExperiment) in
  let w2 := deliver 0 (Fulfilled (Decoded 1)) 1%Q w1 in
  let w3 := fst (loadAudio 1 w2) in
  deliver 1 (Rejected (HttpError 404)) 2%Q w3.

(** Stimulus 7 answered with a 404. *)
Definition failed7 : World :=
  deliver 0 (Rejected (HttpError 404)) 1%Q (fst (loadAudio 7 newExperiment)).

(** A run of the experiment on [identitySequence]: the first window
    loads, the participant passes consent and instructions, trials 1 to 3
    run without a network answer, so that trial 4 finds stimulus 4
    still in flight (handle 3); its load then succeeds and the
    participant responds.  Each trial takes four host events: the
    one-second timer, the response, the POST, the blank screen. *)
Definition hostEvents (n : nat) (t : Q) : list Event :=
  repeat (EvHost true t) n.

Definition waitingRun : list Event :=
  [EvLoad 0%nat (Fulfilled (Decoded 1)) 1%Q;
   EvLoad 1%nat (Fulfilled (Decoded 2)) 2%Q;
   EvLoad 2%nat (Fulfilled (Decoded 3)) 3%Q]
  ++ hostEvents 3 4%Q
  ++ hostEvents 12 5%Q
  ++ [EvLoad 3%nat (Fulfilled (Decoded 4)) 6%Q]
  ++ hostEvents 2 7%Q.

(** The same run, but the load of stimulus 4 is answered with a 404. *)
Definition failingRun : list Event :=
  [EvLoad 0%nat (Fulfilled (Decoded 1)) 1%Q;
   EvLoad 1%nat (Fulfilled (Decoded 2)) 2%Q;
   EvLoad 2%nat (Fulfilled (Decoded 3)) 3%Q]
  ++ hostEvents 3 4%Q
  ++ hostEvents 12 5%Q
  ++ [EvLoad 3%nat (Rejected (HttpError 404)) 6%Q].

(** A run in which a load started in the background fails: the first
    window loads, the participant passes consent and instructions, the
    first trial starts the loads of stimuli 4, 5 and 6 (handles 3 to
    5), the load of stimulus 5 is answered with a 404, and the first
    trial goes on to its last [await], the blank screen. *)
Definition backgroundFailureRun : list Event :=
  [EvLoad 0%nat (Fulfilled (Decoded 1)) 1%Q;
   EvLoad 1%nat (Fulfilled (Decoded 2)) 2%Q;
   EvLoad 2%nat (Fulfilled (Decoded 3)) 3%Q]
  ++ hostEvents 3 4%Q
  ++ [EvLoad 4%nat (Rejected (HttpError 404)) 5%Q]
  ++ hostEvents 3 6%Q.

(** The world in which the second trial begins, and calls
    [preloadAhead]: the blank screen is over at time 7. *)
Definition secondTrialBegins : World :=
  with_clock 7%Q
    (worldOf (run backgroundFailureRun
                (init identitySequence [] newExperiment))).

(** A trial submission and the store before the first one. *)
Definition sampleSubmission : Backend.TrialSubmission :=
  Backend.mkTrialSubmission "session-1" "agent" "1920x1080"
    (Backend.mkTrialData 1 7 "seven" 350%Q 1000 false).

Definition sampleBody : Backend.Body :=
  Backend.mkBody (Some "session-1") "agent" "1920x1080"
    (Some (Backend.mkTrialData 1 7 "seven" 350%Q 1000 false)).

(** The body as [request.json()] gives it. *)
Definition sampleJson : Backend.JsonBody := Backend.json_of_body sampleBody.

Definition emptyDB : Backend.DB :=
  Backend.mkDB [] [] 1 "2025-01-01 00:00:00".

(** What holds of the experiment whenever a trial begins: the in-flight
    table is in order, the pause screen is registered and down, and no
    result so far has its pause flag set. *)
Definition calm (w : World) : Prop :=
  inflight_ok w ∧ hosted w
  ∧ isPaused (host w) = false
  ∧ Forall (fun r => wasPaused r = false) (results (host w)).

(** ** The rest of the worker ([src/index.ts], [fetch]) *)

(** A request as the worker looks at it: the method, the path of the
    URL, and what [request.json()] gives; [None] when it throws, or
    gives [null], of which the handler cannot read [sessionId]: both end
    in the [catch] block. *)
Record Request : Type := mkRequest {
  method : string;
  pathname : string;
  json : option Backend.JsonBody;
}.

(** [fetch(request, env)]: the status of the response.  [assets] stands
    for [env.ASSETS.fetch]: the status of the asset, or [None] when that
    call throws.  The routes are tried in the order of the source: the
    preflight, the static files, the trial, and [Not Found] for all the
    rest. *)
Definition handleRequest (assets : string -> option Z) (req : Request)
    (now : string) (db : Backend.DB) : Backend.DB * Z :=
  if String.eqb (method req) "OPTIONS" then (db, 200)
  else if String.eqb (method req) "GET"
          && negb (String.prefix "/api/" (pathname req)) then
    (db, match assets (pathname req) with Some st => st | None => 500 end)
  else if String.eqb (pathname req) "/api/trial"
          && String.eqb (method req) "POST" then
    match json req with
    | Some body => Backend.postTrialJson body now db
    | None => (db, 500)
    end
  else (db, 404).

(** The store is consistent with its schema: session ids are a primary
    key, [(session_id, trial_number)] is unique, trial ids are unique
    and below the next one, and every trial refers to a session. *)
Definition db_ok (db : Backend.DB) : Prop :=
  NoDup (Backend.id <$> Backend.sessions db)
  ∧ NoDup ((fun r => (Backend.session_id r, Backend.trial_number r))
           <$> Backend.trials db)
  ∧ NoDup (Backend.trial_id <$> Backend.trials db)
  ∧ Forall (fun r => Backend.trial_id r < Backend.next_trial_id db)
           (Backend.trials db)
  ∧ Forall (fun r => Backend.session_id r ∈ Backend.id <$> Backend.sessions db)
           (Backend.trials db).

(** No session is marked complete and no trial count is kept. *)
Definition never_completed (db : Backend.DB) : Prop :=
  Forall (fun s => Backend.total_trials s = 0
                   ∧ Backend.completed_at s = None)
         (Backend.sessions db).

Definition session_of (sid : string) (db : Backend.DB)
    : option Backend.SessionRow :=
  List.find (fun s => bool_decide (Backend.id s = sid)) (Backend.sessions db).

(** ** The end of the experiment ([markExperimentComplete]) *)

(** [response.ok]: a status from 200 to 299. *)
Definition statusOk (st : Z) : bool := (200 <=? st) && (st <=? 299).

(** [cleanupLocalStorage]: the keys of the session's trials are removed;
    they are all the keys [localStorage] has here. *)
Definition cleanupLocalStorage (h : Host) : Host :=
  mkHost (results h) (isPaused h) (overlay h) (console h) (played h) ∅.

(** [markExperimentComplete] once the POST to [/api/complete] has an
    answer: the status of the response, or [None] when [fetch] rejects.
    Only a response that is ok cleans up; nothing is thrown. *)
Definition markExperimentComplete (answer : option Z) (h : Host) : Host :=
  match answer with
  | Some st => if statusOk st then cleanupLocalStorage h else h
  | None => h
  end.

(** The request [markExperimentComplete] sends. *)
Definition completeRequest : Request :=
  mkRequest "POST" "/api/complete" None.

(** ** [shuffle] *)

(** [[a[i], a[j]] = [a[j], a[i]]] for two positions of the array; a
    position outside the array, where JavaScript would read [undefined]
    and grow the array, is [None]. *)
Definition swap {A : Type} (l : list A) (i j : nat) : option (list A) :=
  match l !! i, l !! j with
  | Some x, Some y => Some (<[j := x]> (<[i := y]> l))
  | _, _ => None
  end.

(** A finite double that is not negative: the number
    [mantissa * 2 ^ exponent].  It is a double when the mantissa fits
    53 bits and the exponent lies in the range of the format
    (subnormal numbers have exponent -1074). *)
Record Double := mkDouble { mantissa : Z; exponent : Z }.

Definition isDouble (x : Double) : Prop :=
  0 ≤ mantissa x < 2 ^ 53 ∧ -1074 ≤ exponent x ≤ 971.

(** [Math.floor(x)]; a shift by a negative amount is a shift to the
    right.  [Math.random()] returns a double [r] with [0 <= r < 1], that
    is one with [floorDouble r = 0]. *)
Definition floorDouble (x : Double) : Z :=
  Z.shiftl (mantissa x) (exponent x).

(** The double nearest to [m * 2 ^ e], for [m] not negative: a mantissa
    of more than 53 bits loses its low bits, and the result is rounded
    to nearest, and to the even mantissa on a tie. *)
Definition roundToDouble (m e : Z) : Double :=
  let d := Z.log2 m + 1 - 53 in
  if d <=? 0 then mkDouble m e
  else
    let q := Z.shiftr m d in
    let rest := m mod 2 ^ d in
    let half := 2 ^ (d - 1) in
    mkDouble (if rest <? half then q
              else if half <? rest then q + 1
              else if Z.even q then q else q + 1)
             (e + d).

(** [r * n] for an integer [n] that is itself a double: the exact
    product, rounded. *)
Definition timesInt (r : Double) (n : Z) : Double :=
  roundToDouble (mantissa r * n) (exponent r).

(** [Math.floor(Math.random() * (i + 1))], with [r] the random number. *)
Definition randomIndex (r : Double) (i : nat) : nat :=
  Z.to_nat (floorDouble (timesInt r (Z.of_nat (i + 1)))).

(** The loop of [shuffle], from position [i] down to 1; [random n] is
    the value of the [n]-th call of [Math.random()]. *)
Fixpoint shuffleFrom {A : Type} (random : nat -> Double) (call i : nat)
    (l : list A) : option (list A) :=
  match i with
  | O => Some l
  | S i' =>
      match swap l i (randomIndex (random call) i) with
      | Some l' => shuffleFrom random (S call) i' l'
      | None => None
      end
  end.

Definition shuffle {A : Type} (random : nat -> Double) (array : list A)
    : option (list A) :=
  shuffleFrom random 0 (length array - 1) array.

(** The double 0.5714285714285714, the one nearest to 4/7: seven times
    it is 4 once rounded, where the exact product is below 4. *)
Definition fourSevenths : Double := mkDouble 5146971002709138 (-53).

(** [[...Array(75).keys()].map((i) => i + 1)] *)
Definition stimulusIds : list Z :=
  (fun i => i + 1) <$> (Z.of_nat <$> seq 0 75).

(** ** Vocabulary for the fetch log *)

(** Every load that has no outcome yet is the one the in-flight table
    holds for its id. *)
Definition registered (w : World) : Prop :=
  ∀ h f, fetches w !! h = Some f -> status f = Pending ->
         loadingPromises (pre w) !! fetchId f = Some h.

Definition isPending (f : Fetch) : bool :=
  match status f with Pending => true | Finished _ => false end.

Definition isFulfilled (f : Fetch) : bool :=
  match status f with Finished (Fulfilled _) => true | _ => false end.

(** The loads that succeeded so far, counted in the fetch log. *)
Definition fulfilledCount (w : World) : nat :=
  length (List.filter isFulfilled (fetches w)).

(** ** [waitForResponse] *)

(** What can happen while [waitForResponse] waits: a key goes down, the
    screen is clicked or touched, the timer of the timeout fires. *)
Inductive DomEvent : Type :=
| KeyDown (code : string)
| Click
| TouchEnd
| TimerFired.

(** The closure of [waitForResponse]: the flag [responded], whether the
    [keydown] listener and the listeners on the screen are registered,
    whether the timer is still to fire, the value the promise was
    resolved with, and how often [audioSource.stop()] was called. *)
Record Waiting : Type := mkWaiting {
  responded : bool;
  keyListener : bool;
  screenListeners : bool;
  timerPending : bool;
  resolvedWith : option Q;
  stops : nat;
}.

(** The state when [waitForResponse] returns its promise; the listeners
    on the screen are registered only if the element exists. *)
Definition startWaiting (hasScreen : bool) : Waiting :=
  mkWaiting false true hasScreen true None 0.

(** [resolve(value)]: only the first call settles the promise. *)
Definition resolveWith (t : Q) (r : option Q) : option Q :=
  match r with Some _ => r | None => Some t end.

(** [resolveOnce] *)
Definition resolveOnce (now : Q) (s : Waiting) : Waiting :=
  if responded s then s
  else mkWaiting true false false (timerPending s)
         (resolveWith now (resolvedWith s)) (S (stops s)).

(** One event at time [now]: the handlers that are registered run. *)
Definition onDomEvent (s : Waiting) (ev : DomEvent * Q) : Waiting :=
  match ev with
  | (KeyDown code, now) =>
      if keyListener s && String.eqb code "Space" then resolveOnce now s else s
  | (Click, now) | (TouchEnd, now) =>
      if screenListeners s then resolveOnce now s else s
  | (TimerFired, now) =>
      if timerPending s then
        if responded s then
          mkWaiting true (keyListener s) (screenListeners s) false
            (resolvedWith s) (stops s)
        else
          mkWaiting true false false false
            (resolveWith now (resolvedWith s)) (stops s)
      else s
  end.

(** The events that end the wait: the space key, a click or a touch
    when there is a screen, the timer. *)
Definition decisive (hasScreen : bool) (ev : DomEvent * Q) : bool :=
  match fst ev with
  | KeyDown code => String.eqb code "Space"
  | Click | TouchEnd => hasScreen
  | TimerFired => true
  end.

Definition byParticipant (ev : DomEvent * Q) : bool :=
  match fst ev with TimerFired => false | _ => true end.

(** ** The service worker ([public/sw.js]) *)

Module ServiceWorker.

Record HttpResponse : Type := mkHttpResponse {
  httpStatus : Z;
  httpBody : Z;
}.

(** What [fetch(event.request)] does: a response, or a rejection. *)
Inductive Network : Type :=
| Responds (r : HttpResponse)
| Unreachable.

(** What the page gets: a response, or a network error. *)
Inductive Served : Type :=
| Serves (r : HttpResponse)
| Fails.

(** [url.includes(needle)] and [url.endsWith(suffix)] *)
Definition includes (needle s : string) : bool :=
  match String.index 0 needle s with Some _ => true | None => false end.

Definition endsWith (suffix s : string) : bool :=
  (String.length suffix <=? String.length s)%nat
  && String.eqb
       (String.substring (String.length s - String.length suffix)
          (String.length suffix) s)
       suffix.

Definition isAudioRequest (url : string) : bool :=
  includes "/audio/" url && endsWith ".m4a" url.

(** The [fetch] listener for one request, with the cache
    [cantonese-audio-v1] as a map from URLs: an audio file is served
    from the cache when it is there; otherwise it is fetched, stored
    when the status is 200, and handed on; when the fetch rejects the
    cache is asked once more, and a miss there leaves the page without a
    response.  Any other request goes to the network.  The [put] is
    taken to be done when the next request arrives. *)
Definition onFetch (url : string) (net : Network)
    (cache : gmap string HttpResponse) : gmap string HttpResponse * Served :=
  if isAudioRequest url then
    match cache !! url with
    | Some cachedResponse => (cache, Serves cachedResponse)
    | None =>
        match net with
        | Responds networkResponse =>
            (if httpStatus networkResponse =? 200
             then <[url := networkResponse]> cache else cache,
             Serves networkResponse)
        | Unreachable =>
            (cache,
             match cache !! url with
             | Some stale => Serves stale
             | None => Fails
             end)
        end
    end
  else
    (cache, match net with Responds r => Serves r | Unreachable => Fails end).

(** A series of requests, each with what the network would do. *)
Definition serveAll (requests : list (string * Network))
    (cache : gmap string HttpResponse) : gmap string HttpResponse :=
  foldl (fun c req => fst (onFetch (fst req) (snd req) c)) cache requests.

End ServiceWorker.

(** ** The preloader against the fetch log *)

(** The preloader's tables agree with what the loads did: the in-flight
    table lists the loads without an outcome, one per id; the counter
    counts the loads that succeeded; a cached buffer is one a load of
    its id delivered; the failed set holds the ids a load of which
    failed; and no load is under way for an id that is cached. *)
Definition tidy (w : World) : Prop :=
  inflight_ok w ∧ registered w ∧ counters_ok w
  ∧ loadedCount (pre w) = Z.of_nat (fulfilledCount w)
  ∧ (∀ id b, audioBuffers (pre w) !! id = Some b ->
       ∃ h f, fetches w !! h = Some f ∧ fetchId f = id
              ∧ status f = Finished (Fulfilled b))
  ∧ (∀ id, id ∈ failedLoads (pre w) ↔
       ∃ h f e, fetches w !! h = Some f ∧ fetchId f = id
                ∧ status f = Finished (Rejected e))
  ∧ (∀ h f, fetches w !! h = Some f -> status f = Pending ->
       audioBuffers (pre w) !! fetchId f = None).

(** [always I c]: [I] holds of the world the call [c] is in, and of the
    world of whatever it becomes when it is resumed in a world of which
    [I] holds. *)
Inductive always (I : World -> Prop) {A : Type} : Async A -> Prop :=
| always_Done w a : I w -> always I (Done w a)
| always_Fail w e : I w -> always I (Fail w e)
| always_AwaitLoad w h k :
    I w -> (∀ o w1, I w1 -> always I (k o w1)) -> always I (AwaitLoad w h k)
| always_AwaitAll w hs k :
    I w -> (∀ r w1, I w1 -> always I (k r w1)) -> always I (AwaitAll w hs k)
| always_AwaitHost w r k :
    I w -> (∀ ok w1, I w1 -> always I (k ok w1)) -> always I (AwaitHost w r k).

(** ** The record of an experiment *)

(** The host after the first [n] trials of the sequence: one result per
    position, in order, numbered from 1, with the stimulus of the
    position and its character; the stimuli played are those of the
    positions, in order; and what [localStorage] keeps under a trial
    number is the result with that number. *)
Definition recorded (sequence : list Z) (characters : list string) (n : nat)
    (h : Host) : Prop :=
  stimulusId <$> results h = take n sequence
  ∧ trialNumber <$> results h = (fun i => Z.of_nat i + 1) <$> seq 0 n
  ∧ character <$> results h
    = (fun id => jsIndex characters (id - 1)) <$> take n sequence
  ∧ fst <$> played h = take n sequence
  ∧ (∀ k r, localStorage h !! k = Some r -> r ∈ results h ∧ trialNumber r = k).

(** Two states of the host with the same results, the same stimuli
    played and the same trials kept in [localStorage]. *)
Definition same_record (h h' : Host) : Prop :=
  results h' = results h ∧ played h' = played h
  ∧ localStorage h' = localStorage h.

(** * Properties *)

(** ** Slices *)

Lemma jsSlice_lookup {A : Type} (l : list A) (s e : Z) (i : nat) :
  0 ≤ s -> 0 ≤ e ->
  jsSlice l s e !! i =
    if decide (Z.to_nat s + i < Z.to_nat e)%nat
    then l !! (Z.to_nat s + i)%nat else None.
Proof.
  intros Hs He. unfold jsSlice.
  destruct (Z.ltb_spec s 0) as [?|_]; [lia|].
  destruct (Z.ltb_spec e 0) as [?|_]; [lia|].
  rewrite lookup_take, lookup_drop.
  repeat case_decide; try reflexivity.
  - f_equal. lia.
  - lia.
  - symmetry. apply lookup_ge_None. lia.
Qed.

Lemma jsSlice_positions {A : Type} (l : list A) (s e : Z) :
  0 ≤ s -> 0 ≤ e ->
  jsSlice l s e = take (Z.to_nat e - Z.to_nat s) (drop (Z.to_nat s) l).
Proof.
  intros Hs He. apply list_eq. intros i.
  rewrite jsSlice_lookup by assumption.
  rewrite lookup_take, lookup_drop.
  repeat case_decide; try reflexivity; lia.
Qed.

Lemma elem_of_jsSlice (l : list Z) (s e : Z) (x : Z) :
  0 ≤ s -> 0 ≤ e -> x ∈ jsSlice l s e ↔ inRange l s e x.
Proof.
  intros Hs He. rewrite list_elem_of_lookup. unfold inRange. split.
  - intros [i Hi]. rewrite jsSlice_lookup in Hi by assumption.
    case_decide; [|discriminate].
    exists (Z.to_nat s + i)%nat. split; [lia|assumption].
  - intros [p [Hp Hl]]. exists (p - Z.to_nat s)%nat.
    rewrite jsSlice_lookup by assumption.
    case_decide; [|lia].
    rewrite <- Hl. f_equal. lia.
Qed.

(** ** What the outcome of a load changes *)

Ltac deliver_cases w h o :=
  unfold deliver;
  let f := fresh "f" in
  let Hf := fresh "Hf" in
  let Hs := fresh "Hs" in
  destruct (fetches w !! h) as [f|] eqn:Hf;
  [ destruct (status f) eqn:Hs; [ destruct o | ] | ];
  simpl.

Lemma deliver_host h o now w : host (deliver h o now w) = host w.
Proof. deliver_cases w h o; reflexivity. Qed.

Lemma deliver_callbacks h o now w :
  onPauseCallback (pre (deliver h o now w)) = onPauseCallback (pre w)
  ∧ onResumeCallback (pre (deliver h o now w)) = onResumeCallback (pre w).
Proof. deliver_cases w h o; auto. Qed.

Lemma deliver_sizes h o now w :
  bufferAhead (pre (deliver h o now w)) = bufferAhead (pre w)
  ∧ totalStimuli (pre (deliver h o now w)) = totalStimuli (pre w).
Proof. deliver_cases w h o; auto. Qed.

Lemma deliver_cached h o now w id :
  is_Some (audioBuffers (pre w) !! id) ->
  is_Some (audioBuffers (pre (deliver h o now w)) !! id).
Proof.
  intros Hc. deliver_cases w h o; try assumption.
  destruct (decide (fetchId f = id)) as [->|Hne].
  - rewrite lookup_insert_eq. eauto.
  - rewrite lookup_insert_ne by assumption. assumption.
Qed.

Lemma deliver_failed h o now w id :
  id ∈ failedLoads (pre w) -> id ∈ failedLoads (pre (deliver h o now w)).
Proof. intros Hc. deliver_cases w h o; try assumption. set_solver. Qed.

Lemma deliver_inflight h o now w id h' :
  loadingPromises (pre (deliver h o now w)) !! id = Some h' ->
  loadingPromises (pre w) !! id = Some h'.
Proof.
  deliver_cases w h o; try (intros; assumption).
  - intros H. apply lookup_delete_Some in H. tauto.
  - intros H. apply lookup_delete_Some in H as [_ H].
    apply lookup_delete_Some in H. tauto.
Qed.

Lemma deliver_fetches h o now w :
  fetches (deliver h o now w) =
    match fetches w !! h with
    | Some f =>
        match status f with
        | Pending => alter (set_status o) h (fetches w)
        | Finished _ => fetches w
        end
    | None => fetches w
    end.
Proof. deliver_cases w h o; reflexivity. Qed.

Lemma deliver_fetch h o now w h' f' :
  fetches w !! h' = Some f' ->
  ∃ f'', fetches (deliver h o now w) !! h' = Some f''
         ∧ fetchId f'' = fetchId f' ∧ startTime f'' = startTime f'
         ∧ (status f'' = status f'
            ∨ (h' = h ∧ status f' = Pending ∧ status f'' = Finished o)).
Proof.
  intros Hl. rewrite deliver_fetches.
  destruct (fetches w !! h) as [f|] eqn:Hf; [|exists f'; auto].
  destruct (status f) eqn:Hs; [|exists f'; auto].
  destruct (decide (h = h')) as [->|Hne].
  - rewrite list_lookup_alter_eq, Hl. simpl.
    eexists; split; [reflexivity|]. simpl.
    rewrite Hl in Hf; inversion Hf; subst; auto 10.
  - rewrite list_lookup_alter_ne by assumption. exists f'; auto.
Qed.

Lemma deliver_fetch_None h o now w h' :
  fetches w !! h' = None -> fetches (deliver h o now w) !! h' = None.
Proof.
  intros Hl. rewrite deliver_fetches.
  destruct (fetches w !! h) as [f|] eqn:Hf; [|assumption].
  destruct (status f) eqn:Hs; [|assumption].
  destruct (decide (h = h')) as [->|Hne]; [congruence|].
  rewrite list_lookup_alter_ne by assumption. assumption.
Qed.

(** An outcome settles its own load when that load was pending, and no
    other. *)
Lemma deliver_settledAt h o now w h' :
  settledAt (deliver h o now w) h' =
    match settledAt w h' with
    | Some s => Some s
    | None =>
        if decide (h = h') then
          match fetches w !! h with Some _ => Some o | None => None end
        else None
    end.
Proof.
  unfold settledAt. rewrite deliver_fetches.
  destruct (decide (h = h')) as [->|Hne].
  - destruct (fetches w !! h') as [f|] eqn:Hf; [|rewrite Hf; reflexivity].
    destruct (status f) eqn:Hs.
    + rewrite list_lookup_alter_eq, Hf. reflexivity.
    + rewrite Hf, Hs. reflexivity.
  - destruct (fetches w !! h) as [f|] eqn:Hf.
    + destruct (status f) eqn:Hs.
      * rewrite list_lookup_alter_ne by assumption.
        destruct (fetches w !! h') as [f'|]; [|reflexivity].
        destruct (status f'); reflexivity.
      * destruct (fetches w !! h') as [f'|]; [|reflexivity].
        destruct (status f'); reflexivity.
    + destruct (fetches w !! h') as [f'|]; [|reflexivity].
      destruct (status f'); reflexivity.
Qed.

Lemma deliver_inflight_ok h o now w :
  inflight_ok w -> inflight_ok (deliver h o now w).
Proof.
  intros [Hin Hfail]. split.
  - intros id h' Hl.
    assert (Hold := deliver_inflight _ _ _ _ _ _ Hl).
    destruct (Hin id h' Hold) as [f' [Hf' [Hid Hst]]].
    destruct (deliver_fetch h o now w h' f' Hf')
      as [f'' [Hf'' [Hid'' [_ [Hsame|[-> [_ Hfin]]]]]]].
    + exists f''. split; [assumption|]. split; congruence.
    + exfalso. revert Hl. unfold deliver. rewrite Hf', Hst.
      destruct o; simpl; rewrite Hid.
      * rewrite lookup_delete_eq. discriminate.
      * rewrite lookup_delete_eq. discriminate.
  - intros id. deliver_cases w h o; try (apply Hfail).
    + intros Hid. apply Hfail in Hid. rewrite lookup_delete_None. auto.
    + intros Hid. apply elem_of_union in Hid as [Hid|Hid].
      * apply Hfail in Hid. rewrite !lookup_delete_None. auto.
      * apply elem_of_singleton in Hid. subst id.
        rewrite lookup_delete_eq. reflexivity.
Qed.

Lemma deliver_counters_ok h o now w :
  counters_ok w -> counters_ok (deliver h o now w).
Proof.
  unfold counters_ok. intros Hc. deliver_cases w h o; try assumption.
  rewrite length_app. simpl. lia.
Qed.

(** Every successful outcome of a pending load counts once, whatever
    the id and whatever the cache holds; nothing else moves the
    counter. *)
Lemma deliver_loadedCount h o now w :
  loadedCount (pre (deliver h o now w)) =
    match fetches w !! h, o with
    | Some f, Fulfilled _ =>
        match status f with
        | Pending => loadedCount (pre w) + 1
        | Finished _ => loadedCount (pre w)
        end
    | _, _ => loadedCount (pre w)
    end.
Proof.
  unfold deliver. destruct (fetches w !! h) as [f|]; [|destruct o; reflexivity].
  destruct (status f); destruct o; reflexivity.
Qed.

(** A successful outcome puts the buffer in the cache under the id of
    its fetch. *)
Lemma deliver_Fulfilled_cached h b now w f :
  fetches w !! h = Some f -> status f = Pending ->
  audioBuffers (pre (deliver h (Fulfilled b) now w)) !! fetchId f = Some b.
Proof.
  intros Hf Hs. unfold deliver. rewrite Hf, Hs. simpl.
  apply lookup_insert_eq.
Qed.

(** ** What can change while a call is suspended *)

Lemma env_preserved (P : World -> Prop) :
  (∀ h o now w, P w -> P (deliver h o now w)) ->
  ∀ w w', env w w' -> P w -> P w'.
Proof. intros Hstep w w' Henv. induction Henv; auto. Qed.

Lemma env_trans w1 w2 w3 : env w1 w2 -> env w2 w3 -> env w1 w3.
Proof.
  intros H12. induction H12; [auto|].
  intros H23. eapply env_step. eauto.
Qed.

Lemma env_host w w' : env w w' -> host w' = host w.
Proof.
  intros Henv. induction Henv; [reflexivity|].
  rewrite IHHenv. apply deliver_host.
Qed.

Lemma env_hosted w w' : env w w' -> hosted w -> hosted w'.
Proof.
  apply env_preserved. intros h o now w0 [Hp Hr].
  destruct (deliver_callbacks h o now w0) as [Hp' Hr'].
  split; congruence.
Qed.

Lemma env_callbacks w w' :
  env w w' ->
  onPauseCallback (pre w') = onPauseCallback (pre w)
  ∧ onResumeCallback (pre w') = onResumeCallback (pre w).
Proof.
  intros Henv. induction Henv; [auto|].
  destruct IHHenv as [-> ->]. apply deliver_callbacks.
Qed.

Lemma env_sizes w w' :
  env w w' ->
  bufferAhead (pre w') = bufferAhead (pre w)
  ∧ totalStimuli (pre w') = totalStimuli (pre w).
Proof.
  intros Henv. induction Henv; [auto|].
  destruct IHHenv as [-> ->]. apply deliver_sizes.
Qed.

Lemma env_inflight_ok w w' : env w w' -> inflight_ok w -> inflight_ok w'.
Proof. apply env_preserved. intros; by apply deliver_inflight_ok. Qed.

Lemma env_counters_ok w w' : env w w' -> counters_ok w -> counters_ok w'.
Proof. apply env_preserved. intros; by apply deliver_counters_ok. Qed.

Lemma env_cached w w' id :
  env w w' -> is_Some (audioBuffers (pre w) !! id) ->
  is_Some (audioBuffers (pre w') !! id).
Proof.
  apply (env_preserved (fun w => is_Some (audioBuffers (pre w) !! id))).
  intros; by apply deliver_cached.
Qed.


Lemma env_fetch w w' h f :
  env w w' -> fetches w !! h = Some f ->
  ∃ f', fetches w' !! h = Some f' ∧ fetchId f' = fetchId f.
Proof.
  intros Henv. revert f. induction Henv; intros f Hf; [eauto|].
  destruct (deliver_fetch h0 o now w h f Hf) as [f'' [Hf'' [Hid _]]].
  destruct (IHHenv f'' Hf'') as [f' [Hf' Hid']].
  exists f'. split; [assumption|congruence].
Qed.

Lemma env_settledAt w w' h s :
  env w w' -> settledAt w h = Some s -> settledAt w' h = Some s.
Proof.
  apply (env_preserved (fun w => settledAt w h = Some s)).
  intros h0 o now w0 Hs. rewrite deliver_settledAt, Hs. reflexivity.
Qed.

(** ** [loadAudio] *)

(** A call for an id outside the failed set starts a fetch of its own
    and takes over the id's in-flight entry. *)
Lemma loadAudio_starts id w :
  id ∉ failedLoads (pre w) ->
  loadAudio id w =
    (with_pre (set_loadingPromises (insert id (length (fetches w))))
       (with_fetches (fun fs => fs ++ [mkFetch id (clock w) Pending]) w),
     Started (length (fetches w))).
Proof. intros Hn. unfold loadAudio. rewrite decide_False by assumption. reflexivity. Qed.

Lemma loadAudio_failed id w :
  id ∈ failedLoads (pre w) ->
  loadAudio id w = (w, RejectedNow (PreviouslyFailed id)).
Proof. intros Hn. unfold loadAudio. rewrite decide_True by assumption. reflexivity. Qed.

Lemma loadAudio_inflight_ok id w :
  inflight_ok w -> inflight_ok (fst (loadAudio id w)).
Proof.
  intros [Hin Hfail]. unfold loadAudio.
  case_decide as Hd; [split; assumption|]. simpl. split.
  - intros id' h'. simpl. intros Hl.
    apply lookup_insert_Some in Hl as [[Heq Hh]|[Hne Hl]].
    + subst id' h'.
      exists (mkFetch id (clock w) Pending). split; [|auto].
      rewrite lookup_app_r by lia. rewrite Nat.sub_diag. reflexivity.
    + destruct (Hin id' h' Hl) as [f [Hf Hrest]].
      exists f. split; [|assumption].
      apply lookup_app_l_Some. assumption.
  - intros id' Hid'. simpl in *.
    rewrite lookup_insert_ne; [auto|]. intros ->. contradiction.
Qed.

Lemma loadAudio_frame id w :
  let w' := fst (loadAudio id w) in
  host w' = host w
  ∧ audioBuffers (pre w') = audioBuffers (pre w)
  ∧ failedLoads (pre w') = failedLoads (pre w)
  ∧ loadedCount (pre w') = loadedCount (pre w)
  ∧ loadTimes (pre w') = loadTimes (pre w)
  ∧ onPauseCallback (pre w') = onPauseCallback (pre w)
  ∧ onResumeCallback (pre w') = onResumeCallback (pre w)
  ∧ bufferAhead (pre w') = bufferAhead (pre w)
  ∧ totalStimuli (pre w') = totalStimuli (pre w)
  ∧ clock w' = clock w.
Proof. unfold loadAudio. case_decide; simpl; auto 12. Qed.

(** ** Reasoning about suspended calls *)

Section Safe.
Context {A : Type}.
Variable Q : World -> A -> Prop.
Variable E : World -> Error -> Prop.

(** A call that is [safe] is waiting: there is nothing to resume. *)
Lemma safe_resume (c : Async A) : safe Q E c -> resume c = c.
Proof.
  intros Hs. destruct Hs as [| |w h k Hq _|w hs k Hq _|]; simpl;
    try reflexivity; rewrite Hq; reflexivity.
Qed.

Lemma safe_react (ev : Event) (c : Async A) :
  finished c = false -> safe Q E c -> safe Q E (react ev c).
Proof.
  intros Hfin Hs.
  destruct Hs as [w a|w e|w h k Hq Hk|w hs k Hq Hk|w r k Hk];
    try discriminate; destruct ev as [h' o now|ok now]; simpl.
  - rewrite deliver_settledAt, Hq.
    case_decide as Hd.
    + subst h'. destruct (fetches w !! h) as [f|] eqn:Hf.
      * assert (Hset : settledAt (deliver h o now w) h = Some o).
        { rewrite deliver_settledAt, Hq, decide_True, Hf; reflexivity. }
        rewrite (safe_resume _ (Hk w o now (env_refl w) Hq Hset)).
        apply Hk; [constructor|assumption|assumption].
      * constructor.
        -- rewrite deliver_settledAt, Hq, decide_True, Hf; reflexivity.
        -- intros w1 o1 now1 Henv. apply Hk. eapply env_step. eassumption.
    + constructor.
      * rewrite deliver_settledAt, Hq, decide_False; [reflexivity|assumption].
      * intros w1 o1 now1 Henv. apply Hk. eapply env_step. eassumption.
  - constructor; assumption.
  - destruct (allSettled (deliver h' o now w) hs) as [r|] eqn:Hr.
    + rewrite (safe_resume _ (Hk w h' o now r (env_refl w) Hq Hr)).
      apply Hk; [constructor|assumption|assumption].
    + constructor; [assumption|].
      intros w1 h1 o1 now1 r1 Henv. apply Hk. eapply env_step. eassumption.
  - constructor; assumption.
  - constructor. intros w1 ok1 now1 Henv. apply Hk.
    eapply env_step. eassumption.
  - rewrite (safe_resume _ (Hk w ok now (env_refl w))).
    apply Hk. constructor.
Qed.

(** Soundness: a [safe] call stays [safe] under every list of events. *)
Lemma safe_run (evs : list Event) (c : Async A) :
  safe Q E c -> safe Q E (run evs c).
Proof.
  revert c. induction evs as [|ev evs IH]; intros c Hs; simpl; [assumption|].
  destruct (finished c) eqn:Hfin; [assumption|].
  apply IH. apply safe_react; assumption.
Qed.

Lemma safe_run_Done (evs : list Event) (c : Async A) w a :
  safe Q E c -> run evs c = Done w a -> Q w a.
Proof.
  intros Hs Hrun. apply (safe_run evs) in Hs. rewrite Hrun in Hs.
  inversion Hs. assumption.
Qed.

Lemma safe_run_Fail (evs : list Event) (c : Async A) w e :
  safe Q E c -> run evs c = Fail w e -> E w e.
Proof.
  intros Hs Hrun. apply (safe_run evs) in Hs. rewrite Hrun in Hs.
  inversion Hs. assumption.
Qed.
End Safe.

Lemma safe_bind {A B : Type} (Q1 : World -> A -> Prop) (Q2 : World -> B -> Prop)
    (E1 E2 : World -> Error -> Prop) (c : Async A) (f : A -> World -> Async B) :
  safe Q1 E1 c ->
  (∀ w a, Q1 w a -> safe Q2 E2 (f a w)) ->
  (∀ w e, E1 w e -> E2 w e) ->
  safe Q2 E2 (bind c f).
Proof.
  intros Hs Hf HE.
  induction Hs as [w a Hq|w e He|w h k Hq Hk IH|w hs k Hq Hk IH|w r k Hk IH];
    simpl.
  - apply Hf. assumption.
  - constructor. apply HE. assumption.
  - constructor; [assumption|]. intros. apply IH; assumption.
  - constructor; [assumption|]. intros. eapply IH; eassumption.
  - constructor. intros. apply IH; assumption.
Qed.

Lemma safe_weaken {A : Type} (Q1 Q2 : World -> A -> Prop)
    (E1 E2 : World -> Error -> Prop) (c : Async A) :
  safe Q1 E1 c ->
  (∀ w a, Q1 w a -> Q2 w a) ->
  (∀ w e, E1 w e -> E2 w e) ->
  safe Q2 E2 c.
Proof.
  intros Hs HQ HE.
  induction Hs; constructor; auto.
Qed.

(** ** Waiting for a load *)

Lemma same_config_refl w : same_config w w.
Proof. repeat split. Qed.

Lemma same_config_trans w1 w2 w3 :
  same_config w1 w2 -> same_config w2 w3 -> same_config w1 w3.
Proof.
  intros (?&?&?&?) (?&?&?&?). repeat split; congruence.
Qed.

Lemma env_same_config w w' : env w w' -> same_config w w'.
Proof.
  intros Henv. destruct (env_callbacks _ _ Henv), (env_sizes _ _ Henv).
  repeat split; assumption.
Qed.

Lemma env_deliver w w1 h o now : env w w1 -> env w (deliver h o now w1).
Proof.
  intros Henv. eapply env_trans; [eassumption|].
  eapply env_step. constructor.
Qed.

Lemma settles_env w h o w' : settles w h o w' -> env w w'.
Proof. intros (w1 & now & Henv & _ & _ & ->). by apply env_deliver. Qed.

Lemma settles_cached w h b w' f :
  fetches w !! h = Some f ->
  settles w h (Fulfilled b) w' ->
  audioBuffers (pre w') !! fetchId f = Some b.
Proof.
  intros Hf (w1 & now & Henv & Hnone & _ & ->).
  destruct (env_fetch _ _ _ _ Henv Hf) as [f1 [Hf1 <-]].
  apply deliver_Fulfilled_cached; [assumption|].
  unfold settledAt in Hnone. rewrite Hf1 in Hnone.
  destruct (status f1); [reflexivity|discriminate].
Qed.


(** Awaiting a pending load returns its buffer, or throws its error, in
    the world in which the load settles. *)
Lemma awaitLoad_safe w h f :
  fetches w !! h = Some f -> status f = Pending ->
  safe (fun w' b => settles w h (Fulfilled b) w')
       (fun w' e => settles w h (Rejected e) w')
       (awaitLoad w h).
Proof.
  intros Hf Hs. unfold awaitLoad. constructor.
  - unfold settledAt. rewrite Hf, Hs. reflexivity.
  - intros w1 o now Henv Hnone Hsome.
    destruct o; constructor; exists w1, now; auto.
Qed.

Lemma callPause_frame id w :
  pre (callPause id w) = pre w
  ∧ fetches (callPause id w) = fetches w
  ∧ clock (callPause id w) = clock w
  ∧ host (callPause id w) = pauseHost (pre w) id (host w).
Proof.
  unfold callPause, pauseHost. destruct (onPauseCallback (pre w)); auto.
Qed.

Lemma callResume_frame w :
  pre (callResume w) = pre w
  ∧ fetches (callResume w) = fetches w
  ∧ clock (callResume w) = clock w
  ∧ host (callResume w) = resumeHost (pre w) (host w).
Proof.
  unfold callResume, resumeHost. destruct (onResumeCallback (pre w)); auto.
Qed.

Lemma inflight_ok_ext w w' :
  pre w' = pre w -> fetches w' = fetches w -> inflight_ok w -> inflight_ok w'.
Proof. unfold inflight_ok. intros -> ->. auto. Qed.

Lemma same_config_ext w w' : pre w' = pre w -> same_config w w'.
Proof. intros Hp. unfold same_config. rewrite Hp. auto. Qed.

Lemma env_facts w w' :
  env w w' ->
  host w' = host w ∧ same_config w w' ∧ (inflight_ok w -> inflight_ok w').
Proof.
  intros Henv. split; [by apply env_host|].
  split; [by apply env_same_config|]. by apply env_inflight_ok.
Qed.

(** ** [getAudioBuffer] and [ensureNextTrialReady] *)

(** The host while [getAudioBuffer] waits, and once it has returned. *)
Lemma getAudioBuffer_safe (id : Z) (showPauseUI : bool) (w : World) :
  inflight_ok w ->
  safe
    (fun w' b =>
       audioBuffers (pre w') !! id = Some b
       ∧ inflight_ok w' ∧ same_config w w'
       ∧ host w' =
           match audioBuffers (pre w) !! id with
           | Some _ => host w
           | None =>
               if showPauseUI
               then resumeHost (pre w) (pauseHost (pre w) id (host w))
               else host w
           end)
    (fun w' e =>
       audioBuffers (pre w) !! id = None
       ∧ inflight_ok w' ∧ same_config w w'
       ∧ host w' =
           if showPauseUI then pauseHost (pre w) id (host w) else host w)
    (getAudioBuffer id showPauseUI w).
Proof.
  intros Hok. unfold getAudioBuffer.
  destruct (audioBuffers (pre w) !! id) as [b|] eqn:Hc.
  { constructor. rewrite Hc. auto using same_config_refl. }
  set (w1 := if showPauseUI then callPause id w else w).
  assert (Hw1 : pre w1 = pre w ∧ fetches w1 = fetches w
                ∧ host w1 = if showPauseUI
                            then pauseHost (pre w) id (host w) else host w).
  { unfold w1. destruct showPauseUI; [|auto].
    destruct (callPause_frame id w) as (?&?&?&?). auto. }
  destruct Hw1 as (Hpre1 & Hfetch1 & Hhost1).
  assert (Hok1 : inflight_ok w1) by (eapply inflight_ok_ext; eassumption).
  assert (Hcfg1 : same_config w w1) by (by apply same_config_ext).
  assert (Hdone : ∀ w2 h f w' b,
            inflight_ok w2 -> same_config w w2 -> host w2 = host w1 ->
            fetches w2 !! h = Some f -> fetchId f = id ->
            settles w2 h (Fulfilled b) w' ->
            let w'' := if showPauseUI then callResume w' else w' in
            audioBuffers (pre w'') !! id = Some b
            ∧ inflight_ok w'' ∧ same_config w w''
            ∧ host w'' =
                if showPauseUI
                then resumeHost (pre w) (pauseHost (pre w) id (host w))
                else host w).
  { intros w2 h f w' b Hok2 Hcfg2 Hhost2 Hf Hid Hset.
    assert (Hcached := settles_cached _ _ _ _ _ Hf Hset).
    rewrite Hid in Hcached.
    destruct (env_facts _ _ (settles_env _ _ _ _ Hset)) as (Hh & Hcfg & Hok').
    assert (Hcfg' := same_config_trans _ _ _ Hcfg2 Hcfg).
    destruct showPauseUI; simpl.
    - destruct (callResume_frame w') as (Hp & Hfs & _ & Hhr).
      rewrite Hp. split; [assumption|].
      split; [eapply inflight_ok_ext; eauto|].
      split; [eapply same_config_trans; [eassumption|by apply same_config_ext]|].
      rewrite Hhr, Hh, Hhost2, Hhost1.
      unfold resumeHost. destruct Hcfg' as (_ & -> & _). reflexivity.
    - split; [assumption|]. split; [auto|]. split; [assumption|].
      congruence. }
  assert (Hfail : ∀ w2 h e w',
            inflight_ok w2 -> same_config w w2 -> host w2 = host w1 ->
            settles w2 h (Rejected e) w' ->
            inflight_ok w' ∧ same_config w w'
            ∧ host w' =
                if showPauseUI then pauseHost (pre w) id (host w) else host w).
  { intros w2 h e w' Hok2 Hcfg2 Hhost2 Hset.
    destruct (env_facts _ _ (settles_env _ _ _ _ Hset)) as (Hh & Hcfg & Hok').
    split; [auto|].
    split; [eapply same_config_trans; eassumption|]. congruence. }
  destruct (loadingPromises (pre w) !! id) as [h|] eqn:Hl.
  - rewrite <- Hpre1 in Hl.
    destruct (proj1 Hok1 id h Hl) as [f [Hf [Hid Hst]]].
    eapply safe_bind; [by apply (awaitLoad_safe w1 h f)| |].
    + intros w' b Hset. constructor.
      by apply (Hdone w1 h f w' b).
    + intros w' e Hset. cbv beta in *.
      split; [reflexivity|]. by apply (Hfail w1 h e w').
  - unfold awaitLoadAudio.
    destruct (decide (id ∈ failedLoads (pre w1))) as [Hin|Hnin].
    + rewrite loadAudio_failed by assumption. simpl. constructor.
      auto.
    + assert (Hok2 := loadAudio_inflight_ok id w1 Hok1).
      rewrite loadAudio_starts in * by assumption.
      cbn [fst snd] in *.
      set (w2 := with_pre _ _) in *.
      assert (Hh2 : host w2 = host w1) by reflexivity.
      assert (Hf2 : fetches w2 !! length (fetches w1)
                    = Some (mkFetch id (clock w1) Pending)).
      { unfold w2. simpl. rewrite lookup_app_r by lia.
        rewrite Nat.sub_diag. reflexivity. }
      assert (Hcfg2 : same_config w w2).
      { eapply same_config_trans; [eassumption|]. repeat split. }
      eapply safe_bind; [by apply (awaitLoad_safe w2 _ _ Hf2)| |].
      * intros w' b Hset. constructor.
        by apply (Hdone w2 _ _ w' b Hok2 Hcfg2 Hh2 Hf2).
      * intros w' e Hset. cbv beta in *.
        split; [reflexivity|]. by eapply (Hfail w2).
Qed.

Lemma ensureNextTrialReady_safe (sequence : list Z) (i : nat) (id : Z)
    (w : World) :
  inflight_ok w -> sequence !! i = Some id ->
  safe
    (fun w' r =>
       r = true
       ∧ is_Some (audioBuffers (pre w') !! id)
       ∧ inflight_ok w' ∧ same_config w w'
       ∧ host w' =
           match audioBuffers (pre w) !! id with
           | Some _ => host w
           | None => resumeHost (pre w) (pauseHost (pre w) id (host w))
           end)
    (fun w' e =>
       audioBuffers (pre w) !! id = None
       ∧ inflight_ok w' ∧ same_config w w'
       ∧ host w' = pauseHost (pre w) id (host w))
    (ensureNextTrialReady sequence i w).
Proof.
  intros Hok Hi. unfold ensureNextTrialReady. rewrite Hi.
  destruct (audioBuffers (pre w) !! id) as [b|] eqn:Hc.
  { constructor. rewrite Hc. eauto 6 using same_config_refl. }
  destruct (callPause_frame id w) as (Hp & Hfs & _ & Hh).
  assert (Hok1 : inflight_ok (callPause id w))
    by (eapply inflight_ok_ext; eassumption).
  eapply safe_bind; [exact (getAudioBuffer_safe id false _ Hok1)| |].
  - intros w' b (Hcached & Hok' & Hcfg & Hhost). constructor.
    destruct (callResume_frame w') as (Hp' & Hfs' & _ & Hh').
    rewrite Hp in Hhost. rewrite Hc in Hhost.
    split; [reflexivity|]. rewrite Hp'.
    split; [eauto|].
    split; [eapply inflight_ok_ext; eauto|].
    assert (Hcfg' : same_config w w').
    { eapply same_config_trans; [by apply same_config_ext|eassumption]. }
    split; [eapply same_config_trans; [eassumption|by apply same_config_ext]|].
    rewrite Hh', Hhost, Hh. unfold resumeHost.
    destruct Hcfg' as (_ & -> & _). reflexivity.
  - intros w' e (_ & Hok' & Hcfg & Hhost). cbv beta.
    split; [reflexivity|]. split; [assumption|].
    split; [eapply same_config_trans; [by apply same_config_ext|eassumption]|].
    congruence.
Qed.

Lemma with_clock_inflight_ok now w : inflight_ok w -> inflight_ok (with_clock now w).
Proof. intros H. eapply inflight_ok_ext; [| |exact H]; reflexivity. Qed.

(** [sleep] and the other waits for the host return in a world that
    differs from the one they left by outcomes of loads and the clock. *)
Lemma sleep_safe ms w :
  safe (fun w' _ => ∃ w1 now, env w w1 ∧ w' = with_clock now w1)
       (fun _ _ => False) (sleep ms w).
Proof.
  unfold sleep. constructor. intros w1 ok now Henv. constructor. eauto.
Qed.

(** [runTrial] up to the start of the playback: the buffer handed to the
    source is the one the cache holds for the stimulus at that moment. *)
Lemma startTrial_safe (id : Z) (w : World) :
  inflight_ok w ->
  safe
    (fun w' bt =>
       audioBuffers (pre w') !! id = Some bt.1
       ∧ last (played (host w')) = Some (id, bt.1)
       ∧ inflight_ok w' ∧ same_config w w'
       ∧ (host w' = start_source id bt.1 (host w)
          ∨ host w' =
              start_source id bt.1
                (resumeHost (pre w) (pauseHost (pre w) id (host w)))))
    (fun w' e =>
       inflight_ok w' ∧ same_config w w'
       ∧ host w' = pauseHost (pre w) id (host w))
    (startTrial id w).
Proof.
  intros Hok. unfold startTrial.
  eapply safe_bind; [apply sleep_safe| |contradiction].
  intros w1' [] (w1 & now & Henv & ->).
  destruct (env_facts _ _ Henv) as (Hh1 & Hcfg1 & Hok1).
  assert (Hok2 : inflight_ok (with_clock now w1))
    by (apply with_clock_inflight_ok; auto).
  eapply safe_bind; [exact (getAudioBuffer_safe id true _ Hok2)| |].
  - intros w2 b (Hc & Hok' & Hcfg & Hhost). constructor. simpl in *.
    split; [assumption|].
    split; [by rewrite last_snoc|].
    split; [eapply inflight_ok_ext; [| |exact Hok']; reflexivity|].
    assert (Hcfg2 : same_config w w2).
    { eapply same_config_trans; [exact Hcfg1|]. exact Hcfg. }
    split; [exact Hcfg2|].
    rewrite Hhost, Hh1.
    destruct (audioBuffers (pre w1) !! id); [left; reflexivity|right].
    unfold resumeHost, pauseHost.
    destruct Hcfg1 as (-> & -> & _). reflexivity.
  - intros w2 e (_ & Hok' & Hcfg & Hhost). cbv beta. simpl in *.
    split; [assumption|].
    split; [eapply same_config_trans; [exact Hcfg1|exact Hcfg]|].
    rewrite Hhost, Hh1. unfold pauseHost.
    destruct Hcfg1 as (-> & _). reflexivity.
Qed.

(** ** The invariants hold from the start *)

Lemma newExperiment_inflight_ok : inflight_ok newExperiment.
Proof.
  split.
  - intros id h. simpl. rewrite lookup_empty. discriminate.
  - intros id. simpl. intros _. apply lookup_empty.
Qed.

Lemma newExperiment_hosted : hosted newExperiment.
Proof. split; reflexivity. Qed.

Lemma newExperiment_counters_ok : counters_ok newExperiment.
Proof. reflexivity. Qed.

(** ** C3: the buffer is cached when the playback starts *)

(** C3.  For a position [i] of the sequence holding stimulus [id], in a
    world whose in-flight table is in order and under every list of
    events: when [ensureNextTrialReady(sequence, i)] returns, the buffer
    of [id] is in the cache; and when [runTrial] reaches
    [source.start(0)], the buffer it plays is the one the cache holds
    for [id] at that moment.  The only other way either call ends is by
    throwing the error of the load. *)
Theorem ensureNextTrialReady_then_cached (sequence : list Z) (i : nat)
    (id : Z) (w : World) (evs : list Event) :
  inflight_ok w -> sequence !! i = Some id ->
  (∀ w' r, run evs (ensureNextTrialReady sequence i w) = Done w' r ->
     r = true ∧ is_Some (audioBuffers (pre w') !! id))
  ∧ (∀ w' b t1, run evs (startTrial id w) = Done w' (b, t1) ->
       audioBuffers (pre w') !! id = Some b
       ∧ last (played (host w')) = Some (id, b)).
Proof.
  intros Hok Hi. split.
  - intros w' r Hrun.
    apply (safe_run_Done _ _ evs _ w' r
             (ensureNextTrialReady_safe sequence i id w Hok Hi)) in Hrun.
    tauto.
  - intros w' b t1 Hrun.
    apply (safe_run_Done _ _ evs _ w' (b, t1) (startTrial_safe id w Hok))
      in Hrun.
    simpl in Hrun. tauto.
Qed.

Lemma ensureNextTrialReady_then_cached_witness :
  inflight_ok loading4
  ∧ identitySequence !! 3%nat = Some 4
  ∧ (∃ w', run [EvLoad 0%nat (Fulfilled (Decoded 4)) 1%Q]
             (ensureNextTrialReady identitySequence 3 loading4)
           = Done w' true
           ∧ is_Some (audioBuffers (pre w') !! 4))
  ∧ (∃ w', run [EvHost true 1%Q; EvLoad 0%nat (Fulfilled (Decoded 4)) 2%Q]
             (startTrial 4 loading4)
           = Done w' (Decoded 4, 2%Q)
           ∧ audioBuffers (pre w') !! 4 = Some (Decoded 4)).
Proof.
  assert (Hok : inflight_ok loading4)
    by exact (loadAudio_inflight_ok 4 newExperiment newExperiment_inflight_ok).
  assert (Hi : identitySequence !! 3%nat = Some 4) by reflexivity.
  split; [exact Hok|]. split; [exact Hi|]. split.
  - eexists. split; [vm_compute; reflexivity|].
    eapply (proj1 (ensureNextTrialReady_then_cached identitySequence 3 4
                     loading4 [EvLoad 0%nat (Fulfilled (Decoded 4)) 1%Q]
                     Hok Hi)).
    vm_compute. reflexivity.
  - eexists. split; [vm_compute; reflexivity|].
    eapply (proj2 (ensureNextTrialReady_then_cached identitySequence 3 4
                     loading4
                     [EvHost true 1%Q; EvLoad 0%nat (Fulfilled (Decoded 4)) 2%Q]
                     Hok Hi)).
    vm_compute. reflexivity.
Defined.

(** ** Batches of [loadAudio] calls, and [clearOldBuffers] *)

Lemma loadAudio_fetches id w :
  fetches (fst (loadAudio id w)) =
    fetches w ++
      (if decide (id ∈ failedLoads (pre w)) then []
       else [mkFetch id (clock w) Pending]).
Proof.
  unfold loadAudio. case_decide; simpl; [|reflexivity].
  symmetry. apply app_nil_r.
Qed.

Lemma foldl_loadAudio_frame (ids : list Z) (w : World) :
  let w' := foldl (fun w' stimId => fst (loadAudio stimId w')) w ids in
  host w' = host w
  ∧ audioBuffers (pre w') = audioBuffers (pre w)
  ∧ failedLoads (pre w') = failedLoads (pre w)
  ∧ loadedCount (pre w') = loadedCount (pre w)
  ∧ loadTimes (pre w') = loadTimes (pre w)
  ∧ same_config w w'
  ∧ clock w' = clock w
  ∧ (inflight_ok w -> inflight_ok w')
  ∧ fetches w' =
      fetches w ++
        ((fun id => mkFetch id (clock w) Pending) <$>
           filter (fun id => id ∉ failedLoads (pre w)) ids).
Proof.
  revert w. induction ids as [|id ids IH]; intros w; simpl.
  { rewrite app_nil_r. split_and!; auto using same_config_refl. }
  destruct (IH (fst (loadAudio id w)))
    as (Hh & Hc & Hf & Hn & Ht & Hcfg & Hk & Hok & Hfs).
  destruct (loadAudio_frame id w)
    as (Hh1 & Hc1 & Hf1 & Hn1 & Ht1 & Hp1 & Hr1 & Hb1 & Hs1 & Hk1).
  simpl in *.
  split; [congruence|]. split; [congruence|]. split; [congruence|].
  split; [congruence|]. split; [congruence|].
  split; [eapply same_config_trans; [|exact Hcfg]; repeat split; assumption|].
  split; [congruence|].
  split; [intros H; apply Hok; by apply loadAudio_inflight_ok|].
  rewrite Hfs, loadAudio_fetches, Hf1, Hk1.
  rewrite filter_cons. destruct (decide (id ∈ failedLoads (pre w))) as [Hd|Hd].
  - rewrite decide_False by (intros Hn'; contradiction).
    rewrite app_nil_r. reflexivity.
  - rewrite decide_True by assumption. rewrite fmap_cons, <- app_assoc.
    reflexivity.
Qed.

Lemma foldl_loadAudio_failed_ids (ids : list Z) (w : World) :
  Forall (fun id => id ∈ failedLoads (pre w)) ids ->
  foldl (fun w' x => fst (loadAudio x w')) w ids = w.
Proof.
  induction ids as [|x ids IH]; intros Hall; simpl; [reflexivity|].
  apply Forall_cons in Hall as [Hx Hall].
  rewrite loadAudio_failed by assumption. simpl. by apply IH.
Qed.

Lemma foldl_delete_lookup (keep : list Z) (l : list (Z * AudioBuffer))
    (m : gmap Z AudioBuffer) (id : Z) :
  foldl (fun m' entry =>
           if decide (fst entry ∈ keep) then m' else delete (fst entry) m')
        m l !! id =
    if decide (id ∈ keep) then m !! id
    else if decide (id ∈ l.*1) then None else m !! id.
Proof.
  revert m. induction l as [|[k b] l IH]; intros m.
  { simpl. destruct (decide (id ∈ keep)); [reflexivity|].
    destruct (decide (id ∈ [])) as [Hin|_]; [|reflexivity].
    by apply not_elem_of_nil in Hin. }
  cbn [foldl fmap list_fmap fst]. rewrite IH.
  destruct (decide (id ∈ keep)) as [Hkeep|Hkeep].
  - destruct (decide (k ∈ keep)) as [Hk|Hk]; [reflexivity|].
    rewrite lookup_delete_ne; [reflexivity|]. intros ->. contradiction.
  - destruct (decide (id = k)) as [->|Hne].
    + rewrite (decide_False (P := k ∈ keep)) by assumption.
      rewrite lookup_delete_eq.
      rewrite (decide_True (P := k ∈ k :: l.*1)) by (by left).
      destruct (decide (k ∈ l.*1)); reflexivity.
    + assert (Heq : id ∈ k :: l.*1 ↔ id ∈ l.*1).
      { rewrite elem_of_cons. tauto. }
      destruct (decide (id ∈ l.*1)) as [Hin|Hin].
      * rewrite decide_True by (by apply Heq). reflexivity.
      * rewrite (decide_False (P := id ∈ k :: l.*1)) by (by rewrite Heq).
        destruct (decide (k ∈ keep)); [reflexivity|].
        by rewrite lookup_delete_ne.
Qed.

(** [clearOldBuffers] keeps the entries whose id is in [keepStimuli] and
    removes all others. *)
Lemma clearOldBuffers_lookup (sequence : list Z) (currentIndex keepBehind : Z)
    (w : World) (id : Z) :
  audioBuffers (pre (clearOldBuffers sequence currentIndex keepBehind w)) !! id
  = if decide (id ∈ keepStimuli sequence currentIndex keepBehind w)
    then audioBuffers (pre w) !! id else None.
Proof.
  unfold clearOldBuffers. simpl. rewrite foldl_delete_lookup.
  destruct (decide (id ∈ keepStimuli sequence currentIndex keepBehind w));
    [reflexivity|].
  destruct (decide (id ∈ (map_to_list (audioBuffers (pre w))).*1))
    as [Hin|Hin]; [reflexivity|].
  destruct (audioBuffers (pre w) !! id) as [b|] eqn:Hb; [|reflexivity].
  exfalso. apply Hin.
  apply list_elem_of_fmap. exists (id, b). split; [reflexivity|].
  by apply elem_of_map_to_list.
Qed.

Lemma clearOldBuffers_frame (sequence : list Z) (currentIndex keepBehind : Z)
    (w : World) :
  let w' := clearOldBuffers sequence currentIndex keepBehind w in
  host w' = host w
  ∧ fetches w' = fetches w
  ∧ loadingPromises (pre w') = loadingPromises (pre w)
  ∧ failedLoads (pre w') = failedLoads (pre w)
  ∧ loadedCount (pre w') = loadedCount (pre w)
  ∧ loadTimes (pre w') = loadTimes (pre w)
  ∧ same_config w w'
  ∧ clock w' = clock w.
Proof. repeat split. Qed.

Lemma clearOldBuffers_inflight_ok sequence currentIndex keepBehind w :
  inflight_ok w ->
  inflight_ok (clearOldBuffers sequence currentIndex keepBehind w).
Proof. intros H. exact H. Qed.

Lemma preloadAhead_inflight_ok sequence currentIndex w :
  inflight_ok w -> inflight_ok (preloadAhead sequence currentIndex w).
Proof. apply foldl_loadAudio_frame. Qed.

(** ** C8: what [clearOldBuffers] leaves in the cache *)

(** C8.  With the end of the retained range, [currentIndex + bufferAhead
    + 3], not negative: after [clearOldBuffers(sequence, currentIndex,
    keepBehind)] an id that is still cached stands at a position of
    [max(0, currentIndex - keepBehind), currentIndex + bufferAhead + 3);
    an id that stands at such a position has the cache entry it had
    before; and an id that stands at no such position has none. *)
Theorem clearOldBuffers_retains_window (sequence : list Z)
    (currentIndex keepBehind : Z) (w : World) (id : Z) :
  0 ≤ currentIndex + bufferAhead (pre w) + 3 ->
  let lo := Z.max 0 (currentIndex - keepBehind) in
  let hi := currentIndex + bufferAhead (pre w) + 3 in
  let w' := clearOldBuffers sequence currentIndex keepBehind w in
  (is_Some (audioBuffers (pre w') !! id) -> inRange sequence lo hi id)
  ∧ (inRange sequence lo hi id ->
       audioBuffers (pre w') !! id = audioBuffers (pre w) !! id)
  ∧ (¬ inRange sequence lo hi id -> audioBuffers (pre w') !! id = None).
Proof.
  intros Hhi lo hi w'. unfold w'. rewrite clearOldBuffers_lookup.
  assert (Hkeep : id ∈ keepStimuli sequence currentIndex keepBehind w
                  ↔ inRange sequence lo hi id).
  { unfold keepStimuli. apply elem_of_jsSlice; [apply Z.le_max_l|assumption]. }
  destruct (decide (id ∈ keepStimuli sequence currentIndex keepBehind w))
    as [Hin|Hin].
  - split; [intros _; by apply Hkeep|]. split; [reflexivity|].
    intros Hn. exfalso. apply Hn. by apply Hkeep.
  - split; [intros [b Hb]; discriminate|]. split; [|reflexivity].
    intros Hr. exfalso. apply Hin. by apply Hkeep.
Qed.

Lemma clearOldBuffers_retains_window_witness :
  0 ≤ 10 + bufferAhead (pre afterInitial) + 3
  ∧ audioBuffers (pre afterInitial) !! 3 = Some (Decoded 3)
  ∧ audioBuffers (pre (clearOldBuffers piSequence 10 2 afterInitial)) !! 3
    = None
  ∧ audioBuffers (pre (clearOldBuffers piSequence 1 2 afterInitial)) !! 3
    = Some (Decoded 3).
Proof.
  assert (H10 : 0 ≤ 10 + bufferAhead (pre afterInitial) + 3)
    by (vm_compute; intro; discriminate).
  assert (H1 : 0 ≤ 1 + bufferAhead (pre afterInitial) + 3)
    by (vm_compute; intro; discriminate).
  split; [exact H10|]. split; [reflexivity|]. split.
  - apply (clearOldBuffers_retains_window piSequence 10 2 afterInitial 3 H10).
    intros [p [Hp Hl]]. apply lookup_lt_Some in Hl. simpl in Hl. lia.
  - rewrite (proj1 (proj2 (clearOldBuffers_retains_window piSequence 1 2
                             afterInitial 3 H1))).
    + reflexivity.
    + exists 0%nat. split; [|reflexivity].
      vm_compute. split; [intro; discriminate|reflexivity].
Defined.

(** ** C9: the look-ahead batch *)

Lemma toLoad_specToLoad (sequence : list Z) (currentIndex : Z) (w : World) :
  0 ≤ currentIndex -> 0 ≤ bufferAhead (pre w) ->
  toLoad sequence currentIndex w = specToLoad sequence currentIndex w.
Proof.
  intros Hi Hk. unfold toLoad, specToLoad, aheadBatch, positions.
  rewrite jsSlice_positions by lia.
  replace (currentIndex + bufferAhead (pre w) + bufferAhead (pre w))
    with (currentIndex + 2 * bufferAhead (pre w)) by lia.
  reflexivity.
Qed.

(** C9, amended.  For an index and a window size that are not negative,
    [preloadAhead(sequence, currentIndex)] calls [loadAudio] for the ids
    at the positions [currentIndex + windowSize, min(currentIndex +
    2*windowSize, length)) that are neither cached nor in flight, in
    their order, and for no other id.  It returns without a suspension
    (it is a function on the world).  A load is started for each of
    these ids that is not in the failed set, and it is still pending;
    for one that is in the failed set [loadAudio] fails at once and
    nothing is started.  The cache and the host are as before.  When no
    id passes the filter, or every id that does is in the failed set,
    nothing changes.  In the scenario of the specification, with 3 and 1
    cached, the only id is 4. *)
Theorem preloadAhead_loads_window (sequence : list Z) (currentIndex : Z)
    (w : World) :
  0 ≤ currentIndex -> 0 ≤ bufferAhead (pre w) ->
  let batch := specToLoad sequence currentIndex w in
  let w' := preloadAhead sequence currentIndex w in
  w' = foldl (fun w1 id => fst (loadAudio id w1)) w batch
  ∧ fetches w' =
      fetches w ++
        ((fun id => mkFetch id (clock w) Pending) <$>
           filter (fun id => id ∉ failedLoads (pre w)) batch)
  ∧ audioBuffers (pre w') = audioBuffers (pre w)
  ∧ host w' = host w
  ∧ (batch = [] -> w' = w)
  ∧ (Forall (fun id => id ∈ failedLoads (pre w)) batch -> w' = w)
  ∧ specToLoad piSequence 0 afterInitial = [4]
  ∧ fetchId <$> fetches afterInitial = [3; 1]
  ∧ fetchId <$> fetches (preloadAhead piSequence 0 afterInitial) = [3; 1; 4]
  ∧ settledAt (preloadAhead piSequence 0 afterInitial) 2 = None.
Proof.
  intros Hi Hk batch w'. unfold w', batch, preloadAhead.
  rewrite toLoad_specToLoad by assumption.
  destruct (foldl_loadAudio_frame (specToLoad sequence currentIndex w) w)
    as (Hh & Hc & _ & _ & _ & _ & _ & _ & Hfs).
  split; [reflexivity|]. split; [exact Hfs|]. split; [exact Hc|].
  split; [exact Hh|]. split; [intros ->; reflexivity|].
  split; [apply foldl_loadAudio_failed_ids|].
  vm_compute. repeat split.
Qed.

Lemma preloadAhead_loads_window_witness :
  0 ≤ 0 ∧ 0 ≤ 6 ∧ 0 ≤ bufferAhead (pre afterInitial)
  ∧ preloadAhead piSequence 0 afterInitial
    = foldl (fun w1 id => fst (loadAudio id w1)) afterInitial
        (specToLoad piSequence 0 afterInitial)
  ∧ specToLoad piSequence 6 afterInitial = []
  ∧ preloadAhead piSequence 6 afterInitial = afterInitial.
Proof.
  assert (H0 : 0 ≤ 0) by lia.
  assert (H6 : 0 ≤ 6) by lia.
  assert (Hk : 0 ≤ bufferAhead (pre afterInitial))
    by (vm_compute; intro; discriminate).
  assert (Hnil : specToLoad piSequence 6 afterInitial = []) by reflexivity.
  split; [exact H0|]. split; [exact H6|]. split; [exact Hk|].
  split; [apply (preloadAhead_loads_window piSequence 0 afterInitial H0 Hk)|].
  split; [exact Hnil|].
  destruct (preloadAhead_loads_window piSequence 6 afterInitial H6 Hk)
    as (_ & _ & _ & _ & Hnoop & _).
  exact (Hnoop Hnil).
Defined.

(** C9, as stated, fails: a load is not started for every id that
    passes the filter.  In [backgroundFailureRun] the load of stimulus 5
    has failed in the background, which took 5 out of the in-flight
    table and put it in the failed set.  When the second trial calls
    [preloadAhead(sequence, 1)] the ids neither cached nor in flight are
    5 and 7, and a load is started for 7 only.  Called once more in the
    world it leaves, the filtered set is 5 alone, which is not empty,
    and nothing is started. *)
Lemma preloadAhead_skips_failed_id :
  let w := secondTrialBegins in
  let w' := preloadAhead identitySequence 1 w in
  worldOf (run (backgroundFailureRun ++ [EvHost true 7%Q])
             (init identitySequence [] newExperiment)) = w'
  ∧ 5 ∈ failedLoads (pre w)
  ∧ specToLoad identitySequence 1 w = [5; 7]
  ∧ fetchId <$> drop (length (fetches w)) (fetches w') = [7]
  ∧ specToLoad identitySequence 1 w' = [5]
  ∧ preloadAhead identitySequence 1 w' = w'.
Proof.
  cbv zeta. split; [vm_compute; reflexivity|].
  split; [apply (bool_decide_unpack _); vm_compute; exact Logic.I|].
  vm_compute. repeat split.
Qed.

(** ** C10: what [getProgress] counts *)

Lemma loadAudio_counters_ok id w :
  counters_ok w -> counters_ok (fst (loadAudio id w)).
Proof.
  unfold counters_ok. destruct (loadAudio_frame id w)
    as (_ & _ & _ & -> & -> & _). auto.
Qed.

Lemma clearOldBuffers_counters_ok sequence currentIndex keepBehind w :
  counters_ok w ->
  counters_ok (clearOldBuffers sequence currentIndex keepBehind w).
Proof. intros H. exact H. Qed.

Lemma preloadAhead_counters_ok sequence currentIndex w :
  counters_ok w -> counters_ok (preloadAhead sequence currentIndex w).
Proof.
  unfold counters_ok, preloadAhead.
  destruct (foldl_loadAudio_frame (toLoad sequence currentIndex w) w)
    as (_ & _ & _ & -> & -> & _). auto.
Qed.

(** C10.  [loaded] is [loadedCount]: the successful outcome of a pending
    load adds exactly one to it, whatever the id and whether or not the
    id was cached or evicted before, and a failed outcome, a call of
    [loadAudio] and an eviction leave it as it is.  So after stimulus 1
    has been evicted and loaded again 76 times in the experiment's
    preloader, [loaded] is 76 with one cached entry and the percentage
    is above 100.  When the counters agree and no load was counted, the
    mean latency is the literal 0. *)
Theorem getProgress_counts_completions :
  (∀ w h f b now,
     fetches w !! h = Some f -> status f = Pending ->
     loaded (getProgress (deliver h (Fulfilled b) now w))
     = loaded (getProgress w) + 1)
  ∧ (∀ w h e now,
       loaded (getProgress (deliver h (Rejected e) now w))
       = loaded (getProgress w))
  ∧ (∀ w id, loaded (getProgress (fst (loadAudio id w)))
             = loaded (getProgress w))
  ∧ (∀ w sequence currentIndex keepBehind,
       loaded (getProgress (clearOldBuffers sequence currentIndex keepBehind w))
       = loaded (getProgress w))
  ∧ (let w := Nat.iter 76 reloadOnce newExperiment in
     loaded (getProgress w) = 76
     ∧ total (getProgress w) = 75
     ∧ size (audioBuffers (pre w)) = 1%nat
     ∧ (100 < percentage (getProgress w))%Q)
  ∧ (∀ w, counters_ok w -> loaded (getProgress w) = 0 ->
          avgLoadTime (getProgress w) = 0%Q)
  ∧ avgLoadTime (getProgress newExperiment) = 0%Q.
Proof.
  split; [|split; [|split; [|split; [|split; [|split]]]]].
  - intros w h f b now Hf Hs. unfold getProgress. simpl.
    rewrite deliver_loadedCount, Hf, Hs. reflexivity.
  - intros w h e now. unfold getProgress. simpl.
    rewrite deliver_loadedCount. destruct (fetches w !! h); reflexivity.
  - intros w id. unfold getProgress. simpl.
    by destruct (loadAudio_frame id w) as (_ & _ & _ & -> & _).
  - reflexivity.
  - vm_compute. repeat split.
  - intros w Hc H0. unfold getProgress in *. simpl in *.
    unfold counters_ok in Hc. rewrite H0 in Hc.
    destruct (loadTimes (pre w)); [reflexivity|]. simpl in Hc. lia.
  - reflexivity.
Qed.

Lemma getProgress_counts_completions_witness :
  fetches loading4 !! 0%nat = Some (mkFetch 4 0%Q Pending)
  ∧ loaded (getProgress (deliver 0 (Fulfilled (Decoded 4)) 1%Q loading4)) = 1
  ∧ counters_ok newExperiment
  ∧ avgLoadTime (getProgress newExperiment) = 0%Q.
Proof.
  destruct getProgress_counts_completions as (H1 & _ & _ & _ & _ & H6 & _).
  split; [reflexivity|]. split.
  - apply (H1 loading4 0%nat (mkFetch 4 0%Q Pending) (Decoded 4) 1%Q);
      reflexivity.
  - split; [exact newExperiment_counters_ok|].
    apply (H6 newExperiment newExperiment_counters_ok). reflexivity.
Defined.

(** ** C6: ids in the failed set *)

(** C6, as stated, fails for [getAudioBuffer]: it looks in the cache
    before anything else, so for an id that is in the failed set and
    cached it returns the buffer. *)
Lemma getAudioBuffer_failed_but_cached :
  1 ∈ failedLoads (pre cachedThenFailed)
  ∧ getAudioBuffer 1 true cachedThenFailed
    = Done cachedThenFailed (Decoded 1).
Proof. split; [vm_compute; set_solver|reflexivity]. Qed.

(** C6, amended.  In a world whose in-flight table is in order, for an
    id in the failed set: [loadAudio] rejects with [PreviouslyFailed]
    and changes nothing; [getAudioBuffer] starts no fetch, rejects with
    [PreviouslyFailed] when the id has no cached buffer, and returns the
    cached buffer when it has one.  The id stays in the failed set under
    every outcome of a load, every [loadAudio], [preloadAhead] and
    [clearOldBuffers]. *)
Theorem failed_id_is_not_fetched_again (id : Z) (w : World)
    (showPauseUI : bool) :
  inflight_ok w -> id ∈ failedLoads (pre w) ->
  loadAudio id w = (w, RejectedNow (PreviouslyFailed id))
  ∧ fetches (worldOf (getAudioBuffer id showPauseUI w)) = fetches w
  ∧ (audioBuffers (pre w) !! id = None ->
       getAudioBuffer id showPauseUI w
       = Fail (if showPauseUI then callPause id w else w)
              (PreviouslyFailed id))
  ∧ (∀ b, audioBuffers (pre w) !! id = Some b ->
       getAudioBuffer id showPauseUI w = Done w b)
  ∧ (∀ h o now, id ∈ failedLoads (pre (deliver h o now w)))
  ∧ (∀ id', id ∈ failedLoads (pre (fst (loadAudio id' w))))
  ∧ (∀ sequence i, id ∈ failedLoads (pre (preloadAhead sequence i w)))
  ∧ (∀ sequence i k, id ∈ failedLoads (pre (clearOldBuffers sequence i k w))).
Proof.
  intros Hok Hfail.
  assert (Hl : loadingPromises (pre w) !! id = None) by (by apply Hok).
  assert (Hget : audioBuffers (pre w) !! id = None ->
            getAudioBuffer id showPauseUI w
            = Fail (if showPauseUI then callPause id w else w)
                   (PreviouslyFailed id)).
  { intros Hc. unfold getAudioBuffer, awaitLoadAudio. rewrite Hc, Hl.
    rewrite loadAudio_failed; [reflexivity|].
    destruct showPauseUI; [|assumption].
    by rewrite (proj1 (callPause_frame id w)). }
  split; [by apply loadAudio_failed|]. split; [|split; [exact Hget|split]].
  - destruct (audioBuffers (pre w) !! id) as [b|] eqn:Hc.
    + unfold getAudioBuffer. rewrite Hc. reflexivity.
    + rewrite Hget by reflexivity. simpl. destruct showPauseUI; [|reflexivity].
      apply (callPause_frame id w).
  - intros b Hc. unfold getAudioBuffer. rewrite Hc. reflexivity.
  - split; [intros; by apply deliver_failed|].
    split; [intros id'; by destruct (loadAudio_frame id' w) as (_&_&->&_)|].
    split; [|intros; assumption].
    intros sequence i. unfold preloadAhead.
    by destruct (foldl_loadAudio_frame (toLoad sequence i w) w) as (_&_&->&_).
Qed.

Lemma failed_id_is_not_fetched_again_witness :
  inflight_ok failed7
  ∧ 7 ∈ failedLoads (pre failed7)
  ∧ audioBuffers (pre failed7) !! 7 = None
  ∧ loadAudio 7 failed7 = (failed7, RejectedNow (PreviouslyFailed 7))
  ∧ getAudioBuffer 7 true failed7
    = Fail (callPause 7 failed7) (PreviouslyFailed 7)
  ∧ fetchId <$> fetches (worldOf (getAudioBuffer 7 true failed7)) = [7]
  ∧ inflight_ok cachedThenFailed
  ∧ 1 ∈ failedLoads (pre cachedThenFailed)
  ∧ audioBuffers (pre cachedThenFailed) !! 1 = Some (Decoded 1)
  ∧ getAudioBuffer 1 false cachedThenFailed
    = Done cachedThenFailed (Decoded 1).
Proof.
  assert (Hok : inflight_ok failed7).
  { apply deliver_inflight_ok, loadAudio_inflight_ok,
      newExperiment_inflight_ok. }
  assert (Hin : 7 ∈ failedLoads (pre failed7)) by (vm_compute; set_solver).
  assert (Hc : audioBuffers (pre failed7) !! 7 = None) by reflexivity.
  assert (Hok' : inflight_ok cachedThenFailed).
  { apply deliver_inflight_ok, loadAudio_inflight_ok, deliver_inflight_ok,
      loadAudio_inflight_ok, newExperiment_inflight_ok. }
  assert (Hin' : 1 ∈ failedLoads (pre cachedThenFailed))
    by (vm_compute; set_solver).
  assert (Hc' : audioBuffers (pre cachedThenFailed) !! 1 = Some (Decoded 1))
    by reflexivity.
  destruct (failed_id_is_not_fetched_again 7 failed7 true Hok Hin)
    as (H1 & H2 & H3 & _).
  destruct (failed_id_is_not_fetched_again 1 cachedThenFailed false Hok' Hin')
    as (_ & _ & _ & H4 & _).
  split; [exact Hok|]. split; [exact Hin|]. split; [exact Hc|].
  split; [exact H1|]. split; [exact (H3 Hc)|].
  split; [rewrite H2; reflexivity|].
  split; [exact Hok'|]. split; [exact Hin'|]. split; [exact Hc'|].
  exact (H4 _ Hc').
Defined.

(** ** C5: the pause screen when the awaited load fails *)

(** When [ensureNextTrialReady] throws, the host is as the pause callback
    left it: the resume callback has not run. *)
Lemma ensureNextTrialReady_fails_paused (sequence : list Z) (i : nat)
    (id : Z) (w : World) (evs : list Event) (w' : World) (e : Error) :
  inflight_ok w -> hosted w -> sequence !! i = Some id ->
  run evs (ensureNextTrialReady sequence i w) = Fail w' e ->
  host w' = showPauseScreen id (host w)
  ∧ isPaused (host w') = true ∧ overlay (host w') = Some true
  ∧ last (console (host w')) = Some (ExperimentPaused id).
Proof.
  intros Hok [Hp _] Hi Hrun.
  apply (safe_run_Fail _ _ evs _ w' e
           (ensureNextTrialReady_safe sequence i id w Hok Hi)) in Hrun.
  destruct Hrun as (_ & _ & _ & Hh).
  unfold pauseHost in Hh. rewrite Hp in Hh. rewrite Hh.
  split; [reflexivity|]. split; [reflexivity|]. split; [reflexivity|].
  simpl. by rewrite last_snoc.
Qed.

(** The same for [getAudioBuffer] called with the pause screen enabled. *)
Lemma getAudioBuffer_fails_paused (id : Z) (w : World) (evs : list Event)
    (w' : World) (e : Error) :
  inflight_ok w -> hosted w ->
  run evs (getAudioBuffer id true w) = Fail w' e ->
  host w' = showPauseScreen id (host w)
  ∧ isPaused (host w') = true ∧ overlay (host w') = Some true
  ∧ last (console (host w')) = Some (ExperimentPaused id).
Proof.
  intros Hok [Hp _] Hrun.
  apply (safe_run_Fail _ _ evs _ w' e (getAudioBuffer_safe id true w Hok))
    in Hrun.
  destruct Hrun as (_ & _ & _ & Hh).
  unfold pauseHost in Hh. rewrite Hp in Hh. rewrite Hh.
  split; [reflexivity|]. split; [reflexivity|]. split; [reflexivity|].
  simpl. by rewrite last_snoc.
Qed.

(** C5, on the code.  In the run [failingRun] trial 4 waits in
    [ensureNextTrialReady] for stimulus 4 and the load is answered with
    a 404: the experiment stops with that error while the overlay is
    displayed, [isPaused] is set, and the console shows the pause and no
    resume.  The same happens to [getAudioBuffer(4)] with the pause
    screen enabled when the load it waits for cannot be decoded. *)
Theorem pause_screen_stays_when_load_fails :
  (∃ w', run failingRun (init identitySequence [] newExperiment)
         = Fail w' (HttpError 404)
         ∧ console (host w') = [ExperimentPaused 4]
         ∧ overlay (host w') = Some true
         ∧ isPaused (host w') = true)
  ∧ (∃ w', run [EvLoad 0%nat (Rejected DecodeError) 1%Q]
             (getAudioBuffer 4 true loading4)
           = Fail w' DecodeError
           ∧ console (host w') = [ExperimentPaused 4]
           ∧ overlay (host w') = Some true
           ∧ isPaused (host w') = true).
Proof.
  split; eexists; (split; [vm_compute; reflexivity|]); repeat split.
Qed.

(** ** C2: the pause flag of a trial result *)

(** C2, on the code.  In the run [waitingRun] trial 4 had to wait for
    its buffer (the console shows the pause for stimulus 4 and the
    resume), and its result, like the three before it, records
    [wasPaused = false]: the flag is read from [isPaused] after the
    resume callback has cleared it. *)
Theorem waited_trial_is_recorded_unpaused :
  let w := worldOf (run waitingRun (init identitySequence [] newExperiment)) in
  console (host w) = [ExperimentPaused 4; ExperimentResumed]
  ∧ played (host w)
    = [(1, Decoded 1); (2, Decoded 2); (3, Decoded 3); (4, Decoded 4)]
  ∧ (fun r => (trialNumber r, stimulusId r, wasPaused r)) <$> results (host w)
    = [(1, 1, false); (2, 2, false); (3, 3, false); (4, 4, false)].
Proof. vm_compute. repeat split. Qed.

(** ** C4: a trial submitted twice *)

Lemma existsb_false_filter {A : Type} (f : A -> bool) (l : list A) :
  existsb f l = false -> List.filter f l = [].
Proof.
  induction l as [|x l IH]; simpl; [reflexivity|].
  intros H. apply orb_false_iff in H as [Hx Hl]. rewrite Hx. auto.
Qed.

Lemma has_session_update (sid sid' : string) (ts : Backend.Field Z)
    (db : Backend.DB) :
  Backend.has_session sid (Backend.update_last_trial sid' ts db)
  = Backend.has_session sid db.
Proof.
  unfold Backend.has_session, Backend.update_last_trial. simpl.
  induction (Backend.sessions db) as [|s l IH]; simpl; [reflexivity|].
  rewrite IH. f_equal.
  destruct (bool_decide (Backend.id s = sid')); reflexivity.
Qed.

Lemma has_session_insert (sid ua sr : string) (ts : Backend.Field Z)
    (db : Backend.DB) :
  Backend.has_session sid
    (Backend.insert_or_ignore_session sid (Backend.Value ua)
       (Backend.Value sr) ts db) = true.
Proof.
  unfold Backend.insert_or_ignore_session.
  destruct (Backend.has_session sid db) eqn:Hs; [assumption|].
  unfold Backend.has_session. simpl. rewrite existsb_app. simpl.
  rewrite bool_decide_eq_true_2 by reflexivity.
  rewrite orb_true_r. reflexivity.
Qed.

Lemma insert_or_ignore_session_frame (sid : string)
    (ua sr : Backend.Field string) (ts : Backend.Field Z) (db : Backend.DB) :
  let db0 := Backend.insert_or_ignore_session sid ua sr ts db in
  Backend.trials db0 = Backend.trials db
  ∧ Backend.next_trial_id db0 = Backend.next_trial_id db
  ∧ Backend.current_timestamp db0 = Backend.current_timestamp db.
Proof.
  unfold Backend.insert_or_ignore_session.
  destruct ua, sr; try (by repeat split).
  destruct (Backend.has_session sid db); by repeat split.
Qed.

(** [saveTrial] on a submission of the declared type: the statements
    cannot fail but on the [UNIQUE] constraint. *)
Lemma saveTrial_cases (data : Backend.TrialSubmission) (now : string)
    (db : Backend.DB) :
  let db0 :=
    Backend.insert_or_ignore_session (Backend.sessionId data)
      (Backend.Value (Backend.userAgent data))
      (Backend.Value (Backend.screenResolution data))
      (Backend.Value (Backend.timestamp (Backend.trial data))) db in
  let row :=
    Backend.mkTrialRow (Backend.next_trial_id db) (Backend.sessionId data)
      (Backend.trialNumber (Backend.trial data))
      (Backend.stimulusId (Backend.trial data))
      (Backend.character (Backend.trial data))
      (Backend.reactionTime (Backend.trial data))
      (Backend.timestamp (Backend.trial data))
      (if Backend.wasPaused (Backend.trial data) then 1 else 0) now in
  Backend.saveTrial data now db =
    if Backend.has_trial (Backend.sessionId data)
         (Backend.trialNumber (Backend.trial data)) db
    then (db0, Some Backend.UniqueConstraint)
    else (Backend.update_last_trial (Backend.sessionId data)
            (Backend.Value (Backend.timestamp (Backend.trial data)))
            (Backend.mkDB (Backend.sessions db0) (Backend.trials db ++ [row])
               (Backend.next_trial_id db + 1) (Backend.current_timestamp db)),
          None).
Proof.
  intros db0 row. unfold Backend.saveTrial, Backend.saveTrialJson.
  cbn [Backend.json_of_trial Backend.json_timestamp Backend.json_trialNumber
       Backend.json_stimulusId Backend.json_character
       Backend.json_reactionTime Backend.defined andb negb].
  fold db0. unfold Backend.insert_trial.
  cbn [Backend.bound_trial Backend.json_of_trial Backend.json_timestamp
       Backend.json_trialNumber Backend.json_stimulusId
       Backend.json_character Backend.json_reactionTime
       Backend.json_wasPaused Backend.stored mbind option_bind
       Backend.trialNumber Backend.stimulusId Backend.character
       Backend.reactionTime Backend.timestamp Backend.wasPaused].
  destruct (insert_or_ignore_session_frame (Backend.sessionId data)
              (Backend.Value (Backend.userAgent data))
              (Backend.Value (Backend.screenResolution data))
              (Backend.Value (Backend.timestamp (Backend.trial data))) db)
    as (Htr & Hnx & Hck).
  fold db0 in Htr, Hnx, Hck.
  assert (Ht : Backend.has_trial (Backend.sessionId data)
                 (Backend.trialNumber (Backend.trial data)) db0
               = Backend.has_trial (Backend.sessionId data)
                   (Backend.trialNumber (Backend.trial data)) db).
  { unfold Backend.has_trial. by rewrite Htr. }
  rewrite Ht.
  destruct (Backend.has_trial _ _ db); [reflexivity|].
  unfold db0 at 1. rewrite has_session_insert. simpl.
  rewrite Htr, Hnx, Hck. reflexivity.
Qed.

(** C4, as stated, fails: the second submission of the same payload does
    not succeed.  [saveTrial] throws on the [UNIQUE] constraint and the
    worker answers 500. *)
Lemma second_submission_is_rejected :
  let first := Backend.saveTrial sampleSubmission "t1" emptyDB in
  snd first = None
  ∧ snd (Backend.postTrial sampleBody "t1" emptyDB) = 200
  ∧ snd (Backend.saveTrial sampleSubmission "t2" (fst first))
    = Some Backend.UniqueConstraint
  ∧ snd (Backend.postTrial sampleBody "t2" (fst first)) = 500.
Proof. vm_compute. repeat split. Qed.

(** C4, amended.  The trial write is a plain insert under
    [UNIQUE(session_id, trial_number)]: once a submission for a key has
    been saved, a further submission for that key is rejected with the
    constraint error (the worker answers 500) and leaves the store as it
    was, so the key keeps exactly one row, the first one. *)
Theorem saveTrial_keeps_first_row (data data' : Backend.TrialSubmission)
    (now now' : string) (db db1 : Backend.DB) :
  Backend.saveTrial data now db = (db1, None) ->
  Backend.sessionId data' = Backend.sessionId data ->
  Backend.trialNumber (Backend.trial data')
  = Backend.trialNumber (Backend.trial data) ->
  Backend.saveTrial data' now' db1 = (db1, Some Backend.UniqueConstraint)
  ∧ Backend.rows_for (Backend.sessionId data)
      (Backend.trialNumber (Backend.trial data)) db1
    = [Backend.mkTrialRow (Backend.next_trial_id db)
         (Backend.sessionId data) (Backend.trialNumber (Backend.trial data))
         (Backend.stimulusId (Backend.trial data))
         (Backend.character (Backend.trial data))
         (Backend.reactionTime (Backend.trial data))
         (Backend.timestamp (Backend.trial data))
         (if Backend.wasPaused (Backend.trial data) then 1 else 0) now]
  ∧ (Backend.sessionId data ≠ EmptyString ->
     Backend.postTrial
       (Backend.mkBody (Some (Backend.sessionId data'))
          (Backend.userAgent data') (Backend.screenResolution data')
          (Some (Backend.trial data'))) now' db1
     = (db1, 500)).
Proof.
  intros Hsave Hsid Hnum. rewrite saveTrial_cases in Hsave.
  set (db0 := Backend.insert_or_ignore_session _ _ _ _ db) in *.
  assert (Hs0 : Backend.has_session (Backend.sessionId data) db0 = true)
    by apply has_session_insert.
  destruct (Backend.has_trial (Backend.sessionId data)
              (Backend.trialNumber (Backend.trial data)) db) eqn:Ht;
    [discriminate|].
  injection Hsave as Hdb1.
  assert (Hs1 : Backend.has_session (Backend.sessionId data') db1 = true).
  { rewrite Hsid, <- Hdb1, has_session_update. exact Hs0. }
  assert (Ht1 : Backend.has_trial (Backend.sessionId data')
                  (Backend.trialNumber (Backend.trial data')) db1 = true).
  { rewrite Hsid, Hnum, <- Hdb1. unfold Backend.has_trial. simpl.
    rewrite existsb_app. simpl. unfold Backend.same_key at 2. simpl.
    rewrite bool_decide_eq_true_2 by reflexivity. rewrite Z.eqb_refl.
    simpl. apply orb_true_r. }
  assert (Hagain : Backend.saveTrial data' now' db1
                   = (db1, Some Backend.UniqueConstraint)).
  { rewrite saveTrial_cases, Ht1.
    unfold Backend.insert_or_ignore_session. rewrite Hs1. reflexivity. }
  split; [exact Hagain|]. split.
  - rewrite <- Hdb1. unfold Backend.rows_for. simpl.
    rewrite List.filter_app. simpl.
    unfold Backend.has_trial in Ht. rewrite (existsb_false_filter _ _ Ht).
    unfold Backend.same_key at 1. simpl.
    rewrite bool_decide_eq_true_2 by reflexivity. rewrite Z.eqb_refl.
    reflexivity.
  - intros Hne. unfold Backend.postTrial, Backend.postTrialJson. simpl.
    rewrite bool_decide_eq_false_2 by congruence.
    change (Backend.saveTrialJson (Backend.sessionId data')
              (Backend.Value (Backend.userAgent data'))
              (Backend.Value (Backend.screenResolution data'))
              (Backend.json_of_trial (Backend.trial data')) now' db1)
      with (Backend.saveTrial data' now' db1).
    rewrite Hagain. reflexivity.
Qed.

Lemma saveTrial_keeps_first_row_witness :
  let db1 := fst (Backend.saveTrial sampleSubmission "t1" emptyDB) in
  Backend.saveTrial sampleSubmission "t1" emptyDB = (db1, None)
  ∧ Backend.sessionId sampleSubmission ≠ EmptyString
  ∧ Backend.saveTrial sampleSubmission "t2" db1
    = (db1, Some Backend.UniqueConstraint)
  ∧ length (Backend.rows_for "session-1" 1 db1) = 1%nat
  ∧ Backend.postTrial sampleBody "t2" db1 = (db1, 500).
Proof.
  intros db1.
  assert (H1 : Backend.saveTrial sampleSubmission "t1" emptyDB = (db1, None))
    by reflexivity.
  assert (Hne : Backend.sessionId sampleSubmission ≠ EmptyString)
    by discriminate.
  destruct (saveTrial_keeps_first_row sampleSubmission sampleSubmission
              "t1" "t2" emptyDB db1 H1 eq_refl eq_refl) as (H2 & H3 & H4).
  split; [exact H1|]. split; [exact Hne|]. split; [exact H2|].
  split; [|exact (H4 Hne)].
  change (length (Backend.rows_for (Backend.sessionId sampleSubmission)
            (Backend.trialNumber (Backend.trial sampleSubmission)) db1)
          = 1%nat).
  rewrite H3. reflexivity.
Defined.

(** ** [preloadInitial] *)

Lemma loadEach_world (ids : list Z) (w : World) :
  fst (loadEach ids w) = foldl (fun w1 id => fst (loadAudio id w1)) w ids.
Proof.
  revert w. induction ids as [|id ids IH]; intros w; simpl; [reflexivity|].
  destruct (loadAudio id w) as [w1 c] eqn:Hl.
  destruct (loadEach ids w1) as [w2 cs] eqn:He. simpl.
  rewrite <- IH, He. reflexivity.
Qed.

Lemma loadEach_started (ids : list Z) (w : World) :
  Forall (fun id => id ∉ failedLoads (pre w)) ids ->
  snd (loadEach ids w) = Started <$> seq (length (fetches w)) (length ids)
  ∧ fetches (fst (loadEach ids w))
    = fetches w ++ ((fun id => mkFetch id (clock w) Pending) <$> ids).
Proof.
  revert w. induction ids as [|id ids IH]; intros w Hall; simpl.
  { rewrite app_nil_r. auto. }
  apply Forall_cons in Hall as [Hid Hall].
  rewrite loadAudio_starts by assumption.
  set (w1 := with_pre _ _).
  destruct (IH w1) as [Hcalls Hfs]; [exact Hall|].
  destruct (loadEach ids w1) as [w2 cs] eqn:He. simpl in *.
  rewrite Hcalls, Hfs. unfold w1. simpl. rewrite length_app. simpl.
  rewrite Nat.add_1_r, <- app_assoc. auto.
Qed.

Lemma loadEach_rejected (ids : list Z) (w : World) :
  ¬ Forall (fun id => id ∉ failedLoads (pre w)) ids ->
  is_Some (firstRejected (snd (loadEach ids w))).
Proof.
  revert w. induction ids as [|id ids IH]; intros w Hn; simpl.
  { exfalso. apply Hn. constructor. }
  destruct (decide (id ∈ failedLoads (pre w))) as [Hid|Hid].
  - rewrite loadAudio_failed by assumption.
    destruct (loadEach ids w) as [w2 cs]. simpl. eauto.
  - rewrite loadAudio_starts by assumption.
    set (w1 := with_pre _ _).
    assert (Hn1 : ¬ Forall (fun id => id ∉ failedLoads (pre w1)) ids).
    { intros Hall. apply Hn. constructor; assumption. }
    specialize (IH w1 Hn1).
    destruct (loadEach ids w1) as [w2 cs]. simpl in *. exact IH.
Qed.

Lemma firstRejected_Started (hs : list Handle) :
  firstRejected (Started <$> hs) = None
  ∧ startedHandles (Started <$> hs) = hs.
Proof.
  induction hs as [|h hs [IH1 IH2]]; simpl; [auto|].
  split; [exact IH1|]. unfold startedHandles in *.
  cbn [omap list_omap fmap list_fmap]. f_equal. exact IH2.
Qed.

Lemma allSettled_pending (w : World) (hs : list Handle) :
  (∀ h, h ∈ hs -> settledAt w h = None) ->
  allSettled w hs = match hs with [] => Some None | _ => None end.
Proof.
  induction hs as [|h hs IH]; intros Hall; simpl; [reflexivity|].
  rewrite (Hall h) by (by left).
  rewrite IH by (intros; apply Hall; by right).
  destruct hs; reflexivity.
Qed.

Lemma allSettled_fulfilled (w : World) (hs : list Handle) :
  allSettled w hs = Some None ->
  ∀ h, h ∈ hs -> ∃ b, settledAt w h = Some (Fulfilled b).
Proof.
  induction hs as [|h0 hs IH]; simpl; intros Hall h Hin.
  { by apply elem_of_nil in Hin. }
  destruct (settledAt w h0) as [[b|e]|] eqn:Hs; try discriminate.
  - apply elem_of_cons in Hin as [->|Hin]; [eauto|auto].
  - destruct (allSettled w hs) as [[e|]|]; discriminate.
Qed.

Lemma allSettled_waiting (w : World) (hs : list Handle) :
  allSettled w hs = None ->
  ∀ h e, h ∈ hs -> settledAt w h ≠ Some (Rejected e).
Proof.
  induction hs as [|h0 hs IH]; simpl; intros Hall h e Hin.
  { by apply elem_of_nil in Hin. }
  destruct (settledAt w h0) as [[b|e0]|] eqn:Hs; try discriminate.
  - apply elem_of_cons in Hin as [->|Hin]; [congruence|auto].
  - destruct (allSettled w hs) as [[e1|]|] eqn:Hr; try discriminate.
    + apply elem_of_cons in Hin as [->|Hin]; [congruence|].
      destruct (allSettled_fulfilled w hs Hr h Hin) as [b Hb]. congruence.
    + apply elem_of_cons in Hin as [->|Hin]; [congruence|auto].
Qed.

(** A load that was pending and is now fulfilled has left its buffer in
    the cache, where outcomes of loads leave it. *)
Lemma env_fulfilled_cached w w' h f b :
  env w w' -> fetches w !! h = Some f -> status f = Pending ->
  settledAt w' h = Some (Fulfilled b) ->
  is_Some (audioBuffers (pre w') !! fetchId f).
Proof.
  intros Henv. revert f. induction Henv as [w|w h0 o now w' Henv IH];
    intros f Hf Hs Hset.
  { unfold settledAt in Hset. rewrite Hf, Hs in Hset. discriminate. }
  destruct (deliver_fetch h0 o now w h f Hf)
    as [f' [Hf' [Hid [_ [Hsame|[-> [_ Hfin]]]]]]].
  - rewrite <- Hid. apply (IH f' Hf'); [congruence|assumption].
  - assert (Hnow : settledAt (deliver h0 o now w) h0 = Some o).
    { unfold settledAt. rewrite Hf', Hfin. reflexivity. }
    rewrite (env_settledAt _ _ _ _ Henv Hnow) in Hset.
    injection Hset as ->.
    eapply env_cached; [exact Henv|].
    rewrite (deliver_Fulfilled_cached h0 b now w f Hf Hs). eauto.
Qed.

Lemma run_finished {A : Type} (evs : list Event) (c : Async A) :
  finished c = true -> run evs c = c.
Proof. intros Hf. destruct evs; simpl; [reflexivity|]. by rewrite Hf. Qed.

Lemma resume_finished {A : Type} (c : Async A) :
  finished c = true -> resume c = c.
Proof. destruct c; simpl; intros; try reflexivity; discriminate. Qed.

(** A call suspended in [Promise.all] whose continuation returns or
    throws at once is, after any events, finished or still suspended
    there. *)
Lemma run_AwaitAll {A : Type} (evs : list Event) (w : World)
    (hs : list Handle) (k : option Error -> World -> Async A) :
  (∀ r w', finished (k r w') = true) ->
  finished (run evs (AwaitAll w hs k)) = true
  ∨ ∃ w', run evs (AwaitAll w hs k) = AwaitAll w' hs k.
Proof.
  intros Hk. revert w. induction evs as [|ev evs IH]; intros w; simpl.
  { right. eauto. }
  destruct ev as [h o now|ok now]; simpl; [|apply IH].
  destruct (allSettled (deliver h o now w) hs) as [r|]; [|apply IH].
  left. rewrite resume_finished by apply Hk.
  rewrite run_finished by apply Hk. apply Hk.
Qed.

Lemma preloadInitial_safe (sequence : list Z) (w : World) :
  let batch := jsSlice sequence 0 (bufferAhead (pre w)) in
  let n := length (fetches w) in
  safe
    (fun w' r =>
       r = true
       ∧ (∀ id, id ∈ batch -> is_Some (audioBuffers (pre w') !! id))
       ∧ (∀ h, (n ≤ h < n + length batch)%nat ->
            ∃ b, settledAt w' h = Some (Fulfilled b))
       ∧ host w' = host w
       ∧ same_config w w' ∧ (inflight_ok w -> inflight_ok w'))
    (fun w' e => e = InitialLoadFailed)
    (preloadInitial sequence w).
Proof.
  intros batch n. unfold preloadInitial. fold batch.
  destruct (decide (Forall (fun id => id ∉ failedLoads (pre w)) batch))
    as [Hall|Hnall].
  2: { apply loadEach_rejected in Hnall as [e He].
       destruct (loadEach batch w) as [w1 calls]. simpl in He. rewrite He.
       constructor. reflexivity. }
  destruct (loadEach_started batch w Hall) as [Hcalls Hfs].
  assert (Hhost : host (fst (loadEach batch w)) = host w
                  ∧ same_config w (fst (loadEach batch w))
                  ∧ (inflight_ok w -> inflight_ok (fst (loadEach batch w)))).
  { rewrite loadEach_world.
    destruct (foldl_loadAudio_frame batch w) as (?&_&_&_&_&?&_&?&_). auto. }
  destruct Hhost as (Hhost & Hcfg & Hok).
  destruct (loadEach batch w) as [w1 calls]. simpl in *. subst calls.
  fold n.
  destruct (firstRejected_Started (seq n (length batch))) as [-> ->].
  assert (Hrec : ∀ j id, batch !! j = Some id ->
            fetches w1 !! (n + j)%nat = Some (mkFetch id (clock w) Pending)).
  { intros j id Hj. rewrite Hfs, lookup_app_r by (unfold n; lia).
    replace (n + j - length (fetches w))%nat with j by (unfold n; lia).
    rewrite list_lookup_fmap, Hj. reflexivity. }
  assert (Hpend : ∀ h, h ∈ seq n (length batch) -> settledAt w1 h = None).
  { intros h Hh. apply elem_of_seq in Hh.
    destruct (lookup_lt_is_Some_2 batch (h - n)) as [id Hid]; [lia|].
    assert (Hr := Hrec _ _ Hid).
    replace (n + (h - n))%nat with h in Hr by lia.
    unfold settledAt. rewrite Hr. reflexivity. }
  assert (Hq : allSettled w1 (seq n (length batch))
               = match seq n (length batch) with
                 | [] => Some None | _ => None end)
    by (by apply allSettled_pending).
  destruct (decide (length batch = 0%nat)) as [Hz|Hnz].
  { rewrite Hz. simpl.
    constructor. split; [reflexivity|]. split; [|split; [|auto]].
    - intros id Hin. apply nil_length_inv in Hz. rewrite Hz in Hin.
      by apply elem_of_nil in Hin.
    - intros h Hh. lia. }
  assert (Hq' : allSettled w1 (seq n (length batch)) = None).
  { rewrite Hq. destruct (length batch); [congruence|reflexivity]. }
  cbn [resume]. rewrite Hq'. constructor; [assumption|].
  intros w1' h o now r Henv _ Hr.
  assert (Henv' := env_deliver _ _ h o now Henv).
  destruct r as [e|]; simpl; constructor; [reflexivity|].
  split; [reflexivity|]. split; [|split].
  - intros id Hin. apply list_elem_of_lookup in Hin as [j Hj].
    assert (Hjn : (n + j)%nat ∈ seq n (length batch)).
    { apply elem_of_seq. apply lookup_lt_Some in Hj. lia. }
    destruct (allSettled_fulfilled _ _ Hr _ Hjn) as [b Hb].
    apply (env_fulfilled_cached _ _ _ _ _ Henv' (Hrec j id Hj) eq_refl Hb).
  - intros h' Hh'. apply (allSettled_fulfilled _ _ Hr).
    apply elem_of_seq. lia.
  - destruct (env_facts _ _ Henv') as (Hh' & Hcfg' & Hok').
    split; [congruence|].
    split; [eapply same_config_trans; eassumption|auto].
Qed.

Lemma jsSlice_prefix {A : Type} (l : list A) (k : Z) :
  0 ≤ k -> jsSlice l 0 k = take (Z.to_nat k) l.
Proof.
  intros Hk. rewrite jsSlice_positions by lia.
  simpl. by rewrite Nat.sub_0_r.
Qed.

Lemma preloadInitial_world (sequence : list Z) (w : World) :
  worldOf (preloadInitial sequence w)
  = foldl (fun w1 id => fst (loadAudio id w1)) w
      (jsSlice sequence 0 (bufferAhead (pre w))).
Proof.
  rewrite <- loadEach_world. unfold preloadInitial.
  destruct (loadEach _ w) as [w1 calls]. simpl.
  destruct (firstRejected calls); [reflexivity|]. simpl.
  destruct (allSettled w1 (startedHandles calls)) as [[e|]|]; reflexivity.
Qed.

(** How [preloadInitial] stands before the first event: thrown, because
    an id of the batch is in the failed set; returned, because the batch
    is empty; or suspended in [Promise.all] on the handles of the batch,
    all pending. *)
Lemma preloadInitial_shape (sequence : list Z) (w : World) :
  let batch := jsSlice sequence 0 (bufferAhead (pre w)) in
  let c := preloadInitial sequence w in
  (¬ Forall (fun id => id ∉ failedLoads (pre w)) batch
   ∧ c = Fail (worldOf c) InitialLoadFailed)
  ∨ (batch = [] ∧ c = Done (worldOf c) true)
  ∨ (Forall (fun id => id ∉ failedLoads (pre w)) batch
     ∧ c = AwaitAll (worldOf c)
             (seq (length (fetches w)) (length batch)) afterInitialBatch
     ∧ length (fetches (worldOf c))
       = (length (fetches w) + length batch)%nat).
Proof.
  intros batch c. unfold c, preloadInitial. fold batch.
  destruct (decide (Forall (fun id => id ∉ failedLoads (pre w)) batch))
    as [Hall|Hnall].
  2: { left. split; [assumption|].
       apply loadEach_rejected in Hnall as [e He].
       destruct (loadEach batch w) as [w1 calls]. simpl in He. rewrite He.
       reflexivity. }
  right.
  destruct (loadEach_started batch w Hall) as [Hcalls Hfs].
  destruct (loadEach batch w) as [w1 calls]. simpl in *. subst calls.
  destruct (firstRejected_Started (seq (length (fetches w)) (length batch)))
    as [Hfr Hsh].
  rewrite Hfr, Hsh.
  assert (Hp : ∀ h, h ∈ seq (length (fetches w)) (length batch) ->
            settledAt w1 h = None).
  { intros h Hh. apply elem_of_seq in Hh.
    destruct (lookup_lt_is_Some_2 batch (h - length (fetches w)))
      as [id Hid]; [lia|].
    unfold settledAt. rewrite Hfs, lookup_app_r by lia.
    rewrite list_lookup_fmap, Hid. reflexivity. }
  rewrite (allSettled_pending _ _ Hp).
  destruct (decide (length batch = 0%nat)) as [Hz|Hnz].
  - left. split; [by apply nil_length_inv|]. rewrite Hz. reflexivity.
  - right. split; [assumption|].
    destruct (length batch) as [|m] eqn:Hlen; [contradiction|]. simpl.
    split; [reflexivity|].
    rewrite Hfs, length_app, length_fmap, Hlen. reflexivity.
Qed.

(** ** C7: [preloadInitial] *)

(** C7.  For a window size [k] that is not negative, [preloadInitial]
    calls [loadAudio] for the first [k] ids of the sequence, one after
    the other and before it awaits anything, which starts one fetch for
    each of them that is not in the failed set.  Under every list of
    events: if it returns, it returns [true], every load it started
    has succeeded, every id of that window has a buffer in the cache,
    and [getAudioBuffer] for it returns that buffer at once; if it throws, the error is [InitialLoadFailed]; and
    as soon as the load of one of the window's ids is rejected, or when
    one of the ids was in the failed set, it has thrown. *)
Theorem preloadInitial_loads_first_window (sequence : list Z) (w : World)
    (evs : list Event) :
  0 ≤ bufferAhead (pre w) ->
  let batch := take (Z.to_nat (bufferAhead (pre w))) sequence in
  let c := preloadInitial sequence w in
  worldOf c = foldl (fun w1 id => fst (loadAudio id w1)) w batch
  ∧ fetches (worldOf c) =
      fetches w ++
        ((fun id => mkFetch id (clock w) Pending) <$>
           filter (fun id => id ∉ failedLoads (pre w)) batch)
  ∧ (∀ w' r, run evs c = Done w' r ->
       r = true
       ∧ (∀ h, (length (fetches w) ≤ h < length (fetches (worldOf c)))%nat ->
            ∃ b, settledAt w' h = Some (Fulfilled b))
       ∧ ∀ id, id ∈ batch ->
           ∃ b, audioBuffers (pre w') !! id = Some b
                ∧ ∀ showPauseUI, getAudioBuffer id showPauseUI w' = Done w' b)
  ∧ (∀ w' e, run evs c = Fail w' e -> e = InitialLoadFailed)
  ∧ (∀ h e,
       (length (fetches w) ≤ h < length (fetches (worldOf c)))%nat ->
       settledAt (worldOf (run evs c)) h = Some (Rejected e) ->
       ∃ w', run evs c = Fail w' InitialLoadFailed)
  ∧ (∀ id, id ∈ batch -> id ∈ failedLoads (pre w) ->
       ∃ w', c = Fail w' InitialLoadFailed).
Proof.
  intros Hk batch c.
  assert (Hb : jsSlice sequence 0 (bufferAhead (pre w)) = batch)
    by (by apply jsSlice_prefix).
  assert (Hs := preloadInitial_safe sequence w). rewrite Hb in Hs.
  cbv zeta in Hs. fold c in Hs.
  assert (Hshape := preloadInitial_shape sequence w). rewrite Hb in Hshape.
  cbv zeta in Hshape. fold c in Hshape.
  split; [unfold c; by rewrite preloadInitial_world, Hb|].
  split.
  { unfold c. rewrite preloadInitial_world, Hb.
    apply foldl_loadAudio_frame. }
  split; [|split; [|split]].
  - intros w' r Hrun.
    assert (Hnf : ∀ w1, run evs c ≠ Fail w1 InitialLoadFailed)
      by (intros w1; rewrite Hrun; discriminate).
    apply (safe_run_Done _ _ evs c w' r Hs) in Hrun
      as (-> & Hc & Hful & _).
    split; [reflexivity|]. split.
    + intros h Hrange. apply Hful.
      destruct Hshape as [[_ Hfl]|[[Hnil _]|[_ [_ Hlen]]]].
      * exfalso. apply (Hnf (worldOf c)). rewrite run_finished; [assumption|].
        rewrite Hfl. reflexivity.
      * exfalso. revert Hrange. unfold c.
        rewrite preloadInitial_world, Hb, Hnil. simpl. lia.
      * lia.
    + intros id Hin.
      destruct (Hc id Hin) as [b Hbuf]. exists b. split; [assumption|].
      intros showPauseUI. unfold getAudioBuffer. rewrite Hbuf. reflexivity.
  - intros w' e Hrun. exact (safe_run_Fail _ _ evs c w' e Hs Hrun).
  - intros h e Hrange Hrej.
    destruct Hshape as [[_ Hc]|[[Hnil Hc]|[Hall [Hc Hlen]]]].
    + exists (worldOf c). rewrite run_finished; [assumption|].
      rewrite Hc. reflexivity.
    + exfalso. revert Hrange. unfold c at 1.
      rewrite preloadInitial_world, Hb, Hnil. simpl. lia.
    + assert (Hh : h ∈ seq (length (fetches w)) (length batch)).
      { apply elem_of_seq. lia. }
      assert (Hsr := safe_run _ _ evs c Hs).
      destruct (run_AwaitAll evs (worldOf c)
                  (seq (length (fetches w)) (length batch))
                  afterInitialBatch) as [Hfin|[w' Hw']].
      * intros [e'|] w'; reflexivity.
      * rewrite <- Hc in Hfin.
        destruct (run evs c) as [w' r|w' e'| | |] eqn:Hrun;
          try discriminate.
        -- exfalso. inversion Hsr as [? ? Hq| | | |]. subst.
           destruct Hq as (_ & _ & Hful & _).
           destruct (Hful h) as [b Hbuf]; [lia|].
           simpl in Hrej. congruence.
        -- inversion Hsr as [|? ? He | | |]. subst. eauto.
      * exfalso. rewrite <- Hc in Hw'. rewrite Hw' in Hsr, Hrej.
        inversion Hsr as [| | |? ? ? Hq|]. subst.
        exact (allSettled_waiting _ _ Hq h e Hh Hrej).
  - intros id Hin Hfail.
    destruct Hshape as [[_ Hc]|[[Hnil Hc]|[Hall [Hc Hlen]]]].
    + eauto.
    + rewrite Hnil in Hin. by apply elem_of_nil in Hin.
    + exfalso. rewrite Forall_forall in Hall. exact (Hall id Hin Hfail).
Qed.

Lemma preloadInitial_loads_first_window_witness :
  0 ≤ bufferAhead (pre windowTwo)
  ∧ run [EvLoad 0%nat (Fulfilled (Decoded 3)) 1%Q;
         EvLoad 1%nat (Fulfilled (Decoded 1)) 2%Q]
      (preloadInitial piSequence windowTwo) = Done afterInitial true
  ∧ (∃ b, audioBuffers (pre afterInitial) !! 1 = Some b
          ∧ ∀ showPauseUI,
              getAudioBuffer 1 showPauseUI afterInitial = Done afterInitial b)
  ∧ (∃ w', run [EvLoad 1%nat (Rejected (HttpError 404)) 1%Q]
             (preloadInitial piSequence windowTwo)
           = Fail w' InitialLoadFailed).
Proof.
  assert (Hk : 0 ≤ bufferAhead (pre windowTwo))
    by (vm_compute; intro; discriminate).
  assert (Hrun : run [EvLoad 0%nat (Fulfilled (Decoded 3)) 1%Q;
                      EvLoad 1%nat (Fulfilled (Decoded 1)) 2%Q]
                   (preloadInitial piSequence windowTwo)
                 = Done afterInitial true)
    by (vm_compute; reflexivity).
  split; [exact Hk|]. split; [exact Hrun|]. split.
  - destruct (preloadInitial_loads_first_window piSequence windowTwo
                [EvLoad 0%nat (Fulfilled (Decoded 3)) 1%Q;
                 EvLoad 1%nat (Fulfilled (Decoded 1)) 2%Q] Hk)
      as (_ & _ & Hdone & _).
    apply (proj2 (proj2 (Hdone afterInitial true Hrun))).
    apply list_elem_of_lookup. exists 1%nat. reflexivity.
  - destruct (preloadInitial_loads_first_window piSequence windowTwo
                [EvLoad 1%nat (Rejected (HttpError 404)) 1%Q] Hk)
      as (_ & _ & _ & _ & Hrej & _).
    apply (Hrej 1%nat (HttpError 404)).
    + vm_compute. lia.
    + vm_compute. reflexivity.
Defined.

(** ** The pause flag over a whole experiment *)

Lemma hosted_same_config w w' : same_config w w' -> hosted w -> hosted w'.
Proof. intros (Hp & Hr & _) [H1 H2]. split; congruence. Qed.

Lemma calm_env w w' : env w w' -> calm w -> calm w'.
Proof.
  intros Henv (Hok & Hh & Hp & Hr).
  destruct (env_facts _ _ Henv) as (Hhost & Hcfg & Hok').
  split; [auto|]. split; [by eapply hosted_same_config|].
  rewrite Hhost. auto.
Qed.

Lemma calm_with_clock now w : calm w -> calm (with_clock now w).
Proof. intros H. exact H. Qed.

Lemma newExperiment_calm : calm newExperiment.
Proof.
  split; [apply newExperiment_inflight_ok|].
  split; [apply newExperiment_hosted|]. split; [reflexivity|constructor].
Qed.

Lemma ensureNextTrialReady_calm (sequence : list Z) (i : nat) (w : World) :
  calm w ->
  safe (fun w' _ => calm w') (fun _ _ => True)
       (ensureNextTrialReady sequence i w).
Proof.
  intros Hcalm. destruct (sequence !! i) as [id|] eqn:Hi.
  2: { unfold ensureNextTrialReady. rewrite Hi. by constructor. }
  destruct Hcalm as (Hok & Hh & Hp & Hr).
  eapply safe_weaken;
    [exact (ensureNextTrialReady_safe sequence i id w Hok Hi)| |auto].
  intros w' r (_ & _ & Hok' & Hcfg & Hhost).
  split; [assumption|]. split; [by eapply hosted_same_config|].
  rewrite Hhost. destruct (audioBuffers (pre w) !! id); [auto|].
  unfold resumeHost, pauseHost. destruct Hh as [-> ->]. simpl. auto.
Qed.

Lemma preloadAhead_calm (sequence : list Z) (i : Z) (w : World) :
  calm w -> calm (preloadAhead sequence i w).
Proof.
  intros (Hok & Hh & Hp & Hr). unfold preloadAhead.
  destruct (foldl_loadAudio_frame (toLoad sequence i w) w)
    as (Hhost & _ & _ & _ & _ & Hcfg & _ & Hok' & _).
  split; [auto|]. split; [by eapply hosted_same_config|].
  rewrite Hhost. auto.
Qed.

Lemma startTrial_calm (id : Z) (w : World) :
  calm w ->
  safe (fun w' _ => calm w') (fun _ _ => True) (startTrial id w).
Proof.
  intros (Hok & Hh & Hp & Hr).
  eapply safe_weaken; [exact (startTrial_safe id w Hok)| |auto].
  intros w' bt (_ & _ & Hok' & Hcfg & Hhost).
  split; [assumption|]. split; [by eapply hosted_same_config|].
  destruct Hhost as [-> | ->]; simpl; [auto|].
  unfold resumeHost, pauseHost. destruct Hh as [-> ->]. simpl. auto.
Qed.

Lemma runTrial_calm (id : Z) (w : World) :
  calm w ->
  safe (fun w' _ => calm w') (fun _ _ => True) (runTrial id w).
Proof.
  intros Hcalm. unfold runTrial.
  eapply safe_bind; [exact (startTrial_calm id w Hcalm)| |auto].
  intros w1 bt Hc1. constructor. intros w2 ok now Henv. constructor.
  apply calm_with_clock. by eapply calm_env.
Qed.

(** A trial records [wasPaused = false] and leaves the experiment calm. *)
Lemma trial_calm (sequence : list Z) (characters : list string) (i : nat)
    (stimId : Z) (w : World) :
  calm w ->
  safe (fun w' _ => calm w') (fun _ _ => True)
       (trial sequence characters i stimId w).
Proof.
  intros Hcalm. unfold trial.
  eapply safe_bind; [exact (ensureNextTrialReady_calm sequence i w Hcalm)| |auto].
  intros w1 r1 Hc1. cbv beta in Hc1.
  eapply safe_bind;
    [exact (runTrial_calm stimId _ (preloadAhead_calm sequence _ w1 Hc1))| |auto].
  intros w3 rt (Hok3 & Hh3 & Hp3 & Hr3).
  unfold submitTrialResult. constructor. intros w4 ok now Henv. simpl.
  set (t := mkTrialResult _ _ _ _ _ _) in *.
  assert (Hc4 : calm w4).
  { eapply calm_env; [exact Henv|].
    split; [exact Hok3|]. split; [exact Hh3|]. split; [exact Hp3|].
    simpl. apply Forall_app. split; [assumption|].
    constructor; [exact Hp3|constructor]. }
  assert (Hc5 : calm (if ok then with_clock now w4
                      else with_host (saveToLocalStorage t) (with_clock now w4))).
  { destruct ok; [exact Hc4|]. exact Hc4. }
  unfold sleep. constructor. intros w6 ok' now' Henv'. constructor.
  apply calm_with_clock. eapply calm_env; [exact Henv'|].
  destruct ((Z.of_nat i mod 10 =? 0) && (0 <? Z.of_nat i)); exact Hc5.
Qed.

Lemma trialsFrom_calm (sequence : list Z) (characters : list string)
    (n i : nat) (w : World) :
  calm w ->
  safe (fun w' _ => calm w') (fun _ _ => True)
       (trialsFrom sequence characters n i w).
Proof.
  revert i w. induction n as [|n IH]; intros i w Hcalm; simpl.
  { by constructor. }
  destruct (sequence !! i) as [stimId|]; [|by constructor].
  eapply safe_bind; [exact (trial_calm sequence characters i stimId w Hcalm)| |auto].
  intros w' r' Hc'. by apply IH.
Qed.

Lemma init_calm (sequence : list Z) (characters : list string) (w : World) :
  calm w ->
  safe (fun w' _ => calm w') (fun _ _ => True) (init sequence characters w).
Proof.
  intros (Hok & Hh & Hp & Hr). unfold init.
  eapply safe_bind; [exact (preloadInitial_safe sequence w)| |auto].
  intros w1 r (_ & _ & _ & Hhost & Hcfg & Hok1).
  assert (Hc1 : calm w1).
  { split; [auto|]. split; [by eapply hosted_same_config|].
    rewrite Hhost. auto. }
  constructor. intros w2 ok2 now2 Henv2.
  constructor. intros w3 ok3 now3 Henv3.
  assert (Hc3 : calm (with_clock now3 w3)).
  { apply calm_with_clock. eapply calm_env; [exact Henv3|].
    apply calm_with_clock. by eapply calm_env. }
  eapply safe_bind; [apply sleep_safe| |contradiction].
  intros w4 [] (w4' & now4 & Henv4 & ->).
  apply trialsFrom_calm. apply calm_with_clock. by eapply calm_env.
Qed.

(** In an experiment that ran to its end no result has the pause flag
    set, whichever trials had to wait. *)
Lemma completed_experiment_never_paused (sequence : list Z)
    (characters : list string) (evs : list Event) (w' : World) :
  run evs (init sequence characters newExperiment) = Done w' tt ->
  Forall (fun r => wasPaused r = false) (results (host w')).
Proof.
  intros Hrun.
  apply (safe_run_Done _ _ evs _ w' tt
           (init_calm sequence characters newExperiment newExperiment_calm))
    in Hrun.
  apply Hrun.
Qed.

(** * Further properties of the code *)

(** ** The store under [saveTrial] and [fetch] *)

Lemma has_session_elem (sid : string) (db : Backend.DB) :
  Backend.has_session sid db = true
  ↔ sid ∈ Backend.id <$> Backend.sessions db.
Proof.
  unfold Backend.has_session. rewrite existsb_exists, list_elem_of_fmap.
  split.
  - intros [s [Hin Hs]]. apply bool_decide_eq_true in Hs.
    exists s. split; [congruence|]. by apply list_elem_of_In.
  - intros [s [-> Hin]]. exists s. split; [by apply list_elem_of_In|].
    by apply bool_decide_eq_true.
Qed.

Lemma has_trial_elem (sid : string) (n : Z) (db : Backend.DB) :
  Backend.has_trial sid n db = true
  ↔ (sid, n) ∈ (fun r => (Backend.session_id r, Backend.trial_number r))
               <$> Backend.trials db.
Proof.
  unfold Backend.has_trial. rewrite existsb_exists, list_elem_of_fmap.
  unfold Backend.same_key. split.
  - intros [r [Hin Hr]]. apply andb_true_iff in Hr as [H1 H2].
    apply bool_decide_eq_true in H1. apply Z.eqb_eq in H2.
    exists r. split; [congruence|]. by apply list_elem_of_In.
  - intros [r [Heq Hin]]. injection Heq as -> ->.
    exists r. split; [by apply list_elem_of_In|].
    rewrite bool_decide_eq_true_2 by reflexivity. by rewrite Z.eqb_refl.
Qed.

Lemma update_last_trial_ids (sid : string) (ts : Backend.Field Z)
    (db : Backend.DB) :
  Backend.id <$> Backend.sessions (Backend.update_last_trial sid ts db)
  = Backend.id <$> Backend.sessions db.
Proof.
  unfold Backend.update_last_trial. simpl.
  induction (Backend.sessions db) as [|s l IH]; simpl; [reflexivity|].
  f_equal; [|exact IH]. by destruct (bool_decide _).
Qed.

(** What [INSERT OR IGNORE] does to [sessions]: nothing, or one row with
    the defaults of the schema at the end. *)
Lemma insert_or_ignore_session_cases (sid : string)
    (ua sr : Backend.Field string) (ts : Backend.Field Z) (db : Backend.DB) :
  let db0 := Backend.insert_or_ignore_session sid ua sr ts db in
  db0 = db
  ∨ (Backend.has_session sid db = false
     ∧ ∃ a b, ua = Backend.Value a ∧ sr = Backend.Value b
              ∧ db0 = Backend.mkDB
                        (Backend.sessions db ++
                           [Backend.mkSessionRow sid a b 0 (Backend.stored ts)
                              None None (Backend.current_timestamp db)])
                        (Backend.trials db) (Backend.next_trial_id db)
                        (Backend.current_timestamp db)).
Proof.
  unfold Backend.insert_or_ignore_session.
  destruct ua as [| |a], sr as [| |b]; try (by left).
  destruct (Backend.has_session sid db) eqn:Hs; [by left|].
  right. split; [reflexivity|]. by exists a, b.
Qed.

Lemma has_session_after_insert (sid : string) (ua sr : Backend.Field string)
    (ts : Backend.Field Z) (db : Backend.DB) :
  Backend.has_session sid (Backend.insert_or_ignore_session sid ua sr ts db)
  = true
  ↔ Backend.has_session sid db = true
    ∨ (is_Some (Backend.stored ua) ∧ is_Some (Backend.stored sr)).
Proof.
  destruct (insert_or_ignore_session_cases sid ua sr ts db)
    as [Heq|(Hs & a & b & -> & -> & Heq)].
  - rewrite Heq. split; [by left|].
    intros [H|[[a Ha] [b Hb]]]; [assumption|].
    destruct ua as [| |a'], sr as [| |b']; try discriminate.
    rewrite <- Heq. apply has_session_insert.
  - rewrite has_session_insert. split; [|reflexivity].
    intros _. right. simpl. eauto.
Qed.

Lemma insert_or_ignore_session_ok (sid : string)
    (ua sr : Backend.Field string) (ts : Backend.Field Z) (db : Backend.DB) :
  db_ok db -> db_ok (Backend.insert_or_ignore_session sid ua sr ts db).
Proof.
  intros Hok.
  destruct (insert_or_ignore_session_cases sid ua sr ts db)
    as [->|(Hhas & a & b & _ & _ & ->)]; [exact Hok|].
  destruct Hok as (Hs & Hk & Hi & Hlt & Hfk).
  unfold db_ok. simpl. rewrite fmap_app. simpl.
  split.
  - apply NoDup_app. split; [assumption|]. split; [|apply NoDup_singleton].
    intros x Hx Hx'. apply list_elem_of_singleton in Hx'. subst x.
    apply has_session_elem in Hx. congruence.
  - repeat split; try assumption.
    eapply Forall_impl; [exact Hfk|]. intros r Hr. simpl in Hr.
    apply elem_of_app. by left.
Qed.

Lemma insert_or_ignore_session_never_completed (sid : string)
    (ua sr : Backend.Field string) (ts : Backend.Field Z) (db : Backend.DB) :
  never_completed db ->
  never_completed (Backend.insert_or_ignore_session sid ua sr ts db).
Proof.
  intros Hn.
  destruct (insert_or_ignore_session_cases sid ua sr ts db)
    as [->|(_ & a & b & _ & _ & ->)]; [exact Hn|].
  unfold never_completed. simpl.
  apply Forall_app. split; [exact Hn|]. by repeat constructor.
Qed.

(** A trial all of whose bound properties have values. *)
Lemma bound_trial_Some (t : Backend.JsonTrial) (td : Backend.TrialData) :
  Backend.bound_trial t = Some td ->
  t = Backend.json_of_trial td.
Proof.
  destruct t as [[| |n] [| |s] [| |c] [| |rt] [| |ts] p]; simpl;
    try discriminate.
  intros [= <-]. reflexivity.
Qed.

Lemma bound_trial_json_of (td : Backend.TrialData) :
  Backend.bound_trial (Backend.json_of_trial td) = Some td.
Proof. destruct td. reflexivity. Qed.

(** The outcomes of [saveTrial] on any parsed body. *)
Lemma saveTrialJson_spec (sid : string) (ua sr : Backend.Field string)
    (t : Backend.JsonTrial) (now : string) (db : Backend.DB) :
  let db0 :=
    Backend.insert_or_ignore_session sid ua sr (Backend.json_timestamp t) db in
  match Backend.bound_trial t with
  | Some td =>
      Backend.saveTrialJson sid ua sr t now db =
        if negb (Backend.defined ua && Backend.defined sr) then
          (db, Some Backend.TypeError)
        else if Backend.has_trial sid (Backend.trialNumber td) db then
          (db0, Some Backend.UniqueConstraint)
        else if negb (Backend.has_session sid db0) then
          (db0, Some Backend.ForeignKeyConstraint)
        else
          (Backend.update_last_trial sid
             (Backend.Value (Backend.timestamp td))
             (Backend.mkDB (Backend.sessions db0)
                (Backend.trials db ++
                   [Backend.mkTrialRow (Backend.next_trial_id db) sid
                      (Backend.trialNumber td) (Backend.stimulusId td)
                      (Backend.character td) (Backend.reactionTime td)
                      (Backend.timestamp td)
                      (if Backend.wasPaused td then 1 else 0) now])
                (Backend.next_trial_id db + 1)
                (Backend.current_timestamp db)),
           None)
  | None =>
      ∃ e, (e = Backend.TypeError ∨ e = Backend.NotNullConstraint)
           ∧ (Backend.saveTrialJson sid ua sr t now db = (db, Some e)
              ∨ Backend.saveTrialJson sid ua sr t now db = (db0, Some e))
  end.
Proof.
  intros db0.
  destruct (Backend.bound_trial t) as [td|] eqn:Hb.
  - apply bound_trial_Some in Hb. subst t.
    unfold Backend.saveTrialJson.
    cbn [Backend.json_of_trial Backend.json_timestamp
         Backend.json_trialNumber Backend.json_stimulusId
         Backend.json_character Backend.json_reactionTime Backend.defined].
    rewrite !andb_true_r.
    destruct (negb (Backend.defined ua && Backend.defined sr));
      [reflexivity|].
    cbn [negb andb]. unfold Backend.insert_trial.
    rewrite bound_trial_json_of.
    destruct (insert_or_ignore_session_frame sid ua sr
                (Backend.Value (Backend.timestamp td)) db)
      as (Htr & Hnx & Hck).
    unfold db0.
    cbn [Backend.json_of_trial Backend.json_timestamp] in *.
    set (db1 := Backend.insert_or_ignore_session sid ua sr _ db) in *.
    assert (Ht : Backend.has_trial sid (Backend.trialNumber td) db1
                 = Backend.has_trial sid (Backend.trialNumber td) db).
    { unfold Backend.has_trial. by rewrite Htr. }
    rewrite Ht.
    destruct (Backend.has_trial sid (Backend.trialNumber td) db);
      [reflexivity|].
    destruct (Backend.has_session sid db1); simpl; [|reflexivity].
    rewrite Htr, Hnx, Hck. reflexivity.
  - unfold Backend.saveTrialJson. fold db0.
    destruct (negb (Backend.defined ua && Backend.defined sr
                    && Backend.defined (Backend.json_timestamp t))).
    { exists Backend.TypeError. auto. }
    destruct (negb (Backend.defined (Backend.json_trialNumber t)
                    && Backend.defined (Backend.json_stimulusId t)
                    && Backend.defined (Backend.json_character t)
                    && Backend.defined (Backend.json_reactionTime t))).
    { exists Backend.TypeError. auto. }
    unfold Backend.insert_trial. rewrite Hb.
    exists Backend.NotNullConstraint. auto.
Qed.

(** The store after a trial row has been added for a session that
    exists. *)
Lemma trial_added_ok (sid : string) (ts : Backend.Field Z)
    (row : Backend.TrialRow) (db db0 : Backend.DB) :
  db_ok db0 ->
  Backend.trials db0 = Backend.trials db ->
  Backend.next_trial_id db0 = Backend.next_trial_id db ->
  Backend.has_trial sid (Backend.trial_number row) db = false ->
  Backend.has_session sid db0 = true ->
  Backend.session_id row = sid ->
  Backend.trial_id row = Backend.next_trial_id db ->
  db_ok (Backend.update_last_trial sid ts
           (Backend.mkDB (Backend.sessions db0) (Backend.trials db ++ [row])
              (Backend.next_trial_id db + 1)
              (Backend.current_timestamp db))).
Proof.
  intros (Hs0 & Hk & Hi & Hlt & Hfk0) Htr Hnx Ht Hhas Hsid Hid.
  rewrite Htr in Hk, Hi, Hlt, Hfk0. rewrite Hnx in Hlt.
  unfold db_ok. rewrite update_last_trial_ids. simpl.
  rewrite !fmap_app. simpl.
  split; [exact Hs0|]. split; [|split; [|split]].
  - apply NoDup_app. split; [assumption|]. split; [|apply NoDup_singleton].
    intros x Hx Hx'. apply list_elem_of_singleton in Hx'. subst x.
    rewrite Hsid in Hx. apply has_trial_elem in Hx. congruence.
  - apply NoDup_app. split; [assumption|]. split; [|apply NoDup_singleton].
    intros x Hx Hx'. apply list_elem_of_singleton in Hx'. subst x.
    apply list_elem_of_fmap in Hx as [r [Hr Hin]].
    rewrite Forall_forall in Hlt. specialize (Hlt r Hin). lia.
  - apply Forall_app. split.
    + eapply Forall_impl; [exact Hlt|]. intros r Hr. simpl in *. lia.
    + constructor; [simpl; lia|constructor].
  - apply Forall_app. split; [exact Hfk0|].
    constructor; [|constructor]. simpl. rewrite Hsid.
    by apply has_session_elem.
Qed.

Lemma saveTrialJson_ok (sid : string) (ua sr : Backend.Field string)
    (t : Backend.JsonTrial) (now : string) (db : Backend.DB) :
  db_ok db -> db_ok (fst (Backend.saveTrialJson sid ua sr t now db)).
Proof.
  intros Hok.
  assert (Hok0 := insert_or_ignore_session_ok sid ua sr
                    (Backend.json_timestamp t) db Hok).
  assert (Hspec := saveTrialJson_spec sid ua sr t now db).
  destruct (insert_or_ignore_session_frame sid ua sr
              (Backend.json_timestamp t) db) as (Htr & Hnx & _).
  cbv zeta in Hspec.
  destruct (Backend.bound_trial t) as [td|].
  - rewrite Hspec.
    destruct (negb (Backend.defined ua && Backend.defined sr)); [exact Hok|].
    destruct (Backend.has_trial sid (Backend.trialNumber td) db) eqn:Ht;
      [exact Hok0|].
    destruct (Backend.has_session sid _) eqn:Hs; [|exact Hok0].
    cbn [negb fst]. by apply trial_added_ok.
  - destruct Hspec as (e & _ & [-> | ->]); assumption.
Qed.

Lemma saveTrial_ok (data : Backend.TrialSubmission) (now : string)
    (db : Backend.DB) :
  db_ok db -> db_ok (fst (Backend.saveTrial data now db)).
Proof. apply saveTrialJson_ok. Qed.

(** What a request can do to the store. *)
Lemma handleRequest_cases (assets : string -> option Z) (req : Request)
    (now : string) (db : Backend.DB) :
  fst (handleRequest assets req now db) = db
  ∨ ∃ sid ua sr t,
      fst (handleRequest assets req now db)
      = fst (Backend.saveTrialJson sid ua sr t now db).
Proof.
  unfold handleRequest.
  destruct (String.eqb (method req) "OPTIONS"); [by left|].
  destruct (String.eqb (method req) "GET" && _); [by left|].
  destruct (String.eqb (pathname req) "/api/trial" && _); [|by left].
  destruct (json req) as [body|]; [|by left].
  unfold Backend.postTrialJson.
  destruct (Backend.json_sessionId body) as [sid|]; [|by left].
  destruct (Backend.json_trial body) as [t|]; [|by left].
  destruct (bool_decide (sid = EmptyString)); [by left|].
  right.
  exists sid, (Backend.json_userAgent body),
    (Backend.json_screenResolution body), t.
  by destruct (Backend.saveTrialJson _ _ _ _ now db) as [db' [e|]].
Qed.

(** X1.  Whatever the request, the worker leaves the store consistent
    with its schema: session ids and [(session_id, trial_number)] pairs
    stay unique, trial ids stay unique and below the next id, and every
    trial still refers to a session. *)
Theorem handleRequest_keeps_schema (assets : string -> option Z)
    (req : Request) (now : string) (db : Backend.DB) :
  db_ok db -> db_ok (fst (handleRequest assets req now db)).
Proof.
  intros Hok.
  destruct (handleRequest_cases assets req now db)
    as [->|(sid & ua & sr & t & ->)]; [exact Hok|].
  by apply saveTrialJson_ok.
Qed.

Lemma emptyDB_ok : db_ok emptyDB.
Proof. repeat split; constructor. Qed.

Lemma handleRequest_keeps_schema_witness :
  db_ok emptyDB
  ∧ db_ok (fst (handleRequest (fun _ => None)
                  (mkRequest "POST" "/api/trial" (Some sampleJson))
                  "t1" emptyDB))
  ∧ length (Backend.trials
              (fst (handleRequest (fun _ => None)
                      (mkRequest "POST" "/api/trial" (Some sampleJson))
                      "t1" emptyDB))) = 1%nat.
Proof.
  split; [exact emptyDB_ok|]. split; [|reflexivity].
  apply handleRequest_keeps_schema. exact emptyDB_ok.
Defined.

Lemma saveTrialJson_trials (sid : string) (ua sr : Backend.Field string)
    (t : Backend.JsonTrial) (now : string) (db : Backend.DB) :
  Backend.trials db
    `prefix_of` Backend.trials (fst (Backend.saveTrialJson sid ua sr t now db)).
Proof.
  assert (Hspec := saveTrialJson_spec sid ua sr t now db).
  destruct (insert_or_ignore_session_frame sid ua sr
              (Backend.json_timestamp t) db) as (Htr & _ & _).
  cbv zeta in Hspec.
  destruct (Backend.bound_trial t) as [td|].
  - rewrite Hspec.
    destruct (negb (Backend.defined ua && Backend.defined sr)); [reflexivity|].
    destruct (Backend.has_trial sid (Backend.trialNumber td) db);
      [cbn [fst]; by rewrite Htr|].
    destruct (Backend.has_session sid _); [|cbn [negb fst]; by rewrite Htr].
    simpl. by apply prefix_app_r.
  - destruct Hspec as (e & _ & [-> | ->]);
      [reflexivity|cbn [fst]; by rewrite Htr].
Qed.

(** X2.  The worker writes to the store on one route only.  A request
    that is not a POST to [/api/trial] leaves the store as it is; a POST
    to any other path, [/api/complete] among them, is answered 404; and
    whatever the request, the rows of [trials] that were stored stay,
    in their order, at the head of the table. *)
Theorem handleRequest_writes_on_trial_only (assets : string -> option Z)
    (req : Request) (now : string) (db : Backend.DB) :
  (method req ≠ "POST" ∨ pathname req ≠ "/api/trial" ->
     fst (handleRequest assets req now db) = db)
  ∧ (method req = "POST" -> pathname req ≠ "/api/trial" ->
       handleRequest assets req now db = (db, 404))
  ∧ Backend.trials db
      `prefix_of` Backend.trials (fst (handleRequest assets req now db)).
Proof.
  split; [|split].
  - unfold handleRequest. intros Hnot.
    destruct (String.eqb (method req) "OPTIONS"); [reflexivity|].
    destruct (String.eqb (method req) "GET" && _); [reflexivity|].
    destruct (String.eqb_spec (pathname req) "/api/trial") as [Hp|Hp];
      [|reflexivity].
    destruct (String.eqb_spec (method req) "POST") as [Hm|Hm];
      [|reflexivity].
    destruct Hnot; contradiction.
  - unfold handleRequest. intros Hm Hp. rewrite Hm. simpl.
    destruct (String.eqb_spec (pathname req) "/api/trial") as [Hp'|Hp'];
      [contradiction|reflexivity].
  - destruct (handleRequest_cases assets req now db)
      as [->|(sid & ua & sr & t & ->)]; [reflexivity|].
    apply saveTrialJson_trials.
Qed.

Lemma handleRequest_writes_on_trial_only_witness :
  method completeRequest = "POST"
  ∧ pathname completeRequest ≠ "/api/trial"
  ∧ handleRequest (fun _ => Some 200) completeRequest "t1" emptyDB
    = (emptyDB, 404).
Proof.
  assert (Hm : method completeRequest = "POST") by reflexivity.
  assert (Hp : pathname completeRequest ≠ "/api/trial") by discriminate.
  split; [exact Hm|]. split; [exact Hp|].
  apply (handleRequest_writes_on_trial_only (fun _ => Some 200)
           completeRequest "t1" emptyDB); assumption.
Defined.

(** X3.  Nothing the worker does marks a session complete or counts its
    trials: if [total_trials] is 0 and [completed_at] is null in every
    session, they still are after any request. *)
Theorem handleRequest_never_completes (assets : string -> option Z)
    (req : Request) (now : string) (db : Backend.DB) :
  never_completed db ->
  never_completed (fst (handleRequest assets req now db)).
Proof.
  intros Hn.
  destruct (handleRequest_cases assets req now db)
    as [->|(sid & ua & sr & t & ->)]; [exact Hn|].
  assert (Hn0 := insert_or_ignore_session_never_completed sid ua sr
                   (Backend.json_timestamp t) db Hn).
  assert (Hspec := saveTrialJson_spec sid ua sr t now db).
  cbv zeta in Hspec.
  destruct (Backend.bound_trial t) as [td|].
  - rewrite Hspec.
    destruct (negb (Backend.defined ua && Backend.defined sr)); [exact Hn|].
    destruct (Backend.has_trial sid (Backend.trialNumber td) db);
      [exact Hn0|].
    destruct (Backend.has_session sid _); [|exact Hn0].
    unfold never_completed, Backend.update_last_trial in *. simpl.
    apply Forall_fmap. eapply Forall_impl; [exact Hn0|].
    intros s Hs. simpl. by destruct (bool_decide _).
  - destruct Hspec as (e & _ & [-> | ->]); assumption.
Qed.

Lemma handleRequest_never_completes_witness :
  never_completed emptyDB
  ∧ never_completed
      (fst (handleRequest (fun _ => None)
              (mkRequest "POST" "/api/trial" (Some sampleJson))
              "t1" emptyDB))
  ∧ length (Backend.sessions
              (fst (handleRequest (fun _ => None)
                      (mkRequest "POST" "/api/trial" (Some sampleJson))
                      "t1" emptyDB))) = 1%nat.
Proof.
  assert (H0 : never_completed emptyDB) by constructor.
  split; [exact H0|]. split; [|reflexivity].
  by apply handleRequest_never_completes.
Defined.

(** X4.  Against this worker [markExperimentComplete] never cleans up:
    the POST to [/api/complete] is answered 404 whatever the store and
    the assets, the response is not ok, and the host, with the trials
    kept in [localStorage], is as it was.  In general the function
    changes nothing but [localStorage], and that only for a status from
    200 to 299. *)
Theorem markExperimentComplete_keeps_saved_trials
    (assets : string -> option Z) (now : string) (db : Backend.DB)
    (answer : option Z) (h : Host) :
  markExperimentComplete
    (Some (snd (handleRequest assets completeRequest now db))) h = h
  ∧ fst (handleRequest assets completeRequest now db) = db
  ∧ results (markExperimentComplete answer h) = results h
  ∧ (localStorage (markExperimentComplete answer h) = localStorage h
     ∨ (localStorage (markExperimentComplete answer h) = ∅
        ∧ ∃ st, answer = Some st ∧ 200 ≤ st ≤ 299)).
Proof.
  split; [reflexivity|]. split; [reflexivity|]. split.
  - destruct answer as [st|]; [|reflexivity]. simpl.
    by destruct (statusOk st).
  - destruct answer as [st|]; [|by left]. simpl.
    destruct (statusOk st) eqn:Hst; [|by left].
    right. split; [reflexivity|]. exists st. split; [reflexivity|].
    unfold statusOk in Hst. apply andb_true_iff in Hst as [H1 H2].
    apply Z.leb_le in H1, H2. lia.
Qed.

Lemma rows_for_app_other (sid : string) (n : Z) (rows : list Backend.TrialRow)
    (r : Backend.TrialRow) :
  (Backend.session_id r, Backend.trial_number r) ≠ (sid, n) ->
  List.filter (Backend.same_key sid n) (rows ++ [r])
  = List.filter (Backend.same_key sid n) rows.
Proof.
  intros Hne. rewrite List.filter_app. simpl.
  replace (Backend.same_key sid n r) with false; [apply app_nil_r|].
  symmetry. apply not_true_is_false. intros Hk. apply Hne.
  unfold Backend.same_key in Hk. apply andb_true_iff in Hk as [H1 H2].
  apply bool_decide_eq_true in H1. apply Z.eqb_eq in H2. congruence.
Qed.

(** X5.  When [saveTrial] succeeds.  On the body as parsed, where any
    property may be absent or null: it succeeds exactly when every
    property the trial insert binds has a value, the user agent and the
    screen resolution are not absent, no row with the key [(sessionId,
    trialNumber)] is stored, and the session exists or can be inserted;
    so a trial without its character is answered with an error also
    when its key is new.  When it succeeds the key has one row, built
    from the submission with the next trial id, and the rows of every
    other key are as before.  When it fails no trial row is added, and
    the store is as before or has the one new session row that the first
    statement inserted.  On a submission of the declared type it
    succeeds exactly when the key is new, the only error is the [UNIQUE]
    violation, and a failure leaves a store that is consistent with its
    schema unchanged. *)
Theorem saveTrial_succeeds_iff_key_is_new (sid : string)
    (ua sr : Backend.Field string) (t : Backend.JsonTrial)
    (data : Backend.TrialSubmission) (now : string) (db : Backend.DB) :
  let r := Backend.saveTrialJson sid ua sr t now db in
  let typed := Backend.saveTrial data now db in
  (snd r = None
   ↔ ∃ td, Backend.bound_trial t = Some td
           ∧ Backend.defined ua = true ∧ Backend.defined sr = true
           ∧ Backend.has_trial sid (Backend.trialNumber td) db = false
           ∧ (Backend.has_session sid db = true
              ∨ (is_Some (Backend.stored ua) ∧ is_Some (Backend.stored sr))))
  ∧ (∀ td, Backend.bound_trial t = Some td -> snd r = None ->
       Backend.rows_for sid (Backend.trialNumber td) (fst r)
       = [Backend.mkTrialRow (Backend.next_trial_id db) sid
            (Backend.trialNumber td) (Backend.stimulusId td)
            (Backend.character td) (Backend.reactionTime td)
            (Backend.timestamp td)
            (if Backend.wasPaused td then 1 else 0) now]
       ∧ ∀ sid' n', (sid', n') ≠ (sid, Backend.trialNumber td) ->
           Backend.rows_for sid' n' (fst r) = Backend.rows_for sid' n' db)
  ∧ (∀ e, snd r = Some e ->
       Backend.trials (fst r) = Backend.trials db
       ∧ Backend.next_trial_id (fst r) = Backend.next_trial_id db
       ∧ (fst r = db
          ∨ (Backend.has_session sid db = false
             ∧ ∃ a b, ua = Backend.Value a ∧ sr = Backend.Value b
                      ∧ Backend.sessions (fst r)
                        = Backend.sessions db ++
                            [Backend.mkSessionRow sid a b 0
                               (Backend.stored (Backend.json_timestamp t))
                               None None (Backend.current_timestamp db)])))
  ∧ (snd typed = None
     ↔ Backend.has_trial (Backend.sessionId data)
         (Backend.trialNumber (Backend.trial data)) db = false)
  ∧ (∀ e, snd typed = Some e ->
       e = Backend.UniqueConstraint ∧ (db_ok db -> fst typed = db)).
Proof.
  intros r typed.
  assert (Hspec := saveTrialJson_spec sid ua sr t now db).
  destruct (insert_or_ignore_session_frame sid ua sr
              (Backend.json_timestamp t) db) as (Htr & Hnx & _).
  assert (Hhas := has_session_after_insert sid ua sr
                    (Backend.json_timestamp t) db).
  assert (Hios := insert_or_ignore_session_cases sid ua sr
                    (Backend.json_timestamp t) db).
  cbv zeta in Hspec, Htr, Hnx, Hios.
  set (db0 := Backend.insert_or_ignore_session sid ua sr
                (Backend.json_timestamp t) db) in *.
  fold r in Hspec.
  assert (Hfail0 : ∀ e, r = (db0, Some e) ->
            Backend.trials (fst r) = Backend.trials db
            ∧ Backend.next_trial_id (fst r) = Backend.next_trial_id db
            ∧ (fst r = db
               ∨ (Backend.has_session sid db = false
                  ∧ ∃ a b, ua = Backend.Value a ∧ sr = Backend.Value b
                           ∧ Backend.sessions (fst r)
                             = Backend.sessions db ++
                                 [Backend.mkSessionRow sid a b 0
                                    (Backend.stored (Backend.json_timestamp t))
                                    None None
                                    (Backend.current_timestamp db)]))).
  { intros e ->. cbn [fst]. split; [exact Htr|]. split; [exact Hnx|].
    destruct Hios as [Heq|(Hs & a & b & Ha & Hb & Heq)]; [by left|].
    right. split; [exact Hs|]. exists a, b. rewrite Heq. auto. }
  split; [|split; [|split; [|split]]].
  - destruct (Backend.bound_trial t) as [td|].
    + rewrite Hspec. split.
      * destruct (Backend.defined ua), (Backend.defined sr);
          cbn [andb negb]; try discriminate.
        destruct (Backend.has_trial sid (Backend.trialNumber td) db) eqn:Ht;
          [discriminate|].
        destruct (Backend.has_session sid db0) eqn:Hs; [|discriminate].
        intros _. exists td. split; [reflexivity|]. split; [reflexivity|].
        split; [reflexivity|]. split; [exact Ht|]. by apply Hhas.
      * intros (td' & [= <-] & -> & -> & -> & Hsess).
        apply Hhas in Hsess. fold db0 in Hsess. rewrite Hsess. reflexivity.
    + destruct Hspec as (e & _ & [-> | ->]); (split; [discriminate|]);
        intros (td & Hd & _); discriminate.
  - intros td Hb Hnone. rewrite Hb in Hspec. rewrite Hspec in Hnone |- *.
    destruct (negb (Backend.defined ua && Backend.defined sr));
      [discriminate|].
    destruct (Backend.has_trial sid (Backend.trialNumber td) db) eqn:Ht;
      [discriminate|].
    destruct (Backend.has_session sid db0); [|discriminate].
    cbn [negb fst]. unfold Backend.rows_for. simpl. split.
    + rewrite List.filter_app. simpl.
      unfold Backend.has_trial in Ht. rewrite (existsb_false_filter _ _ Ht).
      unfold Backend.same_key at 1. simpl.
      rewrite bool_decide_eq_true_2 by reflexivity. rewrite Z.eqb_refl.
      reflexivity.
    + intros sid' n' Hne. apply rows_for_app_other. simpl. congruence.
  - intros e He.
    destruct (Backend.bound_trial t) as [td|].
    + rewrite Hspec in He |- *.
      destruct (negb (Backend.defined ua && Backend.defined sr)).
      { cbn [fst]. auto. }
      destruct (Backend.has_trial sid (Backend.trialNumber td) db).
      { rewrite <- Hspec. by apply (Hfail0 Backend.UniqueConstraint). }
      destruct (Backend.has_session sid db0); [discriminate|].
      rewrite <- Hspec. cbn [negb] in Hspec.
      by apply (Hfail0 Backend.ForeignKeyConstraint).
    + destruct Hspec as (e' & _ & [Hr | Hr]).
      * rewrite Hr. cbn [fst]. auto.
      * by apply (Hfail0 e').
  - unfold typed. rewrite saveTrial_cases.
    destruct (Backend.has_trial _ _ db); split; try reflexivity; discriminate.
  - intros e. unfold typed. rewrite saveTrial_cases.
    destruct (Backend.has_trial (Backend.sessionId data)
                (Backend.trialNumber (Backend.trial data)) db) eqn:Ht;
      [|discriminate].
    intros [= <-]. split; [reflexivity|].
    intros (_ & _ & _ & _ & Hfk). cbn [fst].
    unfold Backend.insert_or_ignore_session.
    destruct (Backend.has_session (Backend.sessionId data) db) eqn:Hs;
      [reflexivity|].
    exfalso. apply has_trial_elem in Ht.
    apply list_elem_of_fmap in Ht as [row [Hr Hin]].
    rewrite Forall_forall in Hfk. specialize (Hfk row Hin).
    injection Hr as Hr1 Hr2. rewrite <- Hr1 in Hfk.
    apply has_session_elem in Hfk. congruence.
Qed.

Lemma saveTrial_succeeds_iff_key_is_new_witness :
  let noCharacter :=
    Backend.mkJsonTrial (Backend.Value 1) (Backend.Value 7) Backend.Undefined
      (Backend.Value 350%Q) (Backend.Value 1000) false in
  let r :=
    Backend.saveTrialJson "session-1" (Backend.Value "agent")
      (Backend.Value "1920x1080") noCharacter "t1" emptyDB in
  let db1 := fst (Backend.saveTrial sampleSubmission "t1" emptyDB) in
  snd r = Some Backend.TypeError
  ∧ Backend.trials (fst r) = []
  ∧ length (Backend.sessions (fst r)) = 1%nat
  ∧ snd (Backend.saveTrial sampleSubmission "t1" emptyDB) = None
  ∧ length (Backend.rows_for "session-1" 1 db1) = 1%nat
  ∧ snd (Backend.saveTrial sampleSubmission "t2" db1)
    = Some Backend.UniqueConstraint
  ∧ db_ok db1
  ∧ fst (Backend.saveTrial sampleSubmission "t2" db1) = db1.
Proof.
  intros noCharacter r db1.
  destruct (saveTrial_succeeds_iff_key_is_new "session-1"
              (Backend.Value "agent") (Backend.Value "1920x1080") noCharacter
              sampleSubmission "t1" emptyDB)
    as (_ & _ & Hfail & Hiff & _).
  destruct (saveTrial_succeeds_iff_key_is_new "session-1"
              (Backend.Value "agent") (Backend.Value "1920x1080")
              (Backend.json_of_trial (Backend.trial sampleSubmission))
              sampleSubmission "t1" emptyDB)
    as (_ & Hrow & _).
  destruct (saveTrial_succeeds_iff_key_is_new "session-1"
              (Backend.Value "agent") (Backend.Value "1920x1080") noCharacter
              sampleSubmission "t2" db1)
    as (_ & _ & _ & _ & Hunique).
  assert (Hr : snd r = Some Backend.TypeError) by reflexivity.
  assert (H1 : snd (Backend.saveTrial sampleSubmission "t1" emptyDB) = None)
    by (apply Hiff; reflexivity).
  assert (H2 : snd (Backend.saveTrial sampleSubmission "t2" db1)
               = Some Backend.UniqueConstraint) by reflexivity.
  assert (Hok : db_ok db1) by (apply saveTrial_ok, emptyDB_ok).
  split; [exact Hr|].
  split; [exact (proj1 (Hfail _ Hr))|].
  split; [reflexivity|].
  split; [exact H1|].
  split.
  { destruct (Hrow (Backend.trial sampleSubmission)
                (bound_trial_json_of _) H1) as [Hrows _].
    change (length (Backend.rows_for "session-1"
                      (Backend.trialNumber (Backend.trial sampleSubmission))
                      (fst (Backend.saveTrialJson "session-1"
                              (Backend.Value "agent")
                              (Backend.Value "1920x1080")
                              (Backend.json_of_trial
                                 (Backend.trial sampleSubmission))
                              "t1" emptyDB))) = 1%nat).
    rewrite Hrows. reflexivity. }
  split; [exact H2|]. split; [exact Hok|].
  exact (proj2 (Hunique _ H2) Hok).
Defined.

Lemma session_of_None (sid : string) (db : Backend.DB) :
  Backend.has_session sid db = false ↔ session_of sid db = None.
Proof.
  unfold Backend.has_session, session_of.
  induction (Backend.sessions db) as [|s l IH]; simpl; [tauto|].
  destruct (bool_decide (Backend.id s = sid)); simpl; [|exact IH].
  split; discriminate.
Qed.

Lemma session_of_id (sid : string) (db : Backend.DB) (s : Backend.SessionRow) :
  session_of sid db = Some s -> Backend.id s = sid.
Proof.
  unfold session_of. intros H. apply find_some in H as [_ H].
  by apply bool_decide_eq_true in H.
Qed.

Lemma session_of_insert (sid sid' ua sr : string) (ts : Backend.Field Z)
    (db : Backend.DB) :
  session_of sid
    (Backend.insert_or_ignore_session sid' (Backend.Value ua)
       (Backend.Value sr) ts db) =
    match session_of sid db with
    | Some s => Some s
    | None =>
        if bool_decide (sid' = sid)
        then Some (Backend.mkSessionRow sid' ua sr 0 (Backend.stored ts)
                     None None (Backend.current_timestamp db))
        else None
    end.
Proof.
  unfold Backend.insert_or_ignore_session.
  destruct (Backend.has_session sid' db) eqn:Hs.
  - destruct (session_of sid db) eqn:Hf; [reflexivity|].
    case_bool_decide as Heq; [|reflexivity]. subst sid.
    apply session_of_None in Hf. congruence.
  - unfold session_of. simpl.
    induction (Backend.sessions db) as [|s l IH]; simpl.
    + reflexivity.
    + destruct (bool_decide (Backend.id s = sid)); [reflexivity|exact IH].
Qed.

Lemma session_of_update (sid sid' : string) (ts : Backend.Field Z)
    (db : Backend.DB) :
  session_of sid (Backend.update_last_trial sid' ts db) =
    (fun s =>
       if bool_decide (Backend.id s = sid') then
         Backend.mkSessionRow (Backend.id s) (Backend.user_agent s)
           (Backend.screen_resolution s) (Backend.total_trials s)
           (Backend.first_trial_at s) (Backend.stored ts)
           (Backend.completed_at s) (Backend.created_at s)
       else s) <$> session_of sid db.
Proof.
  unfold session_of, Backend.update_last_trial. simpl.
  induction (Backend.sessions db) as [|s l IH]; simpl; [reflexivity|].
  destruct (bool_decide (Backend.id s = sid')) eqn:H1;
    simpl; destruct (bool_decide (Backend.id s = sid)) eqn:H2; simpl;
    rewrite ?H1; try reflexivity; exact IH.
Qed.

(** X6.  What a saved trial does to the sessions.  The session of the
    trial exists afterwards; its [last_trial_at] is the timestamp of
    this trial, whether or not that is later than the one before.  If
    the session existed, its user agent, screen resolution,
    [first_trial_at] and [created_at] are what they were, and a later
    submission with other values does not change them.  If it did not,
    the three are those of this submission, and [created_at] is the
    column's default, the database's [CURRENT_TIMESTAMP]: the worker
    binds no value for it, and the time it writes to [saved_at] is not
    used here.  Every other session is as before. *)
Theorem saveTrial_session_record (data : Backend.TrialSubmission)
    (now : string) (db db' : Backend.DB) :
  Backend.saveTrial data now db = (db', None) ->
  (∃ s', session_of (Backend.sessionId data) db' = Some s'
         ∧ Backend.last_trial_at s'
           = Some (Backend.timestamp (Backend.trial data))
         ∧ match session_of (Backend.sessionId data) db with
           | Some s =>
               Backend.first_trial_at s' = Backend.first_trial_at s
               ∧ Backend.user_agent s' = Backend.user_agent s
               ∧ Backend.screen_resolution s' = Backend.screen_resolution s
               ∧ Backend.created_at s' = Backend.created_at s
           | None =>
               Backend.first_trial_at s'
               = Some (Backend.timestamp (Backend.trial data))
               ∧ Backend.user_agent s' = Backend.userAgent data
               ∧ Backend.screen_resolution s' = Backend.screenResolution data
               ∧ Backend.created_at s' = Backend.current_timestamp db
           end)
  ∧ (∀ sid, sid ≠ Backend.sessionId data ->
       session_of sid db' = session_of sid db).
Proof.
  intros Hsave. rewrite saveTrial_cases in Hsave.
  destruct (Backend.has_trial _ _ db); [discriminate|].
  injection Hsave as <-.
  set (db0 := Backend.insert_or_ignore_session (Backend.sessionId data)
                (Backend.Value (Backend.userAgent data))
                (Backend.Value (Backend.screenResolution data))
                (Backend.Value (Backend.timestamp (Backend.trial data))) db).
  assert (Hsess : ∀ sid,
            session_of sid
              (Backend.mkDB (Backend.sessions db0)
                 (Backend.trials db ++
                    [Backend.mkTrialRow (Backend.next_trial_id db)
                       (Backend.sessionId data)
                       (Backend.trialNumber (Backend.trial data))
                       (Backend.stimulusId (Backend.trial data))
                       (Backend.character (Backend.trial data))
                       (Backend.reactionTime (Backend.trial data))
                       (Backend.timestamp (Backend.trial data))
                       (if Backend.wasPaused (Backend.trial data)
                        then 1 else 0) now])
                 (Backend.next_trial_id db + 1)
                 (Backend.current_timestamp db))
            = session_of sid db0) by reflexivity.
  split.
  - rewrite session_of_update, Hsess. unfold db0.
    rewrite session_of_insert.
    destruct (session_of (Backend.sessionId data) db) as [s|] eqn:Hs.
    + simpl. rewrite bool_decide_eq_true_2 by (by eapply session_of_id).
      eexists. split; [reflexivity|]. simpl. auto.
    + rewrite bool_decide_eq_true_2 by reflexivity. simpl.
      rewrite bool_decide_eq_true_2 by reflexivity.
      eexists. split; [reflexivity|]. simpl. auto.
  - intros sid Hne. rewrite session_of_update, Hsess. unfold db0.
    rewrite session_of_insert.
    destruct (session_of sid db) as [s|] eqn:Hs; simpl.
    + rewrite bool_decide_eq_false_2; [reflexivity|].
      rewrite (session_of_id _ _ _ Hs). exact Hne.
    + rewrite bool_decide_eq_false_2 by congruence. reflexivity.
Qed.

Lemma saveTrial_session_record_witness :
  let later :=
    Backend.mkTrialSubmission "session-1" "other agent" "800x600"
      (Backend.mkTrialData 2 9 "nine" 410%Q 900 true) in
  let db1 := fst (Backend.saveTrial sampleSubmission "t1" emptyDB) in
  let db2 := fst (Backend.saveTrial later "t2" db1) in
  Backend.saveTrial later "t2" db1 = (db2, None)
  ∧ (∃ s, session_of "session-1" db2 = Some s
          ∧ Backend.last_trial_at s = Some 900
          ∧ Backend.first_trial_at s = Some 1000
          ∧ Backend.user_agent s = "agent")
  ∧ ∃ s, session_of "session-1" db1 = Some s
         ∧ Backend.created_at s = "2025-01-01 00:00:00".
Proof.
  intros later db1 db2.
  assert (H : Backend.saveTrial later "t2" db1 = (db2, None)) by reflexivity.
  assert (H0 : Backend.saveTrial sampleSubmission "t1" emptyDB = (db1, None))
    by reflexivity.
  split; [exact H|]. split.
  - destruct (saveTrial_session_record later "t2" db1 db2 H)
      as ((s & Hs & Hlast & Hfirst) & _).
    exists s. split; [exact Hs|]. split; [exact Hlast|].
    change (session_of (Backend.sessionId later) db1)
      with (Some (Backend.mkSessionRow "session-1" "agent" "1920x1080" 0
                    (Some 1000) (Some 1000) None "2025-01-01 00:00:00"))
      in Hfirst.
    destruct Hfirst as (-> & -> & _). split; reflexivity.
  - destruct (saveTrial_session_record sampleSubmission "t1" emptyDB db1 H0)
      as ((s & Hs & _ & Hnew) & _).
    exists s. split; [exact Hs|].
    change (session_of (Backend.sessionId sampleSubmission) emptyDB)
      with (@None Backend.SessionRow) in Hnew.
    destruct Hnew as (_ & _ & _ & ->). reflexivity.
Defined.

(** ** [shuffle] *)

(** A double below 1 is at most [1 - 2 ^ -53]. *)
Lemma below_one (m E : Z) :
  0 ≤ m < 2 ^ 53 -> 0 < E -> m < 2 ^ E ->
  m * 2 ^ 53 ≤ (2 ^ 53 - 1) * 2 ^ E.
Proof.
  intros Hm HE Hlt.
  assert (Hpos : 0 < 2 ^ E) by (apply Z.pow_pos_nonneg; lia).
  destruct (Z_le_gt_dec E 53) as [Hle|Hgt].
  - assert (2 ^ E ≤ 2 ^ 53) by (apply Z.pow_le_mono_r; lia).
    nia.
  - assert (2 ^ 54 ≤ 2 ^ E) by (apply Z.pow_le_mono_r; lia).
    nia.
Qed.

(** The rounded product of a double below 1 and an integer [n] of at
    most 53 bits stays below [n]: the exact product is at least half a
    unit in the last place away from [n]. *)
Lemma roundToDouble_below (m n E : Z) :
  0 < m < 2 ^ 53 -> 0 < E -> m < 2 ^ E -> 1 ≤ n ≤ 2 ^ 53 ->
  floorDouble (roundToDouble (m * n) (- E)) < n.
Proof.
  intros Hm HE Hlt Hn.
  assert (HpE : 0 < 2 ^ E) by (apply Z.pow_pos_nonneg; lia).
  assert (HM : 0 < m * n) by nia.
  assert (HMlt : m * n < n * 2 ^ E) by nia.
  unfold roundToDouble, floorDouble.
  destruct (Z.leb_spec (Z.log2 (m * n) + 1 - 53) 0) as [Hd|Hd];
    cbn [mantissa exponent].
  { rewrite Z.shiftl_div_pow2 by lia. rewrite Z.opp_involutive.
    apply Z.div_lt_upper_bound; lia. }
  set (M := m * n) in *.
  destruct (Z.log2_spec M HM) as [HL1 HL2].
  set (L := Z.log2 M) in *.
  set (d := L + 1 - 53) in *.
  assert (HdE : d ≤ E).
  { assert (H : 2 ^ L < 2 ^ (E + 53)).
    { rewrite Z.pow_add_r by lia. nia. }
    apply Z.pow_lt_mono_r_iff in H; lia. }
  assert (HD : 0 < 2 ^ d) by (apply Z.pow_pos_nonneg; lia).
  assert (HK : 0 < 2 ^ (E - d)) by (apply Z.pow_pos_nonneg; lia).
  assert (HEKD : 2 ^ E = 2 ^ (E - d) * 2 ^ d).
  { rewrite <- Z.pow_add_r by lia. f_equal. lia. }
  assert (HLD : 2 ^ L = 2 ^ 52 * 2 ^ d).
  { rewrite <- Z.pow_add_r by lia. f_equal. lia. }
  assert (Hhalf : 2 ^ d = 2 * 2 ^ (d - 1)).
  { rewrite <- (Z.pow_succ_r 2) by lia. f_equal. lia. }
  assert (F1 := below_one m E ltac:(lia) HE Hlt).
  rewrite Z.shiftr_div_pow2 by lia.
  assert (Hdm := Z.div_mod M (2 ^ d) ltac:(lia)).
  assert (Hrest := Z.mod_pos_bound M (2 ^ d) HD).
  set (q := M / 2 ^ d) in *. set (rest := M mod 2 ^ d) in *.
  set (D := 2 ^ d) in *. set (K := 2 ^ (E - d)) in *.
  set (half := 2 ^ (d - 1)) in *.
  assert (F2 : M * 2 ^ 53 ≤ (2 ^ 53 - 1) * (n * K * D)).
  { unfold M. rewrite HEKD in F1. nia. }
  assert (Hq52 : 2 ^ 52 ≤ q) by nia.
  assert (Hqnu : q < n * K) by nia.
  replace (- E + d) with (- (E - d)) by lia.
  rewrite Z.shiftl_div_pow2 by lia. rewrite Z.opp_involutive. fold K.
  apply Z.div_lt_upper_bound; [exact HK|].
  rewrite (Z.mul_comm K n).
  destruct (Z_lt_le_dec (q + 1) (n * K)) as [Hlt2|Hge2].
  { repeat match goal with
           | |- context [if ?b then _ else _] => destruct b
           end; lia. }
  assert (Hnu : n * K = q + 1) by lia.
  assert (Hr : rest < half).
  { rewrite Hnu in F2. nia. }
  destruct (Z.ltb_spec rest half); lia.
Qed.

Lemma randomIndex_range (r : Double) (i : nat) :
  isDouble r -> floorDouble r = 0 -> Z.of_nat (i + 1) ≤ 2 ^ 53 ->
  (randomIndex r i ≤ i)%nat.
Proof.
  intros [Hm _] Hfl Hn. unfold randomIndex.
  enough (floorDouble (timesInt r (Z.of_nat (i + 1))) < Z.of_nat (i + 1))
    by lia.
  destruct r as [m e]. unfold timesInt. cbn [mantissa exponent] in *.
  unfold floorDouble in Hfl. cbn [mantissa exponent] in Hfl.
  destruct (Z.eq_dec m 0) as [->|Hm0].
  { rewrite Z.mul_0_l. unfold roundToDouble, floorDouble. simpl.
    rewrite Z.shiftl_0_l. lia. }
  assert (He : e < 0).
  { destruct (Z_lt_le_dec e 0) as [He|He]; [exact He|].
    rewrite Z.shiftl_mul_pow2 in Hfl by lia.
    assert (0 < 2 ^ e) by (apply Z.pow_pos_nonneg; lia). nia. }
  rewrite Z.shiftl_div_pow2 in Hfl by lia.
  assert (Hp : 0 < 2 ^ (- e)) by (apply Z.pow_pos_nonneg; lia).
  apply Z.div_small_iff in Hfl; [|lia].
  replace e with (- (- e)) at 1 by lia.
  apply roundToDouble_below; lia.
Qed.

Lemma swap_Permutation {A : Type} (l l' : list A) (i j : nat) :
  swap l i j = Some l' -> l' ≡ₚ l ∧ length l' = length l.
Proof.
  unfold swap. destruct (l !! i) as [x|] eqn:Hi; [|discriminate].
  destruct (l !! j) as [y|] eqn:Hj; [|discriminate].
  intros H. injection H as <-. split.
  - by apply Permutation_insert_swap.
  - by rewrite !length_insert.
Qed.

Lemma shuffleFrom_Permutation {A : Type} (random : nat -> Double)
    (call i : nat) (l : list A) :
  (∀ n, isDouble (random n) ∧ floorDouble (random n) = 0) ->
  Z.of_nat (length l) ≤ 2 ^ 53 ->
  (i < length l)%nat ∨ i = 0%nat ->
  ∃ l', shuffleFrom random call i l = Some l'
        ∧ l' ≡ₚ l ∧ length l' = length l.
Proof.
  intros Hr. revert call l.
  induction i as [|i IH]; intros call l Hlen Hi; simpl.
  { exists l. auto. }
  destruct Hi as [Hi|Hi]; [|discriminate].
  assert (Hj := randomIndex_range (random call) (S i)
                  (proj1 (Hr call)) (proj2 (Hr call)) ltac:(lia)).
  destruct (lookup_lt_is_Some_2 l (S i) Hi) as [x Hx].
  destruct (lookup_lt_is_Some_2 l (randomIndex (random call) (S i))) as [y Hy];
    [lia|].
  assert (Hsw : swap l (S i) (randomIndex (random call) (S i))
                = Some (<[randomIndex (random call) (S i) := x]>
                          (<[S i := y]> l))).
  { unfold swap. by rewrite Hx, Hy. }
  rewrite Hsw. destruct (swap_Permutation _ _ _ _ Hsw) as [Hp Hl].
  destruct (IH (S call) (<[randomIndex (random call) (S i) := x]>
                           (<[S i := y]> l))) as (l' & Hs & Hp' & Hl').
  { rewrite Hl. exact Hlen. }
  { left. rewrite Hl. lia. }
  exists l'. split; [exact Hs|]. split; [by rewrite Hp'|congruence].
Qed.

Lemma stimulusIds_identity : stimulusIds = identitySequence.
Proof. reflexivity. Qed.

(** X7.  [Math.floor(Math.random() * (i + 1))], computed in double
    precision with the product rounded to nearest, is an index from 0 to
    [i] for every double [Math.random()] can return (one in [[0, 1)]) and
    every [i] an array has; the rounded product can reach the next
    integer above the exact one, but never [i + 1].  So [shuffle] only
    swaps positions of the array, and what it returns is a permutation
    of its argument; the sequence [init] draws holds each of the stimuli
    1 to 75 exactly once. *)
Theorem shuffle_is_permutation (random : nat -> Double) :
  (∀ n, isDouble (random n) ∧ floorDouble (random n) = 0) ->
  (∀ (n i : nat), Z.of_nat (i + 1) ≤ 2 ^ 53 ->
      (randomIndex (random n) i ≤ i)%nat)
  ∧ (∀ (array : list Z), Z.of_nat (length array) ≤ 2 ^ 53 ->
      ∃ shuffled, shuffle random array = Some shuffled ∧ shuffled ≡ₚ array)
  ∧ ∃ sequence, shuffle random stimulusIds = Some sequence
       ∧ NoDup sequence ∧ length sequence = 75%nat
       ∧ ∀ id, id ∈ sequence ↔ 1 ≤ id ≤ 75.
Proof.
  intros Hr.
  assert (Hgen : ∀ (array : list Z), Z.of_nat (length array) ≤ 2 ^ 53 ->
            ∃ shuffled,
              shuffle random array = Some shuffled ∧ shuffled ≡ₚ array
              ∧ length shuffled = length array).
  { intros array Hlen. unfold shuffle.
    apply shuffleFrom_Permutation; [exact Hr|exact Hlen|].
    destruct array; simpl; [by right|left; lia]. }
  split; [|split].
  - intros n i Hi. apply randomIndex_range; [apply Hr..|exact Hi].
  - intros array Hlen. destruct (Hgen array Hlen) as (l & H1 & H2 & _). eauto.
  - destruct (Hgen stimulusIds) as (l & H1 & H2 & H3); [by vm_compute|].
    exists l. split; [exact H1|]. split; [|split; [exact H3|]].
    + rewrite H2. unfold stimulusIds.
      apply NoDup_fmap_2_strong; [intros x y _ _ ?; lia|].
      apply NoDup_fmap_2_strong; [intros x y _ _ ?; lia|]. apply NoDup_seq.
    + intros id. rewrite H2. unfold stimulusIds.
      rewrite list_elem_of_fmap. split.
      * intros [z [-> Hz]]. apply list_elem_of_fmap in Hz as [k [-> Hk]].
        apply elem_of_seq in Hk. lia.
      * intros Hid. exists (id - 1). split; [lia|].
        apply list_elem_of_fmap. exists (Z.to_nat (id - 1)).
        split; [lia|]. apply elem_of_seq. lia.
Qed.

Lemma shuffle_is_permutation_witness :
  (isDouble fourSevenths ∧ floorDouble fourSevenths = 0)
  ∧ randomIndex fourSevenths 6 = 4%nat
  ∧ (randomIndex fourSevenths 6 ≤ 6)%nat
  ∧ shuffle (fun _ => fourSevenths) [10; 20; 30; 40; 50; 60; 70]
    = Some [10; 60; 20; 70; 30; 40; 50]
  ∧ ∃ shuffled,
      shuffle (fun _ => fourSevenths) [10; 20; 30; 40; 50; 60; 70]
      = Some shuffled
      ∧ shuffled ≡ₚ [10; 20; 30; 40; 50; 60; 70].
Proof.
  assert (Hd : isDouble fourSevenths ∧ floorDouble fourSevenths = 0).
  { split; [|reflexivity]. unfold isDouble, fourSevenths. simpl. lia. }
  assert (Hr : ∀ n : nat, isDouble ((fun _ => fourSevenths) n)
                          ∧ floorDouble ((fun _ => fourSevenths) n) = 0).
  { intros _. exact Hd. }
  destruct (shuffle_is_permutation _ Hr) as (Hi & Hp & _).
  split; [exact Hd|]. split; [reflexivity|].
  split; [apply (Hi 0%nat 6%nat); vm_compute; discriminate|].
  split; [vm_compute; reflexivity|].
  apply Hp. vm_compute. discriminate.
Defined.

(** ** The service worker *)

Lemma onFetch_keeps_entries (url : string) (net : ServiceWorker.Network)
    (cache : gmap string ServiceWorker.HttpResponse) (u : string)
    (r : ServiceWorker.HttpResponse) :
  cache !! u = Some r ->
  fst (ServiceWorker.onFetch url net cache) !! u = Some r.
Proof.
  intros Hu. unfold ServiceWorker.onFetch.
  destruct (ServiceWorker.isAudioRequest url); [|assumption].
  destruct (cache !! url) as [c|] eqn:Hc; [assumption|].
  destruct net as [r'|]; [|assumption]. simpl.
  destruct (ServiceWorker.httpStatus r' =? 200); [|assumption].
  rewrite lookup_insert_ne; [assumption|]. intros ->. congruence.
Qed.

Lemma serveAll_keeps_entries (requests : list (string * ServiceWorker.Network))
    (cache : gmap string ServiceWorker.HttpResponse) (u : string)
    (r : ServiceWorker.HttpResponse) :
  cache !! u = Some r -> ServiceWorker.serveAll requests cache !! u = Some r.
Proof.
  revert cache. unfold ServiceWorker.serveAll.
  induction requests as [|[url net] requests IH]; intros cache Hu; simpl;
    [assumption|].
  apply IH. by apply onFetch_keeps_entries.
Qed.

(** X8. Once an audio file has been fetched with status 200, the
    service worker answers every later request for it with that same
    response and leaves the cache as it is, whatever was requested in
    between and whatever the network does then: also when the network is
    unreachable. *)
Theorem audio_is_served_from_cache_after_first_success (url : string)
    (r : ServiceWorker.HttpResponse)
    (cache : gmap string ServiceWorker.HttpResponse)
    (requests : list (string * ServiceWorker.Network))
    (net : ServiceWorker.Network) :
  ServiceWorker.isAudioRequest url = true ->
  cache !! url = None ->
  ServiceWorker.httpStatus r = 200 ->
  let first := ServiceWorker.onFetch url (ServiceWorker.Responds r) cache in
  let later := ServiceWorker.serveAll requests (fst first) in
  snd first = ServiceWorker.Serves r
  ∧ ServiceWorker.onFetch url net later = (later, ServiceWorker.Serves r).
Proof.
  intros Haudio Hmiss Hok first later.
  assert (Hfirst : first = (<[url := r]> cache, ServiceWorker.Serves r)).
  { unfold first, ServiceWorker.onFetch.
    rewrite Haudio, Hmiss, Hok. reflexivity. }
  split; [rewrite Hfirst; reflexivity|].
  assert (Hlater : later !! url = Some r).
  { unfold later. apply serveAll_keeps_entries.
    rewrite Hfirst. simpl. apply lookup_insert_eq. }
  unfold ServiceWorker.onFetch. rewrite Haudio, Hlater. reflexivity.
Qed.

Lemma audio_is_served_from_cache_after_first_success_witness :
  let url := "https://example.org/audio/7.m4a" in
  let r := ServiceWorker.mkHttpResponse 200 7 in
  let later :=
    ServiceWorker.serveAll
      [("https://example.org/audio/8.m4a", ServiceWorker.Unreachable);
       ("https://example.org/api/trial",
        ServiceWorker.Responds (ServiceWorker.mkHttpResponse 500 0))]
      (fst (ServiceWorker.onFetch url (ServiceWorker.Responds r) ∅)) in
  ServiceWorker.onFetch url ServiceWorker.Unreachable later
  = (later, ServiceWorker.Serves r).
Proof.
  intros url r later.
  apply (audio_is_served_from_cache_after_first_success url r ∅
           [("https://example.org/audio/8.m4a", ServiceWorker.Unreachable);
            ("https://example.org/api/trial",
             ServiceWorker.Responds (ServiceWorker.mkHttpResponse 500 0))]
           ServiceWorker.Unreachable).
  - reflexivity.
  - apply lookup_empty.
  - reflexivity.
Defined.

(** X9. The service worker's cache only ever holds responses with
    status 200 under URLs of audio files: a request adds at most the
    entry for its own URL, and only when the URL is an audio file's, the
    cache had nothing for it and the network answered 200; no entry is
    replaced or removed. *)
Theorem cache_holds_successful_audio_only
    (cache : gmap string ServiceWorker.HttpResponse)
    (requests : list (string * ServiceWorker.Network)) :
  (∀ u r, cache !! u = Some r ->
     ServiceWorker.isAudioRequest u = true ∧ ServiceWorker.httpStatus r = 200) ->
  (∀ u r, ServiceWorker.serveAll requests cache !! u = Some r ->
     ServiceWorker.isAudioRequest u = true ∧ ServiceWorker.httpStatus r = 200)
  ∧ (∀ url net u r,
       fst (ServiceWorker.onFetch url net cache) !! u = Some r ->
       cache !! u = Some r
       ∨ (u = url ∧ cache !! url = None ∧ net = ServiceWorker.Responds r))
  ∧ (∀ u r, cache !! u = Some r ->
       ServiceWorker.serveAll requests cache !! u = Some r).
Proof.
  intros Hinv.
  assert (Hstep : ∀ url net (c : gmap string ServiceWorker.HttpResponse) u r,
            fst (ServiceWorker.onFetch url net c) !! u = Some r ->
            c !! u = Some r
            ∨ (u = url ∧ c !! url = None ∧ net = ServiceWorker.Responds r
               ∧ ServiceWorker.isAudioRequest url = true
               ∧ ServiceWorker.httpStatus r = 200)).
  { intros url net c u r. unfold ServiceWorker.onFetch.
    destruct (ServiceWorker.isAudioRequest url) eqn:Ha; [|auto].
    destruct (c !! url) as [c0|] eqn:Hc; [auto|].
    destruct net as [r'|]; [|auto]. simpl.
    destruct (Z.eqb_spec (ServiceWorker.httpStatus r') 200) as [H200|]; [|auto].
    intros Hl. apply lookup_insert_Some in Hl as [[<- <-]|[_ Hl]]; [|auto].
    right. auto. }
  split; [|split].
  - revert cache Hinv. unfold ServiceWorker.serveAll.
    induction requests as [|[url net] requests IH]; intros cache Hinv; simpl;
      [exact Hinv|].
    apply IH. intros u r Hl.
    apply Hstep in Hl as [Hl|(-> & _ & _ & Ha & H200)]; auto.
  - intros url net u r Hl.
    apply Hstep in Hl as [Hl|(-> & Hc & -> & _)]; auto.
  - intros u r. apply serveAll_keeps_entries.
Qed.

Lemma cache_holds_successful_audio_only_witness :
  let requests :=
    [("/audio/1.m4a",
      ServiceWorker.Responds (ServiceWorker.mkHttpResponse 404 0));
     ("/audio/2.m4a",
      ServiceWorker.Responds (ServiceWorker.mkHttpResponse 200 2));
     ("/index.html",
      ServiceWorker.Responds (ServiceWorker.mkHttpResponse 200 3))] in
  ServiceWorker.serveAll requests ∅ !! "/audio/2.m4a"
  = Some (ServiceWorker.mkHttpResponse 200 2)
  ∧ (∀ u r, ServiceWorker.serveAll requests ∅ !! u = Some r ->
       ServiceWorker.isAudioRequest u = true
       ∧ ServiceWorker.httpStatus r = 200).
Proof.
  intros requests. split; [reflexivity|].
  apply (cache_holds_successful_audio_only ∅ requests).
  intros u r. rewrite lookup_empty. discriminate.
Defined.

(** ** [waitForResponse] *)

Lemma onDomEvent_settled (s : Waiting) (evs : list (DomEvent * Q)) :
  responded s = true ->
  let s' := foldl onDomEvent s evs in
  resolvedWith s' = resolvedWith s ∧ stops s' = stops s.
Proof.
  revert s. induction evs as [|[ev now] evs IH]; intros s Hr; simpl; [auto|].
  assert (Hstep : responded (onDomEvent s (ev, now)) = true
                  ∧ resolvedWith (onDomEvent s (ev, now)) = resolvedWith s
                  ∧ stops (onDomEvent s (ev, now)) = stops s).
  { unfold onDomEvent, resolveOnce. rewrite Hr.
    destruct ev; simpl;
      repeat match goal with
             | |- context [if ?b then _ else _] => destruct b
             end; simpl; auto. }
  destruct Hstep as (Hr' & Hv & Hn).
  destruct (IH _ Hr') as [IH1 IH2]. cbv zeta in *.
  split; [exact (eq_trans IH1 Hv)|exact (eq_trans IH2 Hn)].
Qed.

(** X10. [waitForResponse] resolves once, with the time of the first
    event that ends the wait: the space key, a click or a touch on the
    screen if there is one, or the timeout.  The audio source is stopped
    exactly once when that event came from the participant, and not at
    all when it was the timeout; nothing that happens later changes the
    value or stops the source again. *)
Theorem waitForResponse_first_event_decides (hasScreen : bool)
    (evs : list (DomEvent * Q)) :
  let s := foldl onDomEvent (startWaiting hasScreen) evs in
  match List.find (decisive hasScreen) evs with
  | None => resolvedWith s = None ∧ stops s = 0%nat
  | Some ev =>
      resolvedWith s = Some (snd ev)
      ∧ stops s = if byParticipant ev then 1%nat else 0%nat
  end.
Proof.
  unfold startWaiting.
  induction evs as [|[ev now] evs IH]; simpl; [auto|].
  unfold decisive at 1. simpl.
  destruct ev as [code| | |]; simpl.
  - destruct (String.eqb code "Space"); [|exact IH].
    unfold resolveOnce. simpl.
    apply (onDomEvent_settled (mkWaiting true false false true (Some now) 1));
      reflexivity.
  - destruct hasScreen; [|exact IH].
    apply (onDomEvent_settled (mkWaiting true false false true (Some now) 1));
      reflexivity.
  - destruct hasScreen; [|exact IH].
    apply (onDomEvent_settled (mkWaiting true false false true (Some now) 1));
      reflexivity.
  - apply (onDomEvent_settled (mkWaiting true false false false (Some now) 0));
      reflexivity.
Qed.

(** ** The preloader's tables and the fetch log *)

Lemma deliver_fetch_inv h o now w h' f'' :
  fetches (deliver h o now w) !! h' = Some f'' ->
  ∃ f', fetches w !! h' = Some f' ∧ fetchId f'' = fetchId f'
        ∧ (status f'' = status f'
           ∨ (h' = h ∧ status f' = Pending ∧ status f'' = Finished o)).
Proof.
  intros Hl. destruct (fetches w !! h') as [f'|] eqn:Hf'.
  - destruct (deliver_fetch h o now w h' f' Hf') as (f3 & Hf3 & Hid & _ & Hst).
    rewrite Hf3 in Hl. injection Hl as <-. exists f'. auto.
  - rewrite (deliver_fetch_None h o now w h' Hf') in Hl. discriminate.
Qed.

Lemma filter_alter_set_status (o : Settled) (l : list Fetch) (h : nat)
    (f : Fetch) :
  l !! h = Some f -> status f = Pending ->
  length (List.filter isFulfilled (alter (set_status o) h l)) =
    (length (List.filter isFulfilled l)
     + match o with Fulfilled _ => 1 | Rejected _ => 0 end)%nat.
Proof.
  revert h. induction l as [|x l IH]; intros h Hl Hs; [discriminate|].
  destruct h as [|h]; simpl in Hl.
  - injection Hl as ->.
    assert (H1 : isFulfilled f = false) by (unfold isFulfilled; by rewrite Hs).
    change (alter (set_status o) 0%nat (f :: l)) with (set_status o f :: l).
    cbn [List.filter]. rewrite H1.
    destruct o; simpl; lia.
  - specialize (IH h Hl Hs).
    change (alter (set_status o) (S h) (x :: l))
      with (x :: alter (set_status o) h l).
    cbn [List.filter]. destruct (isFulfilled x); simpl; lia.
Qed.

Lemma deliver_registered h o now w :
  inflight_ok w -> registered w -> registered (deliver h o now w).
Proof.
  intros Hok Hreg h' f'' Hl Hpend.
  destruct (deliver_fetch_inv _ _ _ _ _ _ Hl)
    as (f' & Hf' & Hid & [Hst|(_ & _ & Hst)]); [|congruence].
  assert (Hold : loadingPromises (pre w) !! fetchId f' = Some h').
  { apply (Hreg h' f' Hf'). congruence. }
  rewrite Hid.
  destruct (decide (h = h')) as [<-|Hne].
  { exfalso. assert (Hset := deliver_settledAt h o now w h).
    unfold settledAt in Hset. rewrite Hl, Hpend, Hf' in Hset.
    rewrite decide_True in Hset by reflexivity.
    destruct (status f'); discriminate. }
  clear Hl.
  deliver_cases w h o; try assumption.
  - assert (Hh : loadingPromises (pre w) !! fetchId f = Some h)
      by (by apply (Hreg h f)).
    rewrite lookup_delete_ne; [assumption|].
    intros Heq. rewrite Heq in Hh. congruence.
  - assert (Hh : loadingPromises (pre w) !! fetchId f = Some h)
      by (by apply (Hreg h f)).
    assert (Hneq : fetchId f ≠ fetchId f').
    { intros Heq. rewrite Heq in Hh. congruence. }
    rewrite !lookup_delete_ne by assumption. assumption.
Qed.

Lemma deliver_tidy h o now w : tidy w -> tidy (deliver h o now w).
Proof.
  intros (Hok & Hreg & Hcnt & Htally & Hcache & Hfailed & Hfresh).
  split; [by apply deliver_inflight_ok|].
  split; [by apply deliver_registered|].
  split; [by apply deliver_counters_ok|].
  split; [|split; [|split]].
  - rewrite deliver_loadedCount. unfold fulfilledCount.
    rewrite deliver_fetches.
    destruct (fetches w !! h) as [f|] eqn:Hf; [|destruct o; exact Htally].
    destruct (status f) eqn:Hs; [|destruct o; exact Htally].
    rewrite (filter_alter_set_status o _ h f Hf Hs).
    unfold fulfilledCount in Htally. destruct o; lia.
  - intros id b Hl.
    assert (Hcase : audioBuffers (pre w) !! id = Some b
              ∨ (∃ f, fetches w !! h = Some f ∧ status f = Pending
                      ∧ fetchId f = id ∧ o = Fulfilled b)).
    { revert Hl. deliver_cases w h o; auto.
      intros Hl. apply lookup_insert_Some in Hl as [[<- <-]|[_ Hl]]; [|auto].
      right. exists f. auto. }
    destruct Hcase as [Hold|(f & Hf & Hs & <- & ->)].
    + destruct (Hcache id b Hold) as (h0 & f0 & Hf0 & Hid0 & Hst0).
      destruct (deliver_fetch h o now w h0 f0 Hf0)
        as (f1 & Hf1 & Hid1 & _ & [Hst1|(_ & Hp & _)]); [|congruence].
      exists h0, f1. split; [assumption|]. split; congruence.
    + destruct (deliver_fetch h (Fulfilled b) now w h f Hf)
        as (f1 & Hf1 & Hid1 & _ & [Hst1|(_ & _ & Hst1)]).
      * exfalso.
        assert (Hset := deliver_settledAt h (Fulfilled b) now w h).
        unfold settledAt at 1 2 in Hset. rewrite Hf1, Hf, Hs, Hst1, Hs in Hset.
        rewrite decide_True in Hset by reflexivity. discriminate.
      * exists h, f1. auto.
  - intros id. split.
    + intros Hin.
      assert (Hcase : id ∈ failedLoads (pre w)
                ∨ (∃ f e, fetches w !! h = Some f ∧ status f = Pending
                          ∧ fetchId f = id ∧ o = Rejected e)).
      { revert Hin. deliver_cases w h o; auto.
        intros Hin. apply elem_of_union in Hin as [Hin|Hin]; [auto|].
        apply elem_of_singleton in Hin. right. exists f, e. auto. }
      destruct Hcase as [Hold|(f & e & Hf & Hs & <- & ->)].
      * apply Hfailed in Hold as (h0 & f0 & e0 & Hf0 & Hid0 & Hst0).
        destruct (deliver_fetch h o now w h0 f0 Hf0)
          as (f1 & Hf1 & Hid1 & _ & [Hst1|(_ & Hp & _)]); [|congruence].
        exists h0, f1, e0. split; [assumption|]. split; congruence.
      * destruct (deliver_fetch h (Rejected e) now w h f Hf)
          as (f1 & Hf1 & Hid1 & _ & [Hst1|(_ & _ & Hst1)]).
        -- exfalso.
           assert (Hset := deliver_settledAt h (Rejected e) now w h).
           unfold settledAt at 1 2 in Hset.
           rewrite Hf1, Hf, Hs, Hst1, Hs in Hset.
           rewrite decide_True in Hset by reflexivity. discriminate.
        -- exists h, f1, e. auto.
    + intros (h0 & f0 & e0 & Hf0 & Hid0 & Hst0).
      destruct (deliver_fetch_inv _ _ _ _ _ _ Hf0)
        as (f' & Hf' & Hid' & [Hst|(-> & Hp & Hst)]).
      * apply deliver_failed. apply Hfailed.
        exists h0, f', e0. split; [assumption|]. split; congruence.
      * assert (o = Rejected e0) by congruence. subst o.
        unfold deliver. rewrite Hf', Hp. simpl.
        apply elem_of_union_r, elem_of_singleton. congruence.
  - intros h' f'' Hl Hpend.
    destruct (deliver_fetch_inv _ _ _ _ _ _ Hl)
      as (f' & Hf' & Hid & [Hst|(_ & _ & Hst)]); [|congruence].
    rewrite Hid.
    destruct (decide (h = h')) as [<-|Hne].
    { exfalso. assert (Hset := deliver_settledAt h o now w h).
      unfold settledAt in Hset. rewrite Hl, Hpend, Hf' in Hset.
      rewrite decide_True in Hset by reflexivity.
      destruct (status f'); discriminate. }
    assert (Hp' : status f' = Pending) by congruence.
    assert (Hold := Hfresh h' f' Hf' Hp').
    assert (Hreg' := Hreg h' f' Hf' Hp').
    clear Hl.
    deliver_cases w h o; try assumption.
    rewrite lookup_insert_ne; [assumption|].
    intros Heq. assert (Hh := Hreg h f Hf Hs).
    rewrite Heq in Hh. congruence.
Qed.

Lemma tidy_ext w w' :
  pre w' = pre w -> fetches w' = fetches w -> tidy w -> tidy w'.
Proof.
  unfold tidy, inflight_ok, registered, counters_ok, fulfilledCount.
  intros -> ->. auto.
Qed.

Lemma callPause_tidy id w : tidy w -> tidy (callPause id w).
Proof.
  destruct (callPause_frame id w) as (Hp & Hf & _). by apply tidy_ext.
Qed.

Lemma callResume_tidy w : tidy w -> tidy (callResume w).
Proof.
  destruct (callResume_frame w) as (Hp & Hf & _). by apply tidy_ext.
Qed.

(** A load started for an id that is not in flight keeps the tables in
    agreement with the log. *)
Lemma loadAudio_tidy id w :
  audioBuffers (pre w) !! id = None ->
  loadingPromises (pre w) !! id = None ->
  tidy w -> tidy (fst (loadAudio id w)).
Proof.
  intros Hmiss Hfree (Hok & Hreg & Hcnt & Htally & Hcache & Hfailed & Hfresh).
  split; [by apply loadAudio_inflight_ok|].
  split; [|split; [by apply loadAudio_counters_ok|]].
  { unfold loadAudio. case_decide as Hd; [exact Hreg|]. simpl.
    intros h f Hl Hp. simpl in *.
    apply lookup_app_Some in Hl as [Hl|[Hge Hl]].
    - assert (Hold := Hreg h f Hl Hp).
      rewrite lookup_insert_ne; [assumption|].
      intros Heq. rewrite <- Heq in Hold. congruence.
    - apply list_lookup_singleton_Some in Hl as [Hz <-]. simpl.
      replace h with (length (fetches w)) by lia.
      apply lookup_insert_eq. }
  unfold loadAudio. case_decide as Hd; [by split_and!|]. simpl.
  split; [|split; [|split]].
  - unfold fulfilledCount. simpl. rewrite List.filter_app, length_app.
    simpl. unfold fulfilledCount in Htally. lia.
  - intros id' b Hl. destruct (Hcache id' b Hl) as (h0 & f0 & Hf0 & Hrest).
    exists h0, f0. split; [by apply lookup_app_l_Some|assumption].
  - intros id'. rewrite Hfailed. split.
    + intros (h0 & f0 & e0 & Hf0 & Hrest).
      exists h0, f0, e0. split; [by apply lookup_app_l_Some|assumption].
    + intros (h0 & f0 & e0 & Hf0 & Hid0 & Hst0).
      apply lookup_app_Some in Hf0 as [Hf0|[_ Hf0]]; [eauto 6|].
      apply list_lookup_singleton_Some in Hf0 as [_ <-]. discriminate.
  - intros h f Hl Hp.
    apply lookup_app_Some in Hl as [Hl|[_ Hl]]; [by apply (Hfresh h f)|].
    apply list_lookup_singleton_Some in Hl as [_ <-]. exact Hmiss.
Qed.

Lemma loadAudio_inflight_other id id' w :
  id' ≠ id -> loadingPromises (pre w) !! id' = None ->
  loadingPromises (pre (fst (loadAudio id w))) !! id' = None.
Proof.
  intros Hne Hfree. unfold loadAudio. case_decide; [assumption|]. simpl.
  by rewrite lookup_insert_ne.
Qed.

(** A batch of loads for ids that differ and are not in flight. *)
Lemma foldl_loadAudio_tidy (ids : list Z) (w : World) :
  NoDup ids ->
  Forall (fun id => audioBuffers (pre w) !! id = None
                    ∧ loadingPromises (pre w) !! id = None) ids ->
  tidy w -> tidy (foldl (fun w' id => fst (loadAudio id w')) w ids).
Proof.
  revert w. induction ids as [|id ids IH]; intros w Hnd Hfree Ht; simpl;
    [assumption|].
  apply NoDup_cons in Hnd as [Hnin Hnd].
  apply Forall_cons in Hfree as [[Hmiss Hid] Hfree].
  apply IH; [assumption| |by apply loadAudio_tidy].
  rewrite Forall_forall in *. intros id' Hin.
  destruct (Hfree id' Hin) as [Hmiss' Hid'].
  destruct (loadAudio_frame id w) as (_ & Hc & _). simpl in Hc.
  rewrite Hc. split; [assumption|].
  apply loadAudio_inflight_other; [|assumption]. intros ->. contradiction.
Qed.

Lemma jsSlice_sublist {A : Type} (l : list A) (s e : Z) :
  jsSlice l s e `sublist_of` l.
Proof.
  unfold jsSlice. etransitivity; [apply sublist_take|apply sublist_drop].
Qed.

Lemma preloadAhead_tidy (sequence : list Z) (i : Z) (w : World) :
  NoDup sequence -> tidy w -> tidy (preloadAhead sequence i w).
Proof.
  intros Hnd Ht. unfold preloadAhead. apply foldl_loadAudio_tidy.
  - unfold toLoad. apply NoDup_filter.
    eapply sublist_NoDup; [exact Hnd|apply jsSlice_sublist].
  - unfold toLoad. apply Forall_forall. intros id Hin.
    apply list_elem_of_filter in Hin. tauto.
  - assumption.
Qed.

Lemma clearOldBuffers_tidy sequence currentIndex keepBehind w :
  tidy w -> tidy (clearOldBuffers sequence currentIndex keepBehind w).
Proof.
  intros (Hok & Hreg & Hcnt & Htally & Hcache & Hfailed & Hfresh).
  split; [exact Hok|]. split; [exact Hreg|]. split; [exact Hcnt|].
  split; [exact Htally|]. split; [|split; [exact Hfailed|]].
  - intros id b Hl. rewrite clearOldBuffers_lookup in Hl.
    case_decide; [|discriminate]. by apply Hcache.
  - intros h f Hl Hp. rewrite clearOldBuffers_lookup.
    case_decide; [|reflexivity]. by apply (Hfresh h f).
Qed.

Lemma newExperiment_tidy : tidy newExperiment.
Proof.
  split; [apply newExperiment_inflight_ok|].
  split; [intros h f Hl; discriminate|].
  split; [reflexivity|]. split; [reflexivity|]. split; [|split].
  - intros id b Hl. simpl in Hl. rewrite lookup_empty in Hl. discriminate.
  - intros id. simpl. split; [set_solver|].
    intros (h & f & e & Hl & _). discriminate.
  - intros h f Hl. discriminate.
Qed.

(** ** What holds at every moment of a call *)

Section Always.
Variable I : World -> Prop.
Hypothesis I_deliver : ∀ h o now w, I w -> I (deliver h o now w).
Hypothesis I_clock : ∀ now w, I w -> I (with_clock now w).

Lemma always_world {A : Type} (c : Async A) : always I c -> I (worldOf c).
Proof. intros Hc. destruct Hc; assumption. Qed.

Lemma always_resume {A : Type} (c : Async A) :
  always I c -> always I (resume c).
Proof.
  intros Hc.
  induction Hc as [w a Hw|w e Hw|w h k Hw Hk IH|w hs k Hw Hk IH|w r k Hw Hk IH];
    simpl; try (constructor; assumption).
  - destruct (settledAt w h) as [s|]; [by apply IH|by constructor].
  - destruct (allSettled w hs) as [r|]; [by apply IH|by constructor].
Qed.

Lemma always_react {A : Type} (ev : Event) (c : Async A) :
  always I c -> always I (react ev c).
Proof.
  intros Hc. destruct ev as [h o now|ok now]; simpl.
  - apply always_resume.
    destruct Hc; simpl; constructor; auto.
  - destruct Hc; try (constructor; assumption).
    apply always_resume. auto.
Qed.

(** Soundness: the property holds of the world after every list of
    events, whether the call has finished by then or not. *)
Lemma always_run {A : Type} (evs : list Event) (c : Async A) :
  always I c -> I (worldOf (run evs c)).
Proof.
  revert c. induction evs as [|ev evs IH]; intros c Hc; simpl;
    [by apply always_world|].
  destruct (finished c); [by apply always_world|].
  apply IH. by apply always_react.
Qed.

Lemma always_bind {A B : Type} (c : Async A) (f : A -> World -> Async B) :
  always I c -> (∀ a w, I w -> always I (f a w)) -> always I (bind c f).
Proof.
  intros Hc Hf.
  induction Hc as [w a Hw|w e Hw|w h k Hw Hk IH|w hs k Hw Hk IH|w r k Hw Hk IH];
    simpl; [auto|by constructor|constructor; auto..].
Qed.

(** What holds at every moment holds when the call returns or throws. *)
Lemma safe_always {A : Type} (Q : World -> A -> Prop)
    (E : World -> Error -> Prop) (c : Async A) :
  safe Q E c -> always I c ->
  safe (fun w a => Q w a ∧ I w) (fun w e => E w e ∧ I w) c.
Proof.
  intros Hs. induction Hs as [w a Hq|w e He|w h k Hq Hk IH|w hs k Hq Hk IH
                              |w r k Hk IH]; intros Ha; inversion Ha; subst.
  - by constructor.
  - by constructor.
  - constructor; [assumption|]. intros w1 o now Henv Hn Hsome.
    apply IH; try assumption.
    match goal with
    | H : ∀ o w1, I w1 -> always I (_ o w1) |- _ => apply H
    end.
    apply I_deliver. eapply (env_preserved I); eauto.
  - constructor; [assumption|]. intros w1 h o now r Henv Hn Hsome.
    eapply IH; try eassumption.
    match goal with
    | H : ∀ r w1, I w1 -> always I (_ r w1) |- _ => apply H
    end.
    apply I_deliver. eapply (env_preserved I); eauto.
  - constructor. intros w1 ok now Henv.
    apply IH; try assumption.
    match goal with
    | H : ∀ ok w1, I w1 -> always I (_ ok w1) |- _ => apply H
    end.
    apply I_clock. eapply (env_preserved I); eauto.
Qed.
End Always.

(** ** The tables during an experiment *)

Lemma getAudioBuffer_tidy (id : Z) (showPauseUI : bool) (w : World) :
  tidy w -> always tidy (getAudioBuffer id showPauseUI w).
Proof.
  intros Ht. unfold getAudioBuffer.
  destruct (audioBuffers (pre w) !! id) as [b|] eqn:Hc; [by constructor|].
  set (w1 := if showPauseUI then callPause id w else w).
  assert (Hp1 : pre w1 = pre w).
  { unfold w1. destruct showPauseUI; [apply callPause_frame|reflexivity]. }
  assert (Ht1 : tidy w1).
  { unfold w1. destruct showPauseUI; [by apply callPause_tidy|assumption]. }
  set (after := fun (b : AudioBuffer) (w' : World) =>
                  Done (if showPauseUI then callResume w' else w') b).
  assert (Hafter : ∀ o w', tidy w' ->
            always tidy
              (bind (match o with
                     | Fulfilled b => Done w' b
                     | Rejected e => Fail w' e
                     end) after)).
  { intros o w' Ht'. destruct o; simpl; constructor; [|assumption].
    destruct showPauseUI; [by apply callResume_tidy|assumption]. }
  destruct (loadingPromises (pre w) !! id) as [h|] eqn:Hl.
  - simpl. constructor; assumption.
  - unfold awaitLoadAudio.
    assert (Ht2 : tidy (fst (loadAudio id w1))).
    { apply loadAudio_tidy; [by rewrite Hp1|by rewrite Hp1|assumption]. }
    destruct (loadAudio id w1) as [w2 [e|h]]; simpl in *.
    + by constructor.
    + constructor; assumption.
Qed.

Lemma ensureNextTrialReady_tidy (sequence : list Z) (i : nat) (w : World) :
  tidy w -> always tidy (ensureNextTrialReady sequence i w).
Proof.
  intros Ht. unfold ensureNextTrialReady.
  destruct (sequence !! i) as [id|]; [|by constructor].
  destruct (audioBuffers (pre w) !! id); [by constructor|].
  apply always_bind.
  - apply getAudioBuffer_tidy. by apply callPause_tidy.
  - intros _ w' Ht'. constructor. by apply callResume_tidy.
Qed.

Lemma preloadInitial_tidy (sequence : list Z) (w : World) :
  NoDup sequence ->
  audioBuffers (pre w) = ∅ -> loadingPromises (pre w) = ∅ -> tidy w ->
  always tidy (preloadInitial sequence w).
Proof.
  intros Hnd Hnone Hempty Ht. unfold preloadInitial.
  set (batch := jsSlice sequence 0 (bufferAhead (pre w))).
  assert (Ht1 : tidy (fst (loadEach batch w))).
  { rewrite loadEach_world. apply foldl_loadAudio_tidy; [| |assumption].
    - eapply sublist_NoDup; [exact Hnd|apply jsSlice_sublist].
    - apply Forall_forall. intros id _. rewrite Hnone, Hempty.
      split; apply lookup_empty. }
  destruct (loadEach batch w) as [w1 calls]. simpl in Ht1.
  destruct (firstRejected calls); [by constructor|].
  apply always_resume. constructor; [assumption|].
  intros r w' Ht'. destruct r; by constructor.
Qed.

Lemma sleep_tidy ms w : tidy w -> always tidy (sleep ms w).
Proof.
  intros Ht. unfold sleep. constructor; [assumption|].
  intros _ w' Ht'. by constructor.
Qed.

Lemma runTrial_tidy (id : Z) (w : World) :
  tidy w -> always tidy (runTrial id w).
Proof.
  intros Ht. unfold runTrial, startTrial.
  apply always_bind.
  - apply always_bind; [by apply sleep_tidy|].
    intros _ w1 Ht1. apply always_bind; [by apply getAudioBuffer_tidy|].
    intros b w2 Ht2. constructor. exact Ht2.
  - intros bt w1 Ht1. constructor; [assumption|].
    intros _ w2 Ht2. by constructor.
Qed.

Lemma trial_tidy (sequence : list Z) (characters : list string) (i : nat)
    (stimId : Z) (w : World) :
  NoDup sequence -> tidy w ->
  always tidy (trial sequence characters i stimId w).
Proof.
  intros Hnd Ht. unfold trial.
  apply always_bind; [by apply ensureNextTrialReady_tidy|].
  intros _ w1 Ht1.
  apply always_bind; [by apply runTrial_tidy, preloadAhead_tidy|].
  intros rt w3 Ht3.
  apply always_bind.
  - unfold submitTrialResult. constructor; [exact Ht3|].
    intros ok w5 Ht5. constructor. destruct ok; exact Ht5.
  - intros _ w5 Ht5. apply sleep_tidy.
    destruct ((Z.of_nat i mod 10 =? 0) && (0 <? Z.of_nat i));
      [by apply clearOldBuffers_tidy|assumption].
Qed.

Lemma trialsFrom_tidy (sequence : list Z) (characters : list string)
    (n i : nat) (w : World) :
  NoDup sequence -> tidy w ->
  always tidy (trialsFrom sequence characters n i w).
Proof.
  intros Hnd. revert i w. induction n as [|n IH]; intros i w Ht; simpl;
    [by constructor|].
  destruct (sequence !! i) as [stimId|]; [|by constructor].
  apply always_bind; [by apply trial_tidy|].
  intros _ w' Ht'. by apply IH.
Qed.

Lemma init_tidy (sequence : list Z) (characters : list string) (w : World) :
  NoDup sequence ->
  audioBuffers (pre w) = ∅ -> loadingPromises (pre w) = ∅ -> tidy w ->
  always tidy (init sequence characters w).
Proof.
  intros Hnd Hnone Hempty Ht. unfold init.
  apply always_bind; [by apply preloadInitial_tidy|].
  intros _ w1 Ht1. constructor; [assumption|].
  intros _ w2 Ht2. constructor; [assumption|].
  intros _ w3 Ht3. apply always_bind; [by apply sleep_tidy|].
  intros _ w4 Ht4. by apply trialsFrom_tidy.
Qed.

(** X11. At every moment of an experiment whose sequence has no stimulus
    twice (such as the shuffled sequence of [init]), whatever the loads
    did and whenever the participant answered: no stimulus has two loads
    under way, and none has a load under way while it is cached; the
    in-flight table lists exactly the loads without an outcome; [loaded]
    of [getProgress] is the number of loads that have succeeded; every
    cached buffer is the one a load of that stimulus delivered; and the
    failed set holds exactly the stimuli a load of which has failed. *)
Theorem experiment_keeps_one_load_per_stimulus (sequence : list Z)
    (characters : list string) (evs : list Event) :
  NoDup sequence ->
  let w := worldOf (run evs (init sequence characters newExperiment)) in
  tidy w
  ∧ (∀ h1 h2 f1 f2,
       fetches w !! h1 = Some f1 -> fetches w !! h2 = Some f2 ->
       status f1 = Pending -> status f2 = Pending ->
       fetchId f1 = fetchId f2 -> h1 = h2)
  ∧ loaded (getProgress w) = Z.of_nat (fulfilledCount w)
  ∧ (∀ h f, fetches w !! h = Some f -> status f = Pending ->
       audioBuffers (pre w) !! fetchId f = None).
Proof.
  intros Hnd w.
  assert (Ht : tidy w).
  { apply (always_run tidy).
    - intros. by apply deliver_tidy.
    - intros now w0 Ht0. exact Ht0.
    - apply init_tidy;
        [assumption|reflexivity|reflexivity|apply newExperiment_tidy]. }
  split; [exact Ht|]. split; [|split; [apply Ht|apply Ht]].
  destruct Ht as (_ & Hreg & _).
  intros h1 h2 f1 f2 Hf1 Hf2 Hp1 Hp2 Hid.
  assert (H1 := Hreg h1 f1 Hf1 Hp1). assert (H2 := Hreg h2 f2 Hf2 Hp2).
  rewrite Hid in H1. congruence.
Qed.

Lemma experiment_keeps_one_load_per_stimulus_witness :
  tidy (worldOf (run [EvLoad 0%nat (Fulfilled (Decoded 3)) 1%Q;
                      EvLoad 2%nat (Rejected (HttpError 404)) 2%Q]
                   (init [3; 1; 4; 5] [] newExperiment))).
Proof.
  apply (experiment_keeps_one_load_per_stimulus [3; 1; 4; 5] []
           [EvLoad 0%nat (Fulfilled (Decoded 3)) 1%Q;
            EvLoad 2%nat (Rejected (HttpError 404)) 2%Q]).
  apply (bool_decide_unpack _). vm_compute. exact Logic.I.
Defined.

(** ** C1: who deduplicates loads *)

(** C1, as stated, fails: with stimulus 4 in flight under handle 0,
    [loadAudio(4)] returns a new promise (handle 1) and issues a second
    fetch; the two loads can then end differently, the first caller
    getting the buffer and the second the error. *)
Lemma loadAudio_in_flight_fetches_again :
  loadingPromises (pre loading4) !! 4 = Some 0%nat
  ∧ snd (loadAudio 4 loading4) = Started 1%nat
  ∧ fetchId <$> fetches (fst (loadAudio 4 loading4)) = [4; 4]
  ∧ (let w2 :=
       deliver 1 (Rejected (HttpError 404)) 2%Q
         (deliver 0 (Fulfilled (Decoded 4)) 1%Q (fst (loadAudio 4 loading4))) in
     settledAt w2 0 = Some (Fulfilled (Decoded 4))
     ∧ settledAt w2 1 = Some (Rejected (HttpError 404))).
Proof. vm_compute. repeat split. Qed.

(** C1, amended.  [loadAudio] does not read the in-flight table: for an
    id outside the failed set every call starts a fetch of its own and
    puts the new handle in the table, whether or not the id had an
    entry.  What keeps loads apart is in its callers, and only in part.
    - [getAudioBuffer] on an id that is not cached and has an entry
      starts no fetch and waits on the handle of the entry, handing on
      that load's buffer or error.
    - [preloadAhead] filters its window once, against the tables as
      they are when it is called, and then calls [loadAudio] for every
      entry that is left: each of these ids was neither cached nor in
      flight at the call, but an id that stands twice in the window is
      loaded twice (window [[5; 5]]: two fetches for 5).
    - [preloadInitial] does not filter: it calls [loadAudio] for every
      entry of the first window, also for an id in flight (with 4 in
      flight, the window [[4; 4; 1]] starts two more fetches for 4).
    In an experiment, from [preloadInitial] to the end of
    [runExperiment], on a sequence that has no id twice, these calls
    never meet a load under way: at every moment at most one load of an
    id has no outcome yet, and the in-flight table holds its handle. *)
Theorem loadAudio_fetches_callers_deduplicate (id : Z) (w : World) :
  (id ∉ failedLoads (pre w) ->
     snd (loadAudio id w) = Started (length (fetches w))
     ∧ fetches (fst (loadAudio id w))
       = fetches w ++ [mkFetch id (clock w) Pending]
     ∧ loadingPromises (pre (fst (loadAudio id w)))
       = <[id := length (fetches w)]> (loadingPromises (pre w)))
  ∧ (∀ (h : Handle) (showPauseUI : bool),
       audioBuffers (pre w) !! id = None ->
       loadingPromises (pre w) !! id = Some h ->
       ∃ k, getAudioBuffer id showPauseUI w
            = AwaitLoad (if showPauseUI then callPause id w else w) h k
            ∧ fetches (worldOf (getAudioBuffer id showPauseUI w)) = fetches w
            ∧ (∀ b w', k (Fulfilled b) w'
                 = Done (if showPauseUI then callResume w' else w') b)
            ∧ (∀ e w', k (Rejected e) w' = Fail w' e))
  ∧ (∀ sequence currentIndex,
       preloadAhead sequence currentIndex w
       = foldl (fun w1 id' => fst (loadAudio id' w1)) w
           (toLoad sequence currentIndex w)
       ∧ fetches (preloadAhead sequence currentIndex w)
         = fetches w ++
             ((fun id' => mkFetch id' (clock w) Pending) <$>
                filter (fun id' => id' ∉ failedLoads (pre w))
                  (toLoad sequence currentIndex w))
       ∧ ∀ id', id' ∈ toLoad sequence currentIndex w ->
           audioBuffers (pre w) !! id' = None
           ∧ loadingPromises (pre w) !! id' = None)
  ∧ toLoad [1; 2; 5; 5] 0 windowTwo = [5; 5]
  ∧ fetchId <$> fetches (preloadAhead [1; 2; 5; 5] 0 windowTwo) = [5; 5]
  ∧ (∀ sequence,
       fetches (worldOf (preloadInitial sequence w))
       = fetches w ++
           ((fun id' => mkFetch id' (clock w) Pending) <$>
              filter (fun id' => id' ∉ failedLoads (pre w))
                (jsSlice sequence 0 (bufferAhead (pre w)))))
  ∧ fetchId <$> fetches (worldOf (preloadInitial [4; 4; 1] loading4))
    = [4; 4; 4; 1]
  ∧ (∀ (sequence : list Z) (characters : list string) (evs : list Event),
       NoDup sequence ->
       let w1 := worldOf (run evs (init sequence characters newExperiment)) in
       ∀ h1 h2 f1 f2,
         fetches w1 !! h1 = Some f1 -> fetches w1 !! h2 = Some f2 ->
         status f1 = Pending -> status f2 = Pending ->
         fetchId f1 = fetchId f2 ->
         h1 = h2 ∧ loadingPromises (pre w1) !! fetchId f1 = Some h1).
Proof.
  split; [|split; [|split; [|split; [|split; [|split; [|split]]]]]].
  - intros Hn. rewrite loadAudio_starts by assumption. auto.
  - intros h showPauseUI Hc Hl. unfold getAudioBuffer. rewrite Hc, Hl.
    simpl. eexists. split; [reflexivity|].
    split; [|split; reflexivity].
    simpl. destruct showPauseUI; [|reflexivity].
    apply (callPause_frame id w).
  - intros sequence currentIndex. split; [reflexivity|]. split.
    + unfold preloadAhead.
      apply (foldl_loadAudio_frame (toLoad sequence currentIndex w) w).
    + intros id' Hin. unfold toLoad in Hin.
      apply list_elem_of_filter in Hin. tauto.
  - reflexivity.
  - reflexivity.
  - intros sequence. rewrite preloadInitial_world.
    apply (foldl_loadAudio_frame _ w).
  - reflexivity.
  - intros sequence characters evs Hnd w1 h1 h2 f1 f2 Hf1 Hf2 Hp1 Hp2 Hid.
    assert (Ht : tidy w1).
    { apply (always_run tidy).
      - intros. by apply deliver_tidy.
      - intros now w0 Ht0. exact Ht0.
      - apply init_tidy;
          [assumption|reflexivity|reflexivity|apply newExperiment_tidy]. }
    destruct Ht as (_ & Hreg & _).
    assert (H1 := Hreg h1 f1 Hf1 Hp1). assert (H2 := Hreg h2 f2 Hf2 Hp2).
    rewrite Hid in H1. split; [congruence|]. rewrite Hid. exact H1.
Qed.

Lemma loadAudio_fetches_callers_deduplicate_witness :
  (4 ∉ failedLoads (pre loading4))
  ∧ snd (loadAudio 4 loading4) = Started 1%nat
  ∧ audioBuffers (pre loading4) !! 4 = None
  ∧ loadingPromises (pre loading4) !! 4 = Some 0%nat
  ∧ fetches (worldOf (getAudioBuffer 4 true loading4)) = fetches loading4
  ∧ 7 ∈ toLoad identitySequence 3 loading4
  ∧ loadingPromises (pre loading4) !! 7 = None.
Proof.
  assert (Hn : 4 ∉ failedLoads (pre loading4)).
  { apply (bool_decide_unpack _). vm_compute. exact Logic.I. }
  assert (Hc : audioBuffers (pre loading4) !! 4 = None) by reflexivity.
  assert (Hl : loadingPromises (pre loading4) !! 4 = Some 0%nat) by reflexivity.
  assert (H7 : 7 ∈ toLoad identitySequence 3 loading4).
  { apply (bool_decide_unpack _). vm_compute. exact Logic.I. }
  destruct (loadAudio_fetches_callers_deduplicate 4 loading4)
    as (H1 & H2 & H3 & _).
  destruct (H1 Hn) as (Hs & _).
  destruct (H2 0%nat true Hc Hl) as (k & _ & Hf & _).
  destruct (H3 identitySequence 3) as (_ & _ & H3').
  destruct (H3' 7 H7) as (_ & Hl7).
  repeat split; assumption.
Defined.

(** ** The record of an experiment *)

Lemma same_record_refl h : same_record h h.
Proof. repeat split. Qed.

Lemma recorded_ext sequence characters n h h' :
  same_record h h' ->
  recorded sequence characters n h -> recorded sequence characters n h'.
Proof. unfold recorded. intros (-> & -> & ->). auto. Qed.

Lemma hosted_pause_resume w id h :
  hosted w ->
  same_record h (pauseHost (pre w) id h)
  ∧ same_record h (resumeHost (pre w) (pauseHost (pre w) id h)).
Proof.
  intros [Hp Hr]. unfold pauseHost, resumeHost. rewrite Hp, Hr.
  repeat split.
Qed.

Lemma ensureNextTrialReady_record (sequence : list Z) (i : nat) (w : World) :
  inflight_ok w -> hosted w ->
  safe (fun w' _ => inflight_ok w' ∧ hosted w' ∧ same_record (host w) (host w'))
       (fun w' _ => same_record (host w) (host w'))
       (ensureNextTrialReady sequence i w).
Proof.
  intros Hok Hh. destruct (sequence !! i) as [id|] eqn:Hi.
  2: { unfold ensureNextTrialReady. rewrite Hi. constructor.
       auto using same_record_refl. }
  destruct (hosted_pause_resume w id (host w) Hh) as [Hpause Hboth].
  eapply safe_weaken;
    [exact (ensureNextTrialReady_safe sequence i id w Hok Hi)| |].
  - intros w' r (_ & _ & Hok' & Hcfg & Hhost).
    split; [assumption|]. split; [by eapply hosted_same_config|].
    rewrite Hhost.
    destruct (audioBuffers (pre w) !! id); [apply same_record_refl|exact Hboth].
  - intros w' e (_ & _ & _ & Hhost). cbv beta. rewrite Hhost. exact Hpause.
Qed.

Lemma runTrial_record (id : Z) (w : World) :
  inflight_ok w -> hosted w ->
  safe (fun w' _ =>
          inflight_ok w' ∧ hosted w'
          ∧ results (host w') = results (host w)
          ∧ (∃ b, played (host w') = played (host w) ++ [(id, b)])
          ∧ localStorage (host w') = localStorage (host w))
       (fun w' _ => same_record (host w) (host w'))
       (runTrial id w).
Proof.
  intros Hok Hh. unfold runTrial.
  destruct (hosted_pause_resume w id (host w) Hh)
    as [Hpause (Hres & Hpl & Hls)].
  eapply safe_bind; [exact (startTrial_safe id w Hok)| |].
  - intros w1 bt (_ & _ & Hok1 & Hcfg1 & Hhost1).
    constructor. intros w2 ok now Henv. constructor.
    destruct (env_facts _ _ Henv) as (Hh2 & Hcfg2 & Hok2).
    split; [apply with_clock_inflight_ok; auto|].
    split.
    { eapply hosted_same_config; [|exact Hh].
      eapply same_config_trans; [exact Hcfg1|exact Hcfg2]. }
    change (host (with_clock now w2)) with (host w2). rewrite Hh2.
    destruct Hhost1 as [-> | ->]; simpl.
    + eauto.
    + rewrite Hres, Hpl, Hls. eauto.
  - intros w1 e (_ & _ & Hhost). cbv beta. rewrite Hhost. exact Hpause.
Qed.

(** One pass of the loop adds the result of its position. *)
Lemma trial_recorded (sequence : list Z) (characters : list string) (i : nat)
    (stimId : Z) (w : World) :
  sequence !! i = Some stimId ->
  inflight_ok w -> hosted w -> recorded sequence characters i (host w) ->
  safe (fun w' _ =>
          inflight_ok w' ∧ hosted w'
          ∧ recorded sequence characters (S i) (host w'))
       (fun w' _ => recorded sequence characters i (host w'))
       (trial sequence characters i stimId w).
Proof.
  intros Hi Hok Hh Hrec. unfold trial.
  eapply safe_bind; [exact (ensureNextTrialReady_record sequence i w Hok Hh)| |].
  2: { intros w' e Hsame. cbv beta in *. by eapply recorded_ext. }
  intros w1 r1 (Hok1 & Hh1 & Hsame1).
  assert (Hrec1 : recorded sequence characters i (host w1))
    by (by eapply recorded_ext).
  destruct (foldl_loadAudio_frame (toLoad sequence (Z.of_nat i) w1) w1)
    as (Hhost2 & _ & _ & _ & _ & Hcfg2 & _ & Hok2 & _).
  fold (preloadAhead sequence (Z.of_nat i) w1) in Hhost2, Hcfg2, Hok2.
  set (w2 := preloadAhead sequence (Z.of_nat i) w1) in *.
  assert (Hh2 : hosted w2) by (by eapply hosted_same_config).
  eapply safe_bind; [exact (runTrial_record stimId w2 (Hok2 Hok1) Hh2)| |].
  2: { intros w' e Hsame. cbv beta in *.
       eapply recorded_ext; [exact Hsame|]. by rewrite Hhost2. }
  intros w3 rt (Hok3 & Hh3 & Hres3 & [b Hpl3] & Hls3).
  rewrite Hhost2 in Hres3, Hpl3, Hls3.
  unfold submitTrialResult. constructor. intros w4 ok now Henv4. simpl.
  set (t := mkTrialResult _ _ _ _ _ _) in *.
  destruct (env_facts _ _ Henv4) as (Hh4 & Hcfg4 & Hok4).
  simpl in Hh4.
  set (w5 := if ok then with_clock now w4
             else with_host (saveToLocalStorage t) (with_clock now w4)).
  assert (H5 : inflight_ok w5 ∧ hosted w5
               ∧ recorded sequence characters (S i) (host w5)).
  { assert (Hok5 : inflight_ok w5).
    { unfold w5. destruct ok; apply Hok4; exact Hok3. }
    assert (Hh5 : hosted w5).
    { assert (hosted w4) by (eapply hosted_same_config; [exact Hcfg4|exact Hh3]).
      unfold w5. destruct ok; assumption. }
    split; [exact Hok5|]. split; [exact Hh5|].
    destruct Hrec1 as (Hids & Hnums & Hchars & Hplayed & Hlocal).
    assert (Hres5 : results (host w5) = results (host w1) ++ [t]).
    { unfold w5. destruct ok; simpl; rewrite Hh4; simpl; by rewrite Hres3. }
    assert (Hpl5 : played (host w5) = played (host w1) ++ [(stimId, b)]).
    { unfold w5. destruct ok; simpl; rewrite Hh4; simpl; by rewrite Hpl3. }
    unfold recorded. rewrite Hres5, Hpl5, !fmap_app.
    rewrite (take_S_r _ _ _ Hi), seq_S, !fmap_app.
    rewrite Hids, Hnums, Hchars, Hplayed. simpl.
    split; [reflexivity|]. split; [reflexivity|]. split; [reflexivity|].
    split; [reflexivity|].
    intros k r Hk.
    assert (Hcase : localStorage (host w1) !! k = Some r
                    ∨ (r = t ∧ k = trialNumber t)).
    { revert Hk. unfold w5. destruct ok; simpl; rewrite Hh4; simpl;
        rewrite Hls3; [auto|].
      intros Hk. apply lookup_insert_Some in Hk as [[<- <-]|[_ Hk]]; auto. }
    destruct Hcase as [Hold|[-> ->]].
    - destruct (Hlocal k r Hold) as [Hin Hnum].
      split; [|exact Hnum]. apply elem_of_app. by left.
    - split; [|reflexivity]. apply elem_of_app. right. by apply list_elem_of_singleton. }
  clearbody w5. destruct H5 as (Hok5 & Hh5 & Hrec5).
  set (w6 := if (Z.of_nat i mod 10 =? 0) && (0 <? Z.of_nat i)
             then clearOldBuffers sequence (Z.of_nat i) 2 w5 else w5).
  assert (H6 : inflight_ok w6 ∧ hosted w6 ∧ host w6 = host w5).
  { unfold w6. destruct ((Z.of_nat i mod 10 =? 0) && (0 <? Z.of_nat i)); auto. }
  clearbody w6. destruct H6 as (Hok6 & Hh6 & Hhost6).
  unfold sleep. constructor. intros w7 ok' now' Henv7. constructor.
  destruct (env_facts _ _ Henv7) as (Hh7 & Hcfg7 & Hok7).
  split; [apply with_clock_inflight_ok; auto|].
  split; [eapply hosted_same_config; [exact Hcfg7|exact Hh6]|].
  change (host (with_clock now' w7)) with (host w7).
  rewrite Hh7, Hhost6. exact Hrec5.
Qed.

Lemma trialsFrom_recorded (sequence : list Z) (characters : list string)
    (n i : nat) (w : World) :
  (i + n = length sequence)%nat ->
  inflight_ok w -> hosted w -> recorded sequence characters i (host w) ->
  safe (fun w' _ => recorded sequence characters (length sequence) (host w'))
       (fun w' _ => ∃ m, recorded sequence characters m (host w'))
       (trialsFrom sequence characters n i w).
Proof.
  revert i w. induction n as [|n IH]; intros i w Hlen Hok Hh Hrec; simpl.
  { constructor. replace (length sequence) with i by lia. exact Hrec. }
  destruct (lookup_lt_is_Some_2 sequence i) as [stimId Hi]; [lia|].
  rewrite Hi.
  eapply safe_bind;
    [exact (trial_recorded sequence characters i stimId w Hi Hok Hh Hrec)| |].
  - intros w' _ (Hok' & Hh' & Hrec'). apply IH; [lia|assumption..].
  - intros w' e Hrec'. exists i. exact Hrec'.
Qed.

Lemma preloadInitial_host (sequence : list Z) (w : World) :
  always (fun w' => host w' = host w) (preloadInitial sequence w).
Proof.
  unfold preloadInitial.
  set (batch := jsSlice sequence 0 (bufferAhead (pre w))).
  assert (Hhost : host (fst (loadEach batch w)) = host w).
  { rewrite loadEach_world. apply foldl_loadAudio_frame. }
  destruct (loadEach batch w) as [w1 calls]. simpl in Hhost.
  destruct (firstRejected calls); [by constructor|].
  apply always_resume. constructor; [assumption|].
  intros r w' Hw'. destruct r; by constructor.
Qed.

Lemma init_recorded (sequence : list Z) (characters : list string)
    (w : World) :
  inflight_ok w -> hosted w -> recorded sequence characters 0 (host w) ->
  safe (fun w' _ => recorded sequence characters (length sequence) (host w'))
       (fun w' _ => ∃ m, recorded sequence characters m (host w'))
       (init sequence characters w).
Proof.
  intros Hok Hh Hrec. unfold init.
  eapply safe_bind.
  - apply (safe_always (fun w' => host w' = host w)).
    + intros h o now w0 <-. apply deliver_host.
    + intros now w0 <-. reflexivity.
    + exact (preloadInitial_safe sequence w).
    + apply preloadInitial_host.
  - intros w1 r ((_ & _ & _ & Hhost & Hcfg & Hok1) & _).
    assert (Hh1 : hosted w1) by (by eapply hosted_same_config).
    constructor. intros w2 ok2 now2 Henv2.
    destruct (env_facts _ _ Henv2) as (Hh2 & Hcfg2 & Hok2).
    constructor. intros w3 ok3 now3 Henv3.
    destruct (env_facts _ _ Henv3) as (Hh3 & Hcfg3 & Hok3).
    eapply safe_bind; [apply sleep_safe| |contradiction].
    intros w4 [] (w4' & now4 & Henv4 & ->).
    destruct (env_facts _ _ Henv4) as (Hh4 & Hcfg4 & Hok4).
    simpl in Hh3, Hh4.
    apply trialsFrom_recorded.
    + reflexivity.
    + apply with_clock_inflight_ok. apply Hok4.
      apply with_clock_inflight_ok. apply Hok3.
      apply with_clock_inflight_ok. auto.
    + eapply hosted_same_config; [exact Hcfg4|].
      eapply hosted_same_config; [exact Hcfg3|].
      eapply hosted_same_config; [exact Hcfg2|exact Hh1].
    + change (host (with_clock now4 w4')) with (host w4').
      rewrite Hh4, Hh3, Hh2, Hhost. exact Hrec.
  - intros w' e (_ & Hhost). exists 0%nat. rewrite Hhost. exact Hrec.
Qed.

Lemma newExperiment_recorded sequence characters :
  recorded sequence characters 0 (host newExperiment).
Proof.
  unfold recorded. simpl. rewrite take_0. split_and!; try reflexivity.
  intros k r Hk. rewrite lookup_empty in Hk. discriminate.
Qed.

(** X12. An experiment whose [runExperiment] has returned has recorded
    one result for each position of the sequence, in order: the results carry the trial
    numbers 1, 2, ... and the stimulus and character of their position,
    the stimuli played are those of the sequence in its order, and what
    [localStorage] keeps under a trial number is the recorded result
    with that number.  This holds whichever loads were slow and
    whichever POSTs failed. *)
Theorem completed_experiment_recorded_in_order (sequence : list Z)
    (characters : list string) (evs : list Event) (w' : World) :
  run evs (init sequence characters newExperiment) = Done w' tt ->
  stimulusId <$> results (host w') = sequence
  ∧ trialNumber <$> results (host w')
    = (fun i => Z.of_nat i + 1) <$> seq 0 (length sequence)
  ∧ character <$> results (host w')
    = (fun id => jsIndex characters (id - 1)) <$> sequence
  ∧ fst <$> played (host w') = sequence
  ∧ (∀ k r, localStorage (host w') !! k = Some r ->
       r ∈ results (host w') ∧ trialNumber r = k).
Proof.
  intros Hrun.
  apply (safe_run_Done _ _ evs _ w' tt
           (init_recorded sequence characters newExperiment
              newExperiment_inflight_ok newExperiment_hosted
              (newExperiment_recorded sequence characters))) in Hrun.
  unfold recorded in Hrun. rewrite firstn_all in Hrun. exact Hrun.
Qed.

Lemma completed_experiment_recorded_in_order_witness :
  let w' :=
    worldOf (run ([EvLoad 0%nat (Fulfilled (Decoded 2)) 1%Q;
                   EvLoad 1%nat (Fulfilled (Decoded 1)) 2%Q]
                  ++ hostEvents 6 3%Q ++ [EvHost false 4%Q]
                  ++ hostEvents 4 5%Q)
               (init [2; 1] ["one"; "two"] newExperiment)) in
  stimulusId <$> results (host w') = [2; 1]
  ∧ fst <$> played (host w') = [2; 1].
Proof.
  intros w'.
  destruct (completed_experiment_recorded_in_order [2; 1] ["one"; "two"]
              ([EvLoad 0%nat (Fulfilled (Decoded 2)) 1%Q;
                EvLoad 1%nat (Fulfilled (Decoded 1)) 2%Q]
               ++ hostEvents 6 3%Q ++ [EvHost false 4%Q]
               ++ hostEvents 4 5%Q) w')
    as (H1 & _ & _ & H4 & _).
  - vm_compute. reflexivity.
  - split; assumption.
Defined.



(** ** More on the synchronous operations of the preloader *)

Lemma map_size_le_keys {A : Type} (m : gmap Z A) (l : list Z) :
  (∀ k, is_Some (m !! k) -> k ∈ l) -> (size m ≤ length l)%nat.
Proof.
  revert m. induction l as [|x l IH]; intros m Hkeys.
  - assert (m = ∅) as ->; [|rewrite map_size_empty; simpl; lia].
    apply map_empty. intros k.
    destruct (m !! k) eqn:Hk; [|reflexivity].
    exfalso. eapply not_elem_of_nil. apply (Hkeys k). eauto.
  - assert (Hdel : (size (delete x m) ≤ length l)%nat).
    { apply IH. intros k [v Hk]. apply lookup_delete_Some in Hk as [Hne Hk].
      specialize (Hkeys k (ex_intro _ v Hk)).
      apply elem_of_cons in Hkeys as [->|Hin]; [contradiction|assumption]. }
    rewrite map_size_delete in Hdel. simpl.
    destruct (m !! x); simpl in Hdel; lia.
Qed.

Lemma length_jsSlice {A : Type} (l : list A) (s e : Z) :
  0 ≤ s -> 0 ≤ e -> (length (jsSlice l s e) ≤ Z.to_nat (e - s))%nat.
Proof.
  intros Hs He. rewrite jsSlice_positions by assumption.
  rewrite length_take. lia.
Qed.

(** X14. [clearOldBuffers] bounds the cache: with the end of the
    retained range not negative, at most as many buffers stay cached as
    the range [max(0, currentIndex - keepBehind), currentIndex +
    bufferAhead + 3) has positions, however many were cached before; in
    the experiment, with [bufferAhead = 3] and [keepBehind = 2], that is
    at most 8. *)
Theorem clearOldBuffers_bounds_cache (sequence : list Z)
    (currentIndex keepBehind : Z) (w : World) :
  0 ≤ currentIndex + bufferAhead (pre w) + 3 ->
  let w' := clearOldBuffers sequence currentIndex keepBehind w in
  (size (audioBuffers (pre w'))
   ≤ Z.to_nat (currentIndex + bufferAhead (pre w) + 3
               - Z.max 0 (currentIndex - keepBehind)))%nat
  ∧ (size (audioBuffers (pre w')) ≤ size (audioBuffers (pre w)))%nat
  ∧ (bufferAhead (pre w) = 3 -> keepBehind = 2 ->
     (size (audioBuffers (pre w')) ≤ 8)%nat).
Proof.
  intros Hhi w'.
  assert (Hkeys : ∀ k, is_Some (audioBuffers (pre w') !! k) ->
            k ∈ keepStimuli sequence currentIndex keepBehind w).
  { intros k [b Hk]. unfold w' in Hk. rewrite clearOldBuffers_lookup in Hk.
    case_decide; [assumption|discriminate]. }
  assert (Hbound : (size (audioBuffers (pre w'))
            ≤ Z.to_nat (currentIndex + bufferAhead (pre w) + 3
                        - Z.max 0 (currentIndex - keepBehind)))%nat).
  { etransitivity; [exact (map_size_le_keys _ _ Hkeys)|].
    unfold keepStimuli. apply length_jsSlice; [apply Z.le_max_l|assumption]. }
  split; [exact Hbound|]. split.
  - apply map_subseteq_size, map_subseteq_spec. intros k b Hk.
    unfold w' in Hk. rewrite clearOldBuffers_lookup in Hk.
    case_decide; [assumption|discriminate].
  - intros H3 H2. rewrite H3, H2 in Hbound. lia.
Qed.

Lemma clearOldBuffers_bounds_cache_witness :
  (size (audioBuffers
           (pre (clearOldBuffers piSequence 4 2
                   (preloadAhead piSequence 0 afterInitial)))) ≤ 7)%nat.
Proof.
  apply (clearOldBuffers_bounds_cache piSequence 4 2
           (preloadAhead piSequence 0 afterInitial)).
  vm_compute. intro. discriminate.
Defined.

(** X15. [clearOldBuffers] is idempotent: a second call with the same
    arguments changes nothing, as everything outside the range is gone
    after the first. *)
Theorem clearOldBuffers_idempotent (sequence : list Z)
    (currentIndex keepBehind : Z) (w : World) :
  clearOldBuffers sequence currentIndex keepBehind
    (clearOldBuffers sequence currentIndex keepBehind w)
  = clearOldBuffers sequence currentIndex keepBehind w.
Proof.
  assert (Hmap :
    audioBuffers
      (pre (clearOldBuffers sequence currentIndex keepBehind
              (clearOldBuffers sequence currentIndex keepBehind w)))
    = audioBuffers (pre (clearOldBuffers sequence currentIndex keepBehind w))).
  { apply map_eq. intros k. rewrite !clearOldBuffers_lookup.
    change (keepStimuli sequence currentIndex keepBehind
              (clearOldBuffers sequence currentIndex keepBehind w))
      with (keepStimuli sequence currentIndex keepBehind w).
    case_decide; reflexivity. }
  unfold clearOldBuffers at 1. unfold with_pre, set_audioBuffers.
  unfold clearOldBuffers at 1 in Hmap. simpl in Hmap. simpl.
  rewrite Hmap. reflexivity.
Qed.

Lemma loadAudio_inflight_mono id id' w :
  is_Some (loadingPromises (pre w) !! id') ->
  is_Some (loadingPromises (pre (fst (loadAudio id w))) !! id').
Proof.
  intros Hin. unfold loadAudio. case_decide; [assumption|]. simpl.
  destruct (decide (id = id')) as [->|Hne].
  - rewrite lookup_insert_eq. eauto.
  - by rewrite lookup_insert_ne.
Qed.

Lemma foldl_loadAudio_inflight (ids : list Z) (w : World) (id : Z) :
  is_Some (loadingPromises (pre w) !! id)
  ∨ (id ∈ ids ∧ id ∉ failedLoads (pre w)) ->
  is_Some (loadingPromises
             (pre (foldl (fun w' x => fst (loadAudio x w')) w ids)) !! id).
Proof.
  revert w. induction ids as [|x ids IH]; intros w Hcase; simpl.
  { destruct Hcase as [H|[H _]]; [assumption|]. by apply not_elem_of_nil in H. }
  apply IH.
  destruct Hcase as [Hin|[Hin Hnf]].
  - left. by apply loadAudio_inflight_mono.
  - apply elem_of_cons in Hin as [->|Hin].
    + left. rewrite loadAudio_starts by assumption. simpl.
      rewrite lookup_insert_eq. eauto.
    + right. split; [assumption|].
      destruct (loadAudio_frame x w) as (_ & _ & Hf & _). simpl in Hf.
      by rewrite Hf.
Qed.

(** X16. [preloadAhead] called again for the same trial, before any of
    the loads has an outcome, starts nothing: the ids it started are in
    flight and are filtered out, and the ids that failed before are
    turned down by [loadAudio] as they were the first time. *)
Theorem preloadAhead_again_starts_nothing (sequence : list Z)
    (currentIndex : Z) (w : World) :
  preloadAhead sequence currentIndex (preloadAhead sequence currentIndex w)
  = preloadAhead sequence currentIndex w.
Proof.
  set (w' := preloadAhead sequence currentIndex w).
  destruct (foldl_loadAudio_frame (toLoad sequence currentIndex w) w)
    as (_ & Hc & Hf & _ & _ & Hcfg & _).
  fold (preloadAhead sequence currentIndex w) in Hc, Hf, Hcfg. fold w' in Hc, Hf, Hcfg.
  unfold preloadAhead at 1. apply foldl_loadAudio_failed_ids.
  apply Forall_forall. intros id Hin.
  unfold toLoad in Hin. apply list_elem_of_filter in Hin as [[Hmiss Hfree] Hbatch].
  assert (Hb : aheadBatch sequence currentIndex w'
               = aheadBatch sequence currentIndex w).
  { unfold aheadBatch. destruct Hcfg as (_ & _ & -> & _). reflexivity. }
  rewrite Hb in Hbatch. rewrite Hc in Hmiss. rewrite Hf.
  destruct (decide (id ∈ failedLoads (pre w))) as [Hin|Hnin]; [assumption|].
  exfalso.
  assert (Hsome : is_Some (loadingPromises (pre w') !! id)).
  { unfold w', preloadAhead. apply foldl_loadAudio_inflight.
    destruct (loadingPromises (pre w) !! id) eqn:Hl; [left; eauto|].
    right. split; [|assumption].
    unfold toLoad. apply list_elem_of_filter. auto. }
  rewrite Hfree in Hsome. by destruct Hsome.
Qed.

(** ** The pause screen around a wait *)

(** X17. When [getAudioBuffer] with the pause screen enabled, or
    [ensureNextTrialReady], returns, the pause screen is as it should
    be: if the buffer was cached the host was not touched; if the call
    had to wait, the pause callback ran once and the resume callback
    once after it, so the overlay is hidden, [isPaused] is false and the
    console has the pause for this stimulus followed by the resume,
    whatever else happened while the call waited. *)
Theorem pause_screen_is_lowered_after_wait (sequence : list Z) (i : nat)
    (id : Z) (evs : list Event) (w w' : World) :
  inflight_ok w -> hosted w ->
  let waited :=
    mkHost (results (host w)) false (Some false)
      (console (host w) ++ [ExperimentPaused id; ExperimentResumed])
      (played (host w)) (localStorage (host w)) in
  let expected :=
    match audioBuffers (pre w) !! id with
    | Some _ => host w
    | None => waited
    end in
  (∀ b, run evs (getAudioBuffer id true w) = Done w' b -> host w' = expected)
  ∧ (sequence !! i = Some id ->
     ∀ r, run evs (ensureNextTrialReady sequence i w) = Done w' r ->
          host w' = expected).
Proof.
  intros Hok [Hp Hr] waited expected.
  assert (Hw : resumeHost (pre w) (pauseHost (pre w) id (host w)) = waited).
  { unfold resumeHost, pauseHost, waited. rewrite Hp, Hr.
    unfold hidePauseScreen, showPauseScreen. simpl.
    rewrite <- app_assoc. reflexivity. }
  split.
  - intros b Hrun.
    apply (safe_run_Done _ _ evs _ w' b (getAudioBuffer_safe id true w Hok))
      in Hrun.
    destruct Hrun as (_ & _ & _ & Hh). rewrite Hh. unfold expected.
    destruct (audioBuffers (pre w) !! id); [reflexivity|exact Hw].
  - intros Hi r Hrun.
    apply (safe_run_Done _ _ evs _ w' r
             (ensureNextTrialReady_safe sequence i id w Hok Hi)) in Hrun.
    destruct Hrun as (_ & _ & _ & _ & Hh). rewrite Hh. unfold expected.
    destruct (audioBuffers (pre w) !! id); [reflexivity|exact Hw].
Qed.

Lemma pause_screen_is_lowered_after_wait_witness :
  console
    (host (worldOf (run [EvLoad 0%nat (Fulfilled (Decoded 4)) 1%Q]
                      (getAudioBuffer 4 true loading4))))
  = [ExperimentPaused 4; ExperimentResumed].
Proof.
  destruct (pause_screen_is_lowered_after_wait identitySequence 3 4
              [EvLoad 0%nat (Fulfilled (Decoded 4)) 1%Q] loading4
              (worldOf (run [EvLoad 0%nat (Fulfilled (Decoded 4)) 1%Q]
                          (getAudioBuffer 4 true loading4)))
              (loadAudio_inflight_ok 4 newExperiment newExperiment_inflight_ok)
              (conj eq_refl eq_refl))
    as [H1 _].
  rewrite (H1 (Decoded 4)); [reflexivity|].
  vm_compute. reflexivity.
Defined.

(** ** When an experiment stops *)














(** ** What is played *)

Lemma startTrial_tidy (id : Z) (w : World) :
  tidy w -> always tidy (startTrial id w).
Proof.
  intros Ht. unfold startTrial.
  apply always_bind; [by apply sleep_tidy|].
  intros _ w1 Ht1. apply always_bind; [by apply getAudioBuffer_tidy|].
  intros b w2 Ht2. constructor. exact Ht2.
Qed.

(** X19. The buffer a trial plays is audio of its own stimulus: when
    [runTrial] starts the playback for stimulus [id], in a preloader
    whose tables agree with the loads, the buffer handed to the source
    is the one some load of [id] delivered, and it is the entry the
    cache holds for [id] at that moment; this holds whether the buffer
    was cached already, was in flight, or had to be requested by the
    trial itself. *)
Theorem played_buffer_was_loaded_for_its_stimulus (id : Z) (w : World)
    (evs : list Event) (w' : World) (b : AudioBuffer) (t1 : Q) :
  tidy w ->
  run evs (startTrial id w) = Done w' (b, t1) ->
  last (played (host w')) = Some (id, b)
  ∧ audioBuffers (pre w') !! id = Some b
  ∧ ∃ h f, fetches w' !! h = Some f ∧ fetchId f = id
           ∧ status f = Finished (Fulfilled b).
Proof.
  intros Ht Hrun.
  assert (Hs : safe
            (fun w' bt =>
               (audioBuffers (pre w') !! id = Some (fst bt)
                ∧ last (played (host w')) = Some (id, fst bt))
               ∧ tidy w')
            (fun w' _ => True ∧ tidy w')
            (startTrial id w)).
  { apply (safe_always tidy).
    - intros. by apply deliver_tidy.
    - intros now w0 Ht0. exact Ht0.
    - eapply safe_weaken; [exact (startTrial_safe id w (proj1 Ht))| |auto].
      intros w0 bt (Hc & Hl & _). auto.
    - by apply startTrial_tidy. }
  apply (safe_run_Done _ _ evs _ w' (b, t1) Hs) in Hrun.
  destruct Hrun as [[Hc Hl] Ht']. simpl in Hc, Hl.
  split; [exact Hl|]. split; [exact Hc|].
  destruct Ht' as (_ & _ & _ & _ & Hcache & _). by apply Hcache.
Qed.

Lemma played_buffer_was_loaded_for_its_stimulus_witness :
  let w' :=
    worldOf (run [EvHost true 1%Q; EvLoad 0%nat (Fulfilled (Decoded 4)) 2%Q]
               (startTrial 4 newExperiment)) in
  last (played (host w')) = Some (4, Decoded 4).
Proof.
  intros w'.
  destruct (played_buffer_was_loaded_for_its_stimulus 4 newExperiment
              [EvHost true 1%Q; EvLoad 0%nat (Fulfilled (Decoded 4)) 2%Q]
              w' (Decoded 4) 2%Q newExperiment_tidy)
    as [H1 _].
  - vm_compute. reflexivity.
  - exact H1.
Defined.

(** ** The figures of [getProgress] *)

Lemma NoDup_keys_le_size {A : Type} (m : gmap Z A) (l : list Z) :
  NoDup l -> (∀ k, k ∈ l -> is_Some (m !! k)) -> (length l ≤ size m)%nat.
Proof.
  revert m. induction l as [|x l IH]; intros m Hnd Hkeys; simpl; [lia|].
  apply NoDup_cons in Hnd as [Hnin Hnd].
  assert (Hx : is_Some (m !! x)) by (apply Hkeys; by left).
  assert (Hdel : (length l ≤ size (delete x m))%nat).
  { apply IH; [assumption|]. intros k Hk.
    rewrite lookup_delete_ne by (intros ->; contradiction).
    apply Hkeys. by right. }
  rewrite map_size_delete in Hdel. destruct Hx as [v Hv].
  rewrite Hv in Hdel. simpl in Hdel.
  assert (size m ≠ 0%nat).
  { apply map_size_non_empty_iff. intros ->.
    rewrite lookup_empty in Hv. discriminate. }
  lia.
Qed.

Lemma elem_of_filter_fetches (P : Fetch -> bool) (l : list Fetch) (id : Z) :
  id ∈ fetchId <$> List.filter P l
  ↔ ∃ h f, l !! h = Some f ∧ fetchId f = id ∧ P f = true.
Proof.
  rewrite list_elem_of_fmap. split.
  - intros (f & -> & Hin). apply list_elem_of_In, filter_In in Hin as [Hin HP].
    apply list_elem_of_In, list_elem_of_lookup in Hin as [h Hh]. eauto.
  - intros (h & f & Hh & <- & HP). exists f. split; [reflexivity|].
    apply list_elem_of_In, filter_In. split; [|assumption].
    apply list_elem_of_In, list_elem_of_lookup. eauto.
Qed.

Lemma NoDup_pending_ids (l : list Fetch) :
  (∀ h1 h2 f1 f2, l !! h1 = Some f1 -> l !! h2 = Some f2 ->
     isPending f1 = true -> isPending f2 = true ->
     fetchId f1 = fetchId f2 -> h1 = h2) ->
  NoDup (fetchId <$> List.filter isPending l).
Proof.
  induction l as [|x l IH]; intros Hinj; simpl; [constructor|].
  assert (Hl : NoDup (fetchId <$> List.filter isPending l)).
  { apply IH. intros h1 h2 f1 f2 H1 H2 Hp1 Hp2 Hid.
    assert (S h1 = S h2) by (by apply (Hinj (S h1) (S h2) f1 f2)). lia. }
  destruct (isPending x) eqn:Hx; [|exact Hl].
  rewrite fmap_cons. apply NoDup_cons. split; [|exact Hl].
  intros Hin. apply elem_of_filter_fetches in Hin as (h & f & Hh & Hid & Hp).
  assert (0%nat = S h) by (by apply (Hinj 0%nat (S h) x f)).
  discriminate.
Qed.

Lemma size_list_to_set_le (l : list Z) :
  (size (list_to_set (C := gset Z) l) ≤ length l)%nat.
Proof.
  induction l as [|x l IH].
  - rewrite list_to_set_nil, size_empty. reflexivity.
  - rewrite list_to_set_cons, size_union_alt, size_singleton.
    assert (Hsub : (size (list_to_set (C := gset Z) l ∖ {[x]})
                    ≤ size (list_to_set (C := gset Z) l))%nat)
      by (apply subseteq_size; intros y Hy;
          apply elem_of_difference in Hy; tauto).
    simpl. lia.
Qed.

(** What the figures of [getProgress] mean when the tables agree with
    the loads. *)
Lemma tidy_progress (w : World) :
  tidy w ->
  currentlyLoading (getProgress w)
  = length (List.filter isPending (fetches w))
  ∧ (size (audioBuffers (pre w)) ≤ fulfilledCount w)%nat
  ∧ (failed (getProgress w)
     ≤ length (fetches w) - fulfilledCount w
       - length (List.filter isPending (fetches w)))%nat.
Proof.
  intros ((Hin & Hnofail) & Hreg & Hcnt & Htally & Hcache & Hfailed & Hfresh).
  assert (Hpend : ∀ f, isPending f = true ↔ status f = Pending).
  { intros f. unfold isPending. destruct (status f); split; congruence. }
  split; [|split].
  - simpl. apply Nat.le_antisymm.
    + etransitivity; [apply (map_size_le_keys _
                               (fetchId <$> List.filter isPending (fetches w)))|].
      * intros id [h Hh]. apply elem_of_filter_fetches.
        destruct (Hin id h Hh) as (f & Hf & Hid & Hst).
        exists h, f. split; [assumption|]. split; [assumption|].
        by apply Hpend.
      * by rewrite length_fmap.
    + rewrite <- (length_fmap fetchId).
      apply NoDup_keys_le_size.
      * apply NoDup_pending_ids. intros h1 h2 f1 f2 H1 H2 Hp1 Hp2 Hid.
        apply Hpend in Hp1, Hp2.
        assert (Ha := Hreg h1 f1 H1 Hp1). assert (Hb := Hreg h2 f2 H2 Hp2).
        rewrite Hid in Ha. congruence.
      * intros id Hid. apply elem_of_filter_fetches in Hid
          as (h & f & Hf & <- & Hp).
        apply Hpend in Hp. rewrite (Hreg h f Hf Hp). eauto.
  - unfold fulfilledCount. rewrite <- (length_fmap fetchId).
    apply map_size_le_keys. intros id [b Hb].
    apply elem_of_filter_fetches.
    destruct (Hcache id b Hb) as (h & f & Hf & Hid & Hst).
    exists h, f. split; [assumption|]. split; [assumption|].
    unfold isFulfilled. rewrite Hst. reflexivity.
  - simpl. unfold fulfilledCount.
    set (isRejected := fun f : Fetch =>
           match status f with Finished (Rejected _) => true | _ => false end).
    assert (Hsplit : ∀ l : list Fetch,
              (length (List.filter isRejected l)
               + length (List.filter isFulfilled l)
               + length (List.filter isPending l) = length l)%nat).
    { induction l as [|x l IH]; simpl; [reflexivity|].
      unfold isRejected at 1, isFulfilled at 1, isPending at 1.
      destruct (status x) as [|[b|e]]; simpl; lia. }
    specialize (Hsplit (fetches w)).
    assert (Hle : (size (failedLoads (pre w))
                   ≤ length (List.filter isRejected (fetches w)))%nat).
    { rewrite <- (length_fmap fetchId).
      transitivity (size (list_to_set (C := gset Z)
                            (fetchId <$> List.filter isRejected (fetches w)))).
      - apply subseteq_size. intros id Hid. apply elem_of_list_to_set.
        apply elem_of_filter_fetches. apply Hfailed in Hid
          as (h & f & e & Hf & Hidf & Hst).
        exists h, f. split; [assumption|]. split; [assumption|].
        unfold isRejected. rewrite Hst. reflexivity.
      - apply size_list_to_set_le. }
    lia.
Qed.

(** X20. At every moment of an experiment whose sequence has no stimulus
    twice, the figures of [getProgress] tell what the loads did:
    [currentlyLoading] is the number of loads without an outcome,
    [loaded] is the number of loads that succeeded and is at least the
    number of buffers in the cache, and [failed] is at most the number
    of loads that failed. *)
Theorem getProgress_agrees_with_loads (sequence : list Z)
    (characters : list string) (evs : list Event) :
  NoDup sequence ->
  let w := worldOf (run evs (init sequence characters newExperiment)) in
  let pending := length (List.filter isPending (fetches w)) in
  currentlyLoading (getProgress w) = pending
  ∧ loaded (getProgress w) = Z.of_nat (fulfilledCount w)
  ∧ (Z.of_nat (size (audioBuffers (pre w))) ≤ loaded (getProgress w))
  ∧ (failed (getProgress w)
     ≤ length (fetches w) - fulfilledCount w - pending)%nat.
Proof.
  intros Hnd w pending.
  assert (Ht : tidy w).
  { apply (always_run tidy).
    - intros. by apply deliver_tidy.
    - intros now w0 Ht0. exact Ht0.
    - apply init_tidy;
        [assumption|reflexivity|reflexivity|apply newExperiment_tidy]. }
  destruct (tidy_progress w Ht) as (H1 & H2 & H3).
  destruct Ht as (_ & _ & _ & Htally & _).
  split; [exact H1|]. split; [exact Htally|]. split; [|exact H3].
  change (loaded (getProgress w)) with (loadedCount (pre w)).
  rewrite Htally. lia.
Qed.

Lemma getProgress_agrees_with_loads_witness :
  currentlyLoading
    (getProgress
       (worldOf (run [EvLoad 0%nat (Fulfilled (Decoded 3)) 1%Q;
                      EvLoad 2%nat (Rejected (HttpError 404)) 2%Q]
                   (init [3; 1; 4; 5] [] newExperiment))))
  = 1%nat.
Proof.
  destruct (getProgress_agrees_with_loads [3; 1; 4; 5] []
              [EvLoad 0%nat (Fulfilled (Decoded 3)) 1%Q;
               EvLoad 2%nat (Rejected (HttpError 404)) 2%Q])
    as [H1 _].
  - apply (bool_decide_unpack _). vm_compute. exact Logic.I.
  - rewrite H1. reflexivity.
Defined.
